(** * A limit order book with a price-time priority matching engine

    Shallow embedding of [Types.h], [PriceLevel.h], [OrderBook.h] and
    [MatchingEngine.h].

    - [uint64_t] values ([OrderId], [Quantity], [Timestamp]) are integers in
      [0, 2^64); every arithmetic operation of the source on them is followed
      by [wrap64].  [Price] is [int64_t]; the engine only compares prices.
    - An [Order*] is the position of the order in [storage_]: the engine owns
      every order through [storage_], never frees one, and the book only holds
      pointers the engine handed to it.  Writing through a pointer is an
      update of [storage_] at that position, so the level, the index and the
      engine all see it.
    - [std::map<Price, PriceLevel, Compare>] is the list of its entries in
      iteration order ([begin()] is the head); [std::unordered_map] is a
      [gmap].
    - [while] loops take fuel; the fuel each call site passes is shown to be
      enough on every state the engine can reach. *)

From Stdlib Require Import ZArith Floats.PrimFloat Floats.SpecFloat
  Floats.FloatOps Numbers.Cyclic.Int63.Uint63.
From stdpp Require Import gmap list strings pretty sorting.

Local Open Scope Z_scope.

(** ** Types.h *)

Abbreviation OrderId := Z (only parsing).
Abbreviation Price := Z (only parsing).
Abbreviation Quantity := Z (only parsing).
Abbreviation Timestamp := Z (only parsing).

Definition wrap64 (z : Z) : Z := z mod 2 ^ 64.

Inductive Side : Set := Buy | Sell.

Global Instance Side_eq_dec : EqDecision Side.
Proof. solve_decision. Defined.

Record Order := mkOrder {
  id : OrderId;
  side : Side;
  price : Price;
  quantity : Quantity;      (* remaining quantity *)
  originalQty : Quantity;
  timestamp : Timestamp
}.

Global Instance Order_inhabited : Inhabited Order :=
  populate (mkOrder 0 Buy 0 0 0 0).

(** The fields of [Trade] are [makerOrderId], [takerOrderId], [price] and
    [quantity]; the last two are prefixed here, [Order] has the plain names. *)
Record Trade := mkTrade {
  makerOrderId : OrderId;
  takerOrderId : OrderId;
  trade_price : Price;
  trade_quantity : Quantity
}.

(** [order->quantity = q]. *)
Definition set_quantity (q : Quantity) (o : Order) : Order :=
  mkOrder (id o) (side o) (price o) q (originalQty o) (timestamp o).

Definition store_quantity (p : nat) (q : Quantity) (h : list Order) : list Order :=
  alter (set_quantity q) p h.

(** ** PriceLevel.h *)

Module PriceLevel.

Record t := mk {
  price : Price;
  orders_ : list nat;       (* std::deque<Order*>, front first *)
  totalQty_ : Quantity
}.

Definition new (p : Price) : t := mk p [] 0.

Definition addOrder (h : list Order) (order : nat) (l : t) : t :=
  mk (price l) (orders_ l ++ [order])
     (wrap64 (totalQty_ l + quantity (h !!! order))).

(** The scan of [removeOrder]: the first order with the given id, and the
    deque without it. *)
Fixpoint erase_id (h : list Order) (i : OrderId) (os : list nat)
  : option (nat * list nat) :=
  match os with
  | [] => None
  | o :: os' =>
      if decide (id (h !!! o) = i) then Some (o, os')
      else match erase_id h i os' with
           | Some (x, r) => Some (x, o :: r)
           | None => None
           end
  end.

Definition removeOrder (h : list Order) (i : OrderId) (l : t) : bool * t :=
  match erase_id h i (orders_ l) with
  | Some (o, os') =>
      (true, mk (price l) os' (wrap64 (totalQty_ l - quantity (h !!! o))))
  | None => (false, l)
  end.

(** [nullptr] is [None]. *)
Definition getFront (l : t) : option nat := head (orders_ l).

Definition popFront (h : list Order) (l : t) : t :=
  match orders_ l with
  | [] => l
  | o :: os' => mk (price l) os' (wrap64 (totalQty_ l - quantity (h !!! o)))
  end.

Definition empty (l : t) : bool :=
  match orders_ l with [] => true | _ => false end.

(** [reduceTop] enters its branch when the deque is empty, where
    [orders_.front()] has no object to return: the result is [None] there.
    On a level that holds orders the branch is skipped. *)
Definition reduceTop (qty : Quantity) (h : list Order) (l : t)
  : option (list Order * t) :=
  if empty l then
    match getFront l with
    | None => None
    | Some o =>
        Some (store_quantity o (wrap64 (quantity (h !!! o) - qty)) h,
              mk (price l) (orders_ l) (wrap64 (totalQty_ l - qty)))
    end
  else Some (h, l).

Definition adjustTotal (delta : Quantity) (l : t) : t :=
  mk (price l) (orders_ l) (wrap64 (totalQty_ l - delta)).

Definition totalQuantity (l : t) : Quantity := totalQty_ l.
Definition orderCount (l : t) : nat := length (orders_ l).

End PriceLevel.

(** ** std::map as the list of its entries in iteration order *)

Section StdMap.
Context {V : Type}.

(** [m.find(k)] *)
Fixpoint map_find (k : Price) (m : list (Price * V)) : option V :=
  match m with
  | [] => None
  | (k', v) :: m' => if decide (k' = k) then Some v else map_find k m'
  end.

(** [m.emplace(k, v)]: no effect when the key is present. *)
Fixpoint map_emplace (comp : Price → Price → bool) (k : Price) (v : V)
    (m : list (Price * V)) : list (Price * V) :=
  match m with
  | [] => [(k, v)]
  | (k', v') :: m' =>
      if comp k k' then (k, v) :: m
      else if comp k' k then (k', v') :: map_emplace comp k v m'
      else m
  end.

(** Assignment through an iterator to the entry of [k]. *)
Fixpoint map_set (k : Price) (v : V) (m : list (Price * V))
  : list (Price * V) :=
  match m with
  | [] => []
  | (k', v') :: m' =>
      if decide (k' = k) then (k', v) :: m' else (k', v') :: map_set k v m'
  end.

(** [m.erase(it)] for the iterator of [k]. *)
Fixpoint map_erase (k : Price) (m : list (Price * V)) : list (Price * V) :=
  match m with
  | [] => []
  | (k', v') :: m' =>
      if decide (k' = k) then m' else (k', v') :: map_erase k m'
  end.
End StdMap.

(** ** OrderBook.h *)

(** The result of an [int64_t] addition or subtraction whose exact value is
    [z].  Signed overflow is undefined in C++; the model gives the
    two's-complement result, which is what the compiled code yields. *)
Definition wrap_i64 (z : Z) : Z := (z + 2 ^ 63) mod 2 ^ 64 - 2 ^ 63.

(** [static_cast<double>] of an [int64_t]: the binary64 number nearest to
    [z], ties to even; [+0.0] for 0. *)
Definition to_double (z : Z) : float :=
  SF2Prim (binary_normalize prec emax z 0 false).

Module OrderBook.

Record t := mk {
  bids_ : list (Price * PriceLevel.t);   (* ordered by std::greater *)
  asks_ : list (Price * PriceLevel.t);   (* ordered by std::less *)
  index_ : gmap Z nat
}.

Definition new : t := mk [] [] ∅.

(** [auto [it, _] = m.emplace(p, PriceLevel(p)); it->second.addOrder(order)]
    for a map ordered by [comp]. *)
Definition add_in (comp : Price → Price → bool) (h : list Order) (order : nat)
    (p : Price) (m : list (Price * PriceLevel.t)) : list (Price * PriceLevel.t) :=
  let m' := map_emplace comp p (PriceLevel.new p) m in
  match map_find p m' with
  | Some l => map_set p (PriceLevel.addOrder h order l) m'
  | None => m'
  end.

Definition addOrder (h : list Order) (order : nat) (b : t) : t :=
  let p := price (h !!! order) in
  match side (h !!! order) with
  | Buy => mk (add_in Z.gtb h order p (bids_ b)) (asks_ b)
              (<[id (h !!! order) := order]> (index_ b))
  | Sell => mk (bids_ b) (add_in Z.ltb h order p (asks_ b))
               (<[id (h !!! order) := order]> (index_ b))
  end.

(** [removeOrder] on the level of [p], then the level is erased when empty. *)
Definition cancel_in (h : list Order) (i : OrderId) (p : Price)
    (m : list (Price * PriceLevel.t)) : list (Price * PriceLevel.t) :=
  match map_find p m with
  | Some l =>
      let l' := (PriceLevel.removeOrder h i l).2 in
      if PriceLevel.empty l' then map_erase p m else map_set p l' m
  | None => m
  end.

Definition cancelOrder (h : list Order) (i : OrderId) (b : t) : bool * t :=
  match index_ b !! i with
  | None => (false, b)
  | Some order =>
      let p := price (h !!! order) in
      match side (h !!! order) with
      | Buy => (true, mk (cancel_in h i p (bids_ b)) (asks_ b)
                         (delete i (index_ b)))
      | Sell => (true, mk (bids_ b) (cancel_in h i p (asks_ b))
                          (delete i (index_ b)))
      end
  end.

Definition adjust_in (delta : Quantity) (p : Price)
    (m : list (Price * PriceLevel.t)) : list (Price * PriceLevel.t) :=
  match map_find p m with
  | Some l => map_set p (PriceLevel.adjustTotal delta l) m
  | None => m
  end.

(** The order is written through its pointer, so the store is returned too. *)
Definition modifyQuantity (h : list Order) (i : OrderId) (newQty : Quantity)
    (b : t) : bool * (list Order * t) :=
  match index_ b !! i with
  | None => (false, (h, b))
  | Some order =>
      if newQty >=? quantity (h !!! order) then (false, (h, b))
      else
        let delta := wrap64 (quantity (h !!! order) - newQty) in
        let h' := store_quantity order newQty h in
        let p := price (h' !!! order) in
        match side (h' !!! order) with
        | Buy => (true, (h', mk (adjust_in delta p (bids_ b)) (asks_ b)
                                (index_ b)))
        | Sell => (true, (h', mk (bids_ b) (adjust_in delta p (asks_ b))
                                 (index_ b)))
        end
  end.

Definition clean_in (p : Price) (m : list (Price * PriceLevel.t))
  : list (Price * PriceLevel.t) :=
  match map_find p m with
  | Some l => if PriceLevel.empty l then map_erase p m else m
  | None => m
  end.

Definition cleanLevel (s : Side) (p : Price) (b : t) : t :=
  match s with
  | Buy => mk (clean_in p (bids_ b)) (asks_ b) (index_ b)
  | Sell => mk (bids_ b) (clean_in p (asks_ b)) (index_ b)
  end.

Definition removeFromIndex (i : OrderId) (b : t) : t :=
  mk (bids_ b) (asks_ b) (delete i (index_ b)).

Definition bestBid (b : t) : option Price :=
  match bids_ b with [] => None | (p, _) :: _ => Some p end.

Definition bestAsk (b : t) : option Price :=
  match asks_ b with [] => None | (p, _) :: _ => Some p end.

(** The [int64_t] difference [*ask - *bid], cast to [double] and divided
    by 100.0. *)
Definition spread (b : t) : option float :=
  match bestBid b, bestAsk b with
  | Some bid, Some ask =>
      Some (PrimFloat.div (to_double (wrap_i64 (ask - bid))) 100%float)
  | _, _ => None
  end.

(** The [int64_t] sum [*bid + *ask], cast to [double] and divided by
    200.0. *)
Definition midPrice (b : t) : option float :=
  match bestBid b, bestAsk b with
  | Some bid, Some ask =>
      Some (PrimFloat.div (to_double (wrap_i64 (bid + ask))) 200%float)
  | _, _ => None
  end.

Definition hasOrder (i : OrderId) (b : t) : bool :=
  bool_decide (is_Some (index_ b !! i)).

Definition getOrder (i : OrderId) (b : t) : option nat := index_ b !! i.

End OrderBook.

(** ** MatchingEngine.h *)

(** [std::runtime_error] with its [what()] string. *)
Inductive runtime_error := RuntimeError (what : string).

Module MatchingEngine.

Record t := mk {
  book_ : OrderBook.t;
  storage_ : list Order;
  nextOrderId_ : OrderId
}.

(** What a member function call does: it returns a value, or throws, in both
    cases leaving the engine in some state; [OutOfFuel] is a loop that used up
    the fuel of the model. *)
Inductive Outcome (A : Type) :=
  | Returns (a : A) (e : t)
  | Throws (err : runtime_error) (e : t)
  | OutOfFuel.
Arguments Returns {A} a e.
Arguments Throws {A} err e.
Arguments OutOfFuel {A}.

Definition new : t := mk OrderBook.new [] 1.

(** The state [fillLevel] works on: the orders, the level it was given by
    reference, the index of the book and the trades so far. *)
Record FillState := mkFill {
  f_store : list Order;
  f_level : PriceLevel.t;
  f_index : gmap Z nat;
  f_trades : list Trade
}.

Fixpoint fillLevel (fuel : nat) (taker : nat) (st : FillState)
  : option FillState :=
  match fuel with
  | O => None
  | S fuel' =>
      let h := f_store st in
      if (0 <? quantity (h !!! taker)) && negb (PriceLevel.empty (f_level st))
      then
        match PriceLevel.getFront (f_level st) with
        | None => None
        | Some maker =>
            let fillQty := Z.min (quantity (h !!! taker)) (quantity (h !!! maker)) in
            let trades := f_trades st ++
              [mkTrade (id (h !!! maker)) (id (h !!! taker))
                       (price (h !!! maker)) fillQty] in
            let h1 := store_quantity taker
                        (wrap64 (quantity (h !!! taker) - fillQty)) h in
            let h2 := store_quantity maker
                        (wrap64 (quantity (h1 !!! maker) - fillQty)) h1 in
            let l1 := PriceLevel.adjustTotal fillQty (f_level st) in
            if quantity (h2 !!! maker) =? 0 then
              fillLevel fuel' taker
                (mkFill h2 (PriceLevel.popFront h2 l1)
                        (delete (id (h2 !!! maker)) (f_index st)) trades)
            else
              fillLevel fuel' taker (mkFill h2 l1 (f_index st) trades)
        end
      else Some st
  end.

(** The two loops of [match] differ in the map they walk and in the test
    that leaves the loop; [opp] is the side of the resting orders. *)
Definition opposite (s : Side) : Side :=
  match s with Buy => Sell | Sell => Buy end.

Definition side_map (s : Side) (b : OrderBook.t) : list (Price * PriceLevel.t) :=
  match s with Buy => OrderBook.bids_ b | Sell => OrderBook.asks_ b end.

Definition with_side_map (s : Side) (m : list (Price * PriceLevel.t))
    (idx : gmap Z nat) (b : OrderBook.t) : OrderBook.t :=
  match s with
  | Buy => OrderBook.mk m (OrderBook.asks_ b) idx
  | Sell => OrderBook.mk (OrderBook.bids_ b) m idx
  end.

(** [if (it->first > taker->price) break] on the asks,
    [if (it->first < taker->price) break] on the bids. *)
Definition leaves (opp : Side) (level_price taker_price : Price) : bool :=
  match opp with
  | Sell => level_price >? taker_price
  | Buy => level_price <? taker_price
  end.

Record MatchState := mkMatch {
  m_store : list Order;
  m_book : OrderBook.t;
  m_trades : list Trade
}.

Fixpoint walk (fuel : nat) (opp : Side) (taker : nat) (st : MatchState)
  : option MatchState :=
  match fuel with
  | O => None
  | S fuel' =>
      let h := m_store st in
      match side_map opp (m_book st) with
      | [] => Some st
      | (p, level) :: rest =>
          if 0 <? quantity (h !!! taker) then
            if leaves opp p (price (h !!! taker)) then Some st
            else
              match fillLevel (S (length (PriceLevel.orders_ level))) taker
                      (mkFill h level (OrderBook.index_ (m_book st))
                              (m_trades st)) with
              | None => None
              | Some f =>
                  let b1 := with_side_map opp ((p, f_level f) :: rest)
                              (f_index f) (m_book st) in
                  let b2 := if PriceLevel.empty (f_level f)
                            then OrderBook.cleanLevel opp p b1 else b1 in
                  walk fuel' opp taker (mkMatch (f_store f) b2 (f_trades f))
              end
          else Some st
      end
  end.

Definition match_ (taker : nat) (h : list Order) (b : OrderBook.t)
  : option MatchState :=
  let opp := opposite (side (h !!! taker)) in
  walk (S (length (side_map opp b))) opp taker (mkMatch h b []).

(** [now()] reads a clock; the reading is the argument [ts]. *)
Definition submitOrder (s : Side) (p : Price) (qty : Quantity) (ts : Timestamp)
    (e : t) : Outcome (list Trade) :=
  let order := mkOrder (nextOrderId_ e) s p qty qty ts in
  let next := wrap64 (nextOrderId_ e + 1) in
  let raw := length (storage_ e) in
  let h := storage_ e ++ [order] in
  match match_ raw h (book_ e) with
  | None => OutOfFuel
  | Some m =>
      let b := if 0 <? quantity (m_store m !!! raw)
               then OrderBook.addOrder (m_store m) raw (m_book m)
               else m_book m in
      Returns (m_trades m) (mk b (m_store m) next)
  end.

Definition cancelOrder (i : OrderId) (e : t) : Outcome bool :=
  let r := OrderBook.cancelOrder (storage_ e) i (book_ e) in
  Returns r.1 (mk r.2 (storage_ e) (nextOrderId_ e)).

Definition modifyOrder (i : OrderId) (newPrice : Price) (newQty : Quantity)
    (ts : Timestamp) (e : t) : Outcome (list Trade) :=
  match OrderBook.getOrder i (book_ e) with
  | None => Throws (RuntimeError ("Order not found: " +:+ pretty i)) e
  | Some order =>
      let h := storage_ e in
      if decide (newPrice = price (h !!! order)) then
        if newQty >=? quantity (h !!! order) then
          Throws (RuntimeError "Modify can only redice qty at same price") e
        else
          let r := OrderBook.modifyQuantity h i newQty (book_ e) in
          Returns [] (mk r.2.2 r.2.1 (nextOrderId_ e))
      else
        let s := side (h !!! order) in
        let r := OrderBook.cancelOrder h i (book_ e) in
        submitOrder s newPrice newQty ts (mk r.2 h (nextOrderId_ e))
  end.

Definition book (e : t) : OrderBook.t := book_ e.
Definition lastOrderId (e : t) : OrderId := wrap64 (nextOrderId_ e - 1).

End MatchingEngine.

(** * Verification *)

Import PriceLevel (orders_, totalQty_).
Import OrderBook (bids_, asks_, index_).
Import MatchingEngine (book_, storage_, nextOrderId_, side_map, with_side_map,
  opposite, f_store, f_level, f_index, f_trades, m_store, m_book, m_trades,
  Returns, Throws, OutOfFuel).

(** ** Unsigned 64-bit arithmetic *)

Definition u64 (z : Z) : Prop := 0 ≤ z < 2 ^ 64.

Lemma wrap64_small z : u64 z → wrap64 z = z.
Proof. intros Hz. apply Z.mod_small, Hz. Qed.

Lemma wrap64_u64 z : u64 (wrap64 z).
Proof. apply Z.mod_pos_bound. lia. Qed.

Lemma wrap64_sub_l a b : wrap64 (wrap64 a - b) = wrap64 (a - b).
Proof. apply Zminus_mod_idemp_l. Qed.

Lemma wrap64_add_l a b : wrap64 (wrap64 a + b) = wrap64 (a + b).
Proof. apply Zplus_mod_idemp_l. Qed.

(** ** The order store *)

(** Writes through a pointer only ever change [quantity]. *)
Definition same_static (h h' : list Order) : Prop :=
  length h' = length h ∧
  ∀ o, id (h' !!! o) = id (h !!! o) ∧ side (h' !!! o) = side (h !!! o) ∧
       price (h' !!! o) = price (h !!! o).

Lemma same_static_refl h : same_static h h.
Proof. by split. Qed.

Lemma same_static_trans h1 h2 h3 :
  same_static h1 h2 → same_static h2 h3 → same_static h1 h3.
Proof.
  intros [Hl1 H1] [Hl2 H2]. split; [congruence|].
  intros o. destruct (H1 o) as (?&?&?), (H2 o) as (?&?&?).
  repeat split; congruence.
Qed.

Lemma store_quantity_length p q h : length (store_quantity p q h) = length h.
Proof. apply length_alter. Qed.

Lemma store_quantity_ne p q h o :
  o ≠ p → store_quantity p q h !!! o = h !!! o.
Proof. intros. by apply list_lookup_total_alter_ne. Qed.

Lemma store_quantity_eq p q h :
  (p < length h)%nat → store_quantity p q h !!! p = set_quantity q (h !!! p).
Proof. intros. by apply list_lookup_total_alter_eq. Qed.

Lemma store_quantity_static p q h : same_static h (store_quantity p q h).
Proof.
  split; [apply store_quantity_length|].
  intros o. unfold store_quantity. rewrite list_lookup_total_alter.
  case_decide as Hd; [|done]. by destruct Hd as [-> _].
Qed.

Lemma store_quantity_u64 p q h :
  u64 q → Forall (λ o, u64 (quantity o)) h →
  Forall (λ o, u64 (quantity o)) (store_quantity p q h).
Proof.
  intros Hq Hh. apply Forall_lookup. intros j x.
  unfold store_quantity. rewrite list_lookup_alter.
  case_decide; subst.
  - destruct (h !! j) eqn:E; [|done]. intros [= <-]. exact Hq.
  - intros Hj. by eapply (proj1 (Forall_lookup _ _) Hh).
Qed.

Lemma store_u64_total h o :
  Forall (λ o, u64 (quantity o)) h → u64 (quantity (h !!! o)).
Proof.
  intros Hh. rewrite list_lookup_total_alt.
  destruct (h !! o) eqn:E; simpl.
  - by eapply (proj1 (Forall_lookup _ _) Hh).
  - unfold u64. simpl. lia.
Qed.

(** ** Sum of the remaining quantities of a deque *)

Fixpoint sum_qty (h : list Order) (os : list nat) : Z :=
  match os with
  | [] => 0
  | o :: os' => quantity (h !!! o) + sum_qty h os'
  end.

Lemma sum_qty_app h os1 os2 :
  sum_qty h (os1 ++ os2) = sum_qty h os1 + sum_qty h os2.
Proof. induction os1 as [|o os1 IH]; simpl; lia. Qed.

Lemma sum_qty_ext h h' os :
  (∀ o, o ∈ os → quantity (h' !!! o) = quantity (h !!! o)) →
  sum_qty h' os = sum_qty h os.
Proof.
  induction os as [|o os IH]; intros H; simpl; [done|].
  rewrite H by set_solver. rewrite IH; [done|]. intros; apply H; set_solver.
Qed.

(** ** Invariants of the book *)

(** [better s a b]: on side [s], price [a] comes before price [b]. *)
Definition better (s : Side) (a b : Price) : Prop :=
  match s with Buy => b < a | Sell => a < b end.

Definition side_comp (s : Side) : Price → Price → bool :=
  match s with Buy => Z.gtb | Sell => Z.ltb end.

Lemma side_comp_better s a b : side_comp s a b = true ↔ better s a b.
Proof. destruct s; simpl; [rewrite Z.gtb_ltb|]; apply Z.ltb_lt. Qed.

Lemma better_trans s a b c : better s a b → better s b c → better s a c.
Proof. destruct s; simpl; lia. Qed.

Lemma better_irrefl s a : ¬ better s a a.
Proof. destruct s; simpl; lia. Qed.

Lemma better_total s a b : ¬ better s a b → ¬ better s b a → a = b.
Proof. destruct s; simpl; lia. Qed.

Definition keys (m : list (Price * PriceLevel.t)) : list Price := m.*1.

(** The pointers held by the levels of one side, in iteration order. *)
Definition ptrs_of (m : list (Price * PriceLevel.t)) : list nat :=
  m ≫= (λ kl, orders_ kl.2).

Definition book_ptrs (b : OrderBook.t) : list nat :=
  ptrs_of (bids_ b) ++ ptrs_of (asks_ b).

(** Pointer [o] of the level of price [k] on side [s] points to an order of
    that side and price, and the index sends the id of that order to [o]. *)
Definition resting (h : list Order) (idx : gmap Z nat) (s : Side) (k : Price)
    (o : nat) : Prop :=
  (o < length h)%nat ∧ side (h !!! o) = s ∧ price (h !!! o) = k ∧
  idx !! id (h !!! o) = Some o.

Definition level_ok (h : list Order) (idx : gmap Z nat) (s : Side)
    (kl : Price * PriceLevel.t) : Prop :=
  Forall (resting h idx s kl.1) (orders_ kl.2) ∧
  totalQty_ kl.2 = wrap64 (sum_qty h (orders_ kl.2)).

Definition side_ok (h : list Order) (idx : gmap Z nat) (s : Side)
    (m : list (Price * PriceLevel.t)) : Prop :=
  Forall (level_ok h idx s) m ∧ StronglySorted (better s) (keys m).

Definition index_ok (h : list Order) (idx : gmap Z nat) (ps : list nat) : Prop :=
  ∀ i o, idx !! i = Some o → id (h !!! o) = i ∧ o ∈ ps.

Definition no_cross (bids asks : list (Price * PriceLevel.t)) : Prop :=
  ∀ kb ka, kb ∈ keys bids → ka ∈ keys asks → kb < ka.

Record book_ok (h : list Order) (b : OrderBook.t) : Prop := {
  bk_bids : side_ok h (index_ b) Buy (bids_ b);
  bk_asks : side_ok h (index_ b) Sell (asks_ b);
  bk_nodup : NoDup (book_ptrs b);
  bk_index : index_ok h (index_ b) (book_ptrs b);
  bk_cross : no_cross (bids_ b) (asks_ b)
}.

Definition nonempty (m : list (Price * PriceLevel.t)) : Prop :=
  Forall (λ kl, orders_ kl.2 ≠ []) m.

Definition store_ok (h : list Order) (next : OrderId) : Prop :=
  Forall (λ o, 1 ≤ id o < next) h ∧ Forall (λ o, u64 (quantity o)) h.

Record Inv (e : MatchingEngine.t) : Prop := {
  inv_book : book_ok (storage_ e) (book_ e);
  inv_bids : nonempty (bids_ (book_ e));
  inv_asks : nonempty (asks_ (book_ e));
  inv_store : store_ok (storage_ e) (nextOrderId_ e);
  inv_next : 1 ≤ nextOrderId_ e < 2 ^ 64
}.

(** ** Trades of one walk

    [fills h idx tid os q trades q']: a taker of id [tid] with [q] remaining
    meets, in the store [h] and index [idx], makers among [os]; each trade is
    at the price of its maker and for the smaller of the two remaining
    quantities, which is then taken off the taker, who ends with [q']. *)
Inductive fills (h : list Order) (idx : gmap Z nat) (tid : OrderId)
    (os : list nat) : Quantity → list Trade → Quantity → Prop :=
  | fills_nil q : fills h idx tid os q [] q
  | fills_cons q q' t o rest :
      o ∈ os →
      idx !! makerOrderId t = Some o →
      id (h !!! o) = makerOrderId t →
      trade_price t = price (h !!! o) →
      trade_quantity t = Z.min q (quantity (h !!! o)) →
      takerOrderId t = tid →
      fills h idx tid os (q - trade_quantity t) rest q' →
      fills h idx tid os q (t :: rest) q'.

Lemma fills_app h idx tid os q1 q2 q3 l1 l2 :
  fills h idx tid os q1 l1 q2 → fills h idx tid os q2 l2 q3 →
  fills h idx tid os q1 (l1 ++ l2) q3.
Proof.
  induction 1; simpl; [done|]. intros. econstructor; eauto.
Qed.

Lemma fills_transfer h idx os h0 idx0 os0 tid q l q' :
  (∀ o, o ∈ os → o ∈ os0 ∧ h !!! o = h0 !!! o) →
  (∀ i o, idx !! i = Some o → idx0 !! i = Some o) →
  fills h idx tid os q l q' → fills h0 idx0 tid os0 q l q'.
Proof.
  intros Hos Hidx. induction 1 as [|q q' t o rest Ho]; [constructor|].
  destruct (Hos o Ho) as [Ho0 Heq].
  econstructor; eauto; by rewrite <- Heq.
Qed.

(** ** [fillLevel] *)

Lemma fillLevel_done fuel t st :
  quantity (f_store st !!! t) = 0 →
  MatchingEngine.fillLevel (S fuel) t st = Some st.
Proof. intros H. simpl. by rewrite H. Qed.

Lemma fillLevel_empty fuel t st :
  orders_ (f_level st) = [] →
  MatchingEngine.fillLevel (S fuel) t st = Some st.
Proof.
  intros H. simpl. unfold PriceLevel.empty. rewrite H.
  by rewrite andb_false_r.
Qed.

(** What [fillLevel] leaves behind, for a taker outside the level. *)
Lemma fillLevel_S fuel t st :
  MatchingEngine.fillLevel (S fuel) t st =
  let h := f_store st in
  if (0 <? quantity (h !!! t)) && negb (PriceLevel.empty (f_level st)) then
    match PriceLevel.getFront (f_level st) with
    | None => None
    | Some maker =>
        let fillQty := Z.min (quantity (h !!! t)) (quantity (h !!! maker)) in
        let trades := f_trades st ++
          [mkTrade (id (h !!! maker)) (id (h !!! t)) (price (h !!! maker))
                   fillQty] in
        let h1 := store_quantity t (wrap64 (quantity (h !!! t) - fillQty)) h in
        let h2 := store_quantity maker
                    (wrap64 (quantity (h1 !!! maker) - fillQty)) h1 in
        let l1 := PriceLevel.adjustTotal fillQty (f_level st) in
        if quantity (h2 !!! maker) =? 0 then
          MatchingEngine.fillLevel fuel t
            (MatchingEngine.mkFill h2 (PriceLevel.popFront h2 l1)
               (delete (id (h2 !!! maker)) (f_index st)) trades)
        else
          MatchingEngine.fillLevel fuel t
            (MatchingEngine.mkFill h2 l1 (f_index st) trades)
    end
  else Some st.
Proof. reflexivity. Qed.

Local Arguments MatchingEngine.fillLevel : simpl never.

Record fill_post (t : nat) (h : list Order) (l : PriceLevel.t)
    (idx : gmap Z nat) (tr : list Trade) (f : MatchingEngine.FillState)
    (popped : list nat) (new : list Trade) : Prop := {
  fp_orders : orders_ l = popped ++ orders_ (f_level f);
  fp_price : PriceLevel.price (f_level f) = PriceLevel.price l;
  fp_static : same_static h (f_store f);
  fp_u64 : Forall (λ o, u64 (quantity o)) (f_store f);
  fp_frame : ∀ o, o ≠ t → o ∉ orders_ l → f_store f !!! o = h !!! o;
  fp_total : totalQty_ (f_level f)
             = wrap64 (sum_qty (f_store f) (orders_ (f_level f)));
  fp_index : ∀ i, f_index f !! i =
               if decide (i ∈ (λ o, id (h !!! o)) <$> popped) then None
               else idx !! i;
  fp_exit : quantity (f_store f !!! t) = 0 ∨ orders_ (f_level f) = [];
  fp_taker : quantity (f_store f !!! t) ≤ quantity (h !!! t);
  fp_trades : f_trades f = tr ++ new;
  fp_fills : fills h idx (id (h !!! t)) (orders_ l) (quantity (h !!! t)) new
               (quantity (f_store f !!! t))
}.

Lemma fill_post_refl t h l idx tr :
  Forall (λ o, u64 (quantity o)) h →
  totalQty_ l = wrap64 (sum_qty h (orders_ l)) →
  quantity (h !!! t) = 0 ∨ orders_ l = [] →
  fill_post t h l idx tr (MatchingEngine.mkFill h l idx tr) [] [].
Proof.
  intros Hu Htot Hex.
  split; simpl; rewrite ?app_nil_r; try done. constructor.
Qed.

Lemma fillLevel_spec fuel t s k : ∀ h l idx tr,
  (t < length h)%nat →
  Forall (λ o, u64 (quantity o)) h →
  Forall (resting h idx s k) (orders_ l) →
  NoDup (orders_ l) →
  t ∉ orders_ l →
  totalQty_ l = wrap64 (sum_qty h (orders_ l)) →
  (length (orders_ l) < fuel)%nat →
  ∃ f popped new,
    MatchingEngine.fillLevel fuel t (MatchingEngine.mkFill h l idx tr) = Some f ∧
    fill_post t h l idx tr f popped new.
Proof.
  induction fuel as [|fuel IH]; intros h l idx tr Ht Hu Hrest Hnd Hnot Htot Hfuel;
    [lia|].
  destruct l as [lp os tot]; simpl in Hrest, Hnd, Hnot, Htot, Hfuel.
  assert (Htq := store_u64_total h t Hu).
  destruct (decide (quantity (h !!! t) = 0)) as [Hz|Hnz].
  { exists (MatchingEngine.mkFill h (PriceLevel.mk lp os tot) idx tr), [], [].
    split; [by apply fillLevel_done|].
    apply fill_post_refl; auto. }
  destruct os as [|m os].
  { exists (MatchingEngine.mkFill h (PriceLevel.mk lp [] tot) idx tr), [], [].
    split; [by apply fillLevel_empty|].
    apply fill_post_refl; auto. }
  assert (Hmq := store_u64_total h m Hu).
  unfold u64 in Htq, Hmq.
  apply Forall_cons in Hrest as [Hm Hrest].
  apply NoDup_cons in Hnd as [Hm_os Hnd].
  apply not_elem_of_cons in Hnot as [Htm Hnot].
  destruct Hm as (Hml & Hms & Hmp & Hmi).
  set (fillQty := Z.min (quantity (h !!! t)) (quantity (h !!! m))).
  set (h1 := store_quantity t (wrap64 (quantity (h !!! t) - fillQty)) h).
  set (h2 := store_quantity m (wrap64 (quantity (h1 !!! m) - fillQty)) h1).
  assert (Hh1m : h1 !!! m = h !!! m) by (by apply store_quantity_ne).
  assert (Hq2m : quantity (h2 !!! m) = quantity (h !!! m) - fillQty).
  { unfold h2. rewrite store_quantity_eq
      by (unfold h1; rewrite store_quantity_length; lia).
    simpl. rewrite Hh1m. apply wrap64_small. unfold u64 in *. lia. }
  assert (Hq2t : quantity (h2 !!! t) = quantity (h !!! t) - fillQty).
  { unfold h2. rewrite store_quantity_ne by done. unfold h1.
    rewrite store_quantity_eq by done. simpl.
    apply wrap64_small. unfold u64 in *. lia. }
  assert (Hst2 : same_static h h2).
  { eapply same_static_trans; apply store_quantity_static. }
  assert (Hu2 : Forall (λ o, u64 (quantity o)) h2).
  { apply store_quantity_u64; [apply wrap64_u64|].
    apply store_quantity_u64; [apply wrap64_u64|done]. }
  assert (Hfr2 : ∀ o, o ≠ t → o ≠ m → h2 !!! o = h !!! o).
  { intros o ? ?. unfold h2, h1. by rewrite !store_quantity_ne. }
  assert (Hstep : MatchingEngine.fillLevel (S fuel) t
            (MatchingEngine.mkFill h (PriceLevel.mk lp (m :: os) tot) idx tr)
          = if quantity (h2 !!! m) =? 0 then
              MatchingEngine.fillLevel fuel t
                (MatchingEngine.mkFill h2
                   (PriceLevel.mk lp os
                      (wrap64 (wrap64 (tot - fillQty) - quantity (h2 !!! m))))
                   (delete (id (h2 !!! m)) idx)
                   (tr ++ [mkTrade (id (h !!! m)) (id (h !!! t))
                                   (price (h !!! m)) fillQty]))
            else
              MatchingEngine.fillLevel fuel t
                (MatchingEngine.mkFill h2
                   (PriceLevel.mk lp (m :: os) (wrap64 (tot - fillQty)))
                   idx
                   (tr ++ [mkTrade (id (h !!! m)) (id (h !!! t))
                                   (price (h !!! m)) fillQty]))).
  { rewrite fillLevel_S. simpl.
    destruct (0 <? quantity (h !!! t)) eqn:E; [done|].
    apply Z.ltb_ge in E. lia. }
  rewrite Hstep. clear Hstep.
  set (trade := mkTrade (id (h !!! m)) (id (h !!! t)) (price (h !!! m)) fillQty).
  assert (Hfill1 : ∀ rest q',
            fills h idx (id (h !!! t)) (m :: os)
              (quantity (h !!! t) - fillQty) rest q' →
            fills h idx (id (h !!! t)) (m :: os) (quantity (h !!! t))
              (trade :: rest) q').
  { intros rest q' Hq'.
    apply (fills_cons _ _ _ _ _ _ trade m rest); simpl; try done.
    set_solver. }
  destruct (quantity (h2 !!! m) =? 0) eqn:Ezero.
  - (* the maker is filled and leaves the level *)
    apply Z.eqb_eq in Ezero.
    assert (Hfq : fillQty = quantity (h !!! m)) by lia.
    destruct (IH h2 (PriceLevel.mk lp os
                (wrap64 (wrap64 (tot - fillQty) - quantity (h2 !!! m))))
                (delete (id (h2 !!! m)) idx) (tr ++ [trade]))
      as (f & popped & new & Hrun & Hpost); simpl.
    + destruct Hst2 as [-> _]. done.
    + done.
    + apply Forall_forall. intros o Ho.
      pose proof (proj1 (Forall_forall _ _) Hrest o Ho) as (Hol & Hos & Hop & Hoi).
      assert (o ≠ m) by (intros ->; done).
      assert (o ≠ t) by (intros ->; done).
      destruct Hst2 as [Hl2 Hs2].
      destruct (Hs2 o) as (Hi & Hsd & Hpr), (Hs2 m) as (Him & _).
      split; [lia|]. rewrite Hi, Hsd, Hpr, Him. repeat split; try done.
      rewrite lookup_delete_ne; [done|].
      intros Heq. rewrite Heq in Hmi. congruence.
    + done.
    + done.
    + rewrite Ezero, Z.sub_0_r, (wrap64_small (wrap64 _)) by apply wrap64_u64.
      rewrite Htot, wrap64_sub_l. f_equal. simpl.
      rewrite (sum_qty_ext h h2).
      * lia.
      * intros o Ho. rewrite Hfr2; [done| |]; intros ->; done.
    + simpl in Hfuel. lia.
    + destruct Hpost as [Ho Hp Hs Hu' Hfr Ht' Hi Hex Htk Htr Hfl]. simpl in *.
      exists f, (m :: popped), (trade :: new). split; [done|].
      split; simpl.
      * by rewrite Ho.
      * done.
      * by eapply same_static_trans.
      * done.
      * intros o Hot Hom. apply not_elem_of_cons in Hom as [? ?].
        rewrite Hfr by done. by apply Hfr2.
      * done.
      * intros i. rewrite Hi.
        assert (Hids : (λ o, id (h2 !!! o)) <$> popped
                       = (λ o, id (h !!! o)) <$> popped).
        { apply list_fmap_ext. intros ? o _. apply Hst2. }
        rewrite Hids. replace (id (h2 !!! m)) with (id (h !!! m))
          by (symmetry; apply Hst2).
        repeat case_decide; try done.
        -- set_solver.
        -- apply lookup_delete_None. left. set_solver.
        -- apply lookup_delete_ne. set_solver.
      * done.
      * lia.
      * by rewrite Htr, <- app_assoc.
      * apply Hfill1. rewrite <- Hq2t.
        replace (id (h !!! t)) with (id (h2 !!! t)) by apply Hst2.
        eapply fills_transfer; [| |exact Hfl].
        -- intros o Ho'. split; [set_solver|].
           apply Hfr2; intros ->; done.
        -- intros i o. rewrite lookup_delete_Some. tauto.
  - (* the taker is exhausted, the maker keeps a remainder *)
    apply Z.eqb_neq in Ezero.
    assert (Hfq : fillQty = quantity (h !!! t)) by lia.
    destruct fuel as [|fuel]; [simpl in Hfuel; lia|].
    rewrite fillLevel_done by (simpl; lia).
    eexists _, [], [trade]. split; [done|].
    split; simpl; try done.
    + intros o Hot Hom. apply not_elem_of_cons in Hom as [? ?]. by apply Hfr2.
    + rewrite Htot, wrap64_sub_l. f_equal. simpl.
      rewrite (sum_qty_ext h h2); [lia|].
      intros o Ho. rewrite Hfr2; [done| |]; intros ->; done.
    + left. lia.
    + lia.
    + apply Hfill1. rewrite <- Hq2t. constructor.
Qed.

(** ** The two sides of the book *)

Lemma opposite_involutive s : opposite (opposite s) = s.
Proof. by destruct s. Qed.

Lemma side_map_with s m idx b : side_map s (with_side_map s m idx b) = m.
Proof. by destruct s. Qed.

Lemma side_map_with_opp s m idx b :
  side_map (opposite s) (with_side_map s m idx b) = side_map (opposite s) b.
Proof. by destruct s. Qed.

Lemma index_with s m idx b : index_ (with_side_map s m idx b) = idx.
Proof. by destruct s. Qed.

Lemma ptrs_of_cons k l m : ptrs_of ((k, l) :: m) = orders_ l ++ ptrs_of m.
Proof. done. Qed.

Lemma ptrs_of_app m1 m2 : ptrs_of (m1 ++ m2) = ptrs_of m1 ++ ptrs_of m2.
Proof. apply bind_app. Qed.

Lemma elem_of_ptrs_of o m :
  o ∈ ptrs_of m ↔ ∃ kl, kl ∈ m ∧ o ∈ orders_ kl.2.
Proof. unfold ptrs_of. rewrite list_elem_of_bind. naive_solver. Qed.

(** The pointers of the book, starting from side [s]. *)
Definition ptrs_from (s : Side) (b : OrderBook.t) : list nat :=
  ptrs_of (side_map s b) ++ ptrs_of (side_map (opposite s) b).

Lemma ptrs_from_perm s b : ptrs_from s b ≡ₚ book_ptrs b.
Proof. destruct s; [done|]. apply Permutation_app_comm. Qed.

Lemma book_ok_side s h b :
  book_ok h b ↔
  side_ok h (index_ b) s (side_map s b) ∧
  side_ok h (index_ b) (opposite s) (side_map (opposite s) b) ∧
  NoDup (ptrs_from s b) ∧
  index_ok h (index_ b) (ptrs_from s b) ∧
  (∀ k k', k ∈ keys (side_map s b) → k' ∈ keys (side_map (opposite s) b) →
           better (opposite s) k k').
Proof.
  assert (Hi : index_ok h (index_ b) (ptrs_from s b)
               ↔ index_ok h (index_ b) (book_ptrs b)).
  { unfold index_ok. by setoid_rewrite (ptrs_from_perm s b). }
  assert (Hn : NoDup (ptrs_from s b) ↔ NoDup (book_ptrs b)).
  { by rewrite (ptrs_from_perm s b). }
  rewrite Hi, Hn. clear Hi Hn. split.
  - intros [Hb Ha Hn Hix Hc].
    destruct s; simpl; (split; [|split; [|split; [|split]]]); try done;
      intros k k' ? ?; by apply Hc.
  - intros (Hs & Ho & Hn & Hix & Hc).
    destruct s; simpl in *; split; try done;
      intros kb ka ? ?; by apply Hc.
Qed.

(** Two pointers of the book with the same order id are the same pointer. *)
Lemma resting_inj h idx s k o s' k' o' :
  resting h idx s k o → resting h idx s' k' o' →
  id (h !!! o) = id (h !!! o') → o = o'.
Proof. intros (_&_&_&H1) (_&_&_&H2) Heq. rewrite Heq in H1. congruence. Qed.

Lemma side_ok_resting h idx s m o :
  side_ok h idx s m → o ∈ ptrs_of m → ∃ k, k ∈ keys m ∧ resting h idx s k o.
Proof.
  intros [Hl _] [[k l] [Hkl Ho]]%elem_of_ptrs_of.
  exists k. split; [apply list_elem_of_fmap; by exists (k, l)|].
  pose proof (proj1 (Forall_forall _ _) Hl _ Hkl) as [Hr _].
  by apply (proj1 (Forall_forall _ _) Hr).
Qed.

Lemma book_resting s h b o :
  book_ok h b → o ∈ ptrs_from s b →
  ∃ s' k, k ∈ keys (side_map s' b) ∧ o ∈ ptrs_of (side_map s' b)
          ∧ resting h (index_ b) s' k o.
Proof.
  intros (Hs & Ho & _)%(book_ok_side s) [H|H]%elem_of_app.
  - destruct (side_ok_resting _ _ _ _ _ Hs H) as (k & ? & ?). by exists s, k.
  - destruct (side_ok_resting _ _ _ _ _ Ho H) as (k & ? & ?).
    by exists (opposite s), k.
Qed.

(** Levels whose orders keep their quantity and their index entry stay
    well formed. *)
Lemma levels_transport h idx s m h' idx' :
  Forall (level_ok h idx s) m →
  same_static h h' →
  (∀ o, o ∈ ptrs_of m →
        quantity (h' !!! o) = quantity (h !!! o) ∧
        idx' !! id (h !!! o) = Some o) →
  Forall (level_ok h' idx' s) m.
Proof.
  intros Hm [Hlen Hst] Hfr. apply Forall_forall. intros [k l] Hkl.
  pose proof (proj1 (Forall_forall _ _) Hm _ Hkl) as [Hr Ht]. simpl in *.
  assert (Hin : ∀ o, o ∈ orders_ l → o ∈ ptrs_of m).
  { intros o Ho. apply elem_of_ptrs_of. by exists (k, l). }
  split; simpl.
  - apply Forall_forall. intros o Ho.
    pose proof (proj1 (Forall_forall _ _) Hr _ Ho) as (?&?&?&?).
    destruct (Hst o) as (Hi & Hsd & Hp), (Hfr o (Hin o Ho)) as [_ Hix].
    split; [lia|]. rewrite Hi, Hsd, Hp. done.
  - rewrite Ht. f_equal. symmetry. apply sum_qty_ext.
    intros o Ho. by apply Hfr, Hin.
Qed.

Lemma with_side_map_id s b : with_side_map s (side_map s b) (index_ b) b = b.
Proof. by destruct s, b. Qed.

(** An empty level at the head of a side can be erased. *)
Lemma book_ok_drop_head s h b p l rest :
  book_ok h b → side_map s b = (p, l) :: rest → orders_ l = [] →
  book_ok h (with_side_map s rest (index_ b) b).
Proof.
  intros Hb Hm He. apply (book_ok_side s) in Hb.
  apply (book_ok_side s).
  unfold ptrs_from in *.
  rewrite side_map_with, side_map_with_opp, index_with.
  rewrite Hm, ptrs_of_cons, He in Hb. simpl in Hb.
  destruct Hb as ([Hl Hso] & Ho & Hn & Hix & Hc).
  apply Forall_cons in Hl as [_ Hl].
  apply StronglySorted_cons in Hso as [_ Hso].
  split; [done|]. split; [done|]. split; [done|]. split; [done|].
  intros k k' ? ?. apply Hc; [by right|done].
Qed.

(** The book after [fillLevel] has worked on the level at the head of side
    [opp], for a taker that is not in the book. *)
Lemma fill_head_ok opp t h b p l rest tr f popped new :
  book_ok h b →
  side_map opp b = (p, l) :: rest →
  t ∉ ptrs_from opp b →
  fill_post t h l (index_ b) tr f popped new →
  book_ok (f_store f)
    (with_side_map opp ((p, f_level f) :: rest) (f_index f) b).
Proof.
  intros Hb Hm Ht [Ho Hp Hs Hu Hfr Htot Hi Hex Htk Htr Hfl].
  pose proof Hb as Hb'.
  apply (book_ok_side opp) in Hb as ([Hl Hso] & [Hlo Hsoo] & Hn & Hix & Hc).
  unfold ptrs_from in *. rewrite Hm in *. rewrite ptrs_of_cons, Ho in *.
  apply Forall_cons in Hl as [[Hrl Htl] Hl]. simpl in Hrl, Htl.
  rewrite Ho in Hrl.
  set (others := ptrs_of rest ++ ptrs_of (side_map (opposite opp) b)) in *.
  rewrite <- !app_assoc in Hn, Hix, Ht. fold others in Hn, Hix, Ht.
  apply NoDup_app in Hn as (Hnp & Hpo & Hn).
  (* an order that was not popped keeps its index entry *)
  assert (F1 : ∀ o, o ∈ orders_ (f_level f) ++ others →
               f_index f !! id (h !!! o) = Some o).
  { intros o Hoin. rewrite Hi.
    assert (Hro : ∃ s k, resting h (index_ b) s k o).
    { destruct (book_resting opp h b o Hb') as (s & k & _ & _ & ?); [|eauto].
      unfold ptrs_from. rewrite Hm, ptrs_of_cons, Ho, <- !app_assoc.
      fold others. set_solver. }
    destruct Hro as (s & k & Hro).
    case_decide as Hd; [|apply Hro].
    apply list_elem_of_fmap in Hd as (o' & Heq & Ho').
    pose proof (proj1 (Forall_forall _ _) Hrl o') as Hro'.
    assert (o = o') as <-.
    { eapply resting_inj; [exact Hro|apply Hro'; set_solver|done]. }
    by destruct (Hpo o Ho'). }
  (* an order outside the level keeps its quantity *)
  assert (F2 : ∀ o, o ∈ others → quantity (f_store f !!! o) = quantity (h !!! o)).
  { intros o Hoin. rewrite Hfr; [done| |].
    - intros ->. set_solver.
    - intros [Hx|Hx]%elem_of_app.
      + apply (Hpo o Hx). set_solver.
      + apply NoDup_app in Hn as (_ & Hn & _). by apply (Hn o). }
  apply (book_ok_side opp). unfold ptrs_from.
  rewrite side_map_with, side_map_with_opp, index_with, ptrs_of_cons.
  rewrite <- app_assoc. fold others.
  split; [|split; [|split; [|split]]].
  - split; [|done]. apply Forall_cons. split.
    + split; simpl; [|done]. apply Forall_forall. intros o Hoin.
      pose proof (proj1 (Forall_forall _ _) Hrl o) as (?&?&?&?); [set_solver|].
      destruct Hs as [Hlen Hs]. destruct (Hs o) as (Hid & Hsd & Hpr).
      split; [lia|]. rewrite Hid, Hsd, Hpr. repeat split; try done.
      apply F1. set_solver.
    + eapply levels_transport; [done..|].
      intros o Hoin. split; [apply F2|apply F1]; set_solver.
  - split; [|done]. eapply levels_transport; [done..|].
    intros o Hoin. split; [apply F2|apply F1]; set_solver.
  - done.
  - intros i o Hio. rewrite Hi in Hio. case_decide as Hd; [done|].
    destruct (Hix i o Hio) as [Hid Hoin]. split.
    + rewrite <- Hid. apply Hs.
    + apply elem_of_app in Hoin as [Hoin|Hoin]; [|done].
      destruct Hd. apply list_elem_of_fmap. by exists o.
  - done.
Qed.

(** ** [match] *)

Lemma cleanLevel_head s p l rest idx b :
  orders_ l = [] →
  OrderBook.cleanLevel s p (with_side_map s ((p, l) :: rest) idx b)
  = with_side_map s rest idx b.
Proof.
  intros He. destruct s; simpl; unfold OrderBook.clean_in; simpl;
    rewrite decide_True by done; unfold PriceLevel.empty; rewrite He; simpl;
    by rewrite decide_True.
Qed.

Lemma walk_S fuel opp t st :
  MatchingEngine.walk (S fuel) opp t st =
  match side_map opp (m_book st) with
  | [] => Some st
  | (p, level) :: rest =>
      if 0 <? quantity (m_store st !!! t) then
        if MatchingEngine.leaves opp p (price (m_store st !!! t)) then Some st
        else
          match MatchingEngine.fillLevel (S (length (orders_ level))) t
                  (MatchingEngine.mkFill (m_store st) level
                     (index_ (m_book st)) (m_trades st)) with
          | None => None
          | Some f =>
              let b1 := with_side_map opp ((p, f_level f) :: rest)
                          (f_index f) (m_book st) in
              let b2 := if PriceLevel.empty (f_level f)
                        then OrderBook.cleanLevel opp p b1 else b1 in
              MatchingEngine.walk fuel opp t
                (MatchingEngine.mkMatch (f_store f) b2 (f_trades f))
          end
      else Some st
  end.
Proof. reflexivity. Qed.

Local Arguments MatchingEngine.walk : simpl never.

Lemma leaves_better opp p tp :
  MatchingEngine.leaves opp p tp = true ↔ better opp tp p.
Proof.
  destruct opp; simpl; [apply Z.ltb_lt|rewrite Z.gtb_ltb; apply Z.ltb_lt].
Qed.

(** The taker has nothing left, or no level of side [opp] can be taken at
    the price [tp]. *)
Definition walk_ends (opp : Side) (tp : Price) (q : Quantity)
    (m : list (Price * PriceLevel.t)) : Prop :=
  q = 0 ∨ ∀ k, k ∈ keys m → better opp tp k.

Record walk_post (opp : Side) (t : nat) (h : list Order) (b : OrderBook.t)
    (tr : list Trade) (m : MatchingEngine.MatchState) (new : list Trade)
  : Prop := {
  wp_book : book_ok (m_store m) (m_book m);
  wp_nonempty : nonempty (side_map opp b) → nonempty (side_map opp (m_book m));
  wp_same : side_map (opposite opp) (m_book m) = side_map (opposite opp) b;
  wp_keys : keys (side_map opp (m_book m)) ⊆ keys (side_map opp b);
  wp_ptrs : ptrs_of (side_map opp (m_book m)) ⊆ ptrs_of (side_map opp b);
  wp_static : same_static h (m_store m);
  wp_u64 : Forall (λ o, u64 (quantity o)) (m_store m);
  wp_index : ∀ i o, index_ (m_book m) !! i = Some o → index_ b !! i = Some o;
  wp_ends : walk_ends opp (price (h !!! t)) (quantity (m_store m !!! t))
              (side_map opp (m_book m));
  wp_taker : quantity (m_store m !!! t) ≤ quantity (h !!! t);
  wp_idle : quantity (h !!! t) = 0 → new = [];
  wp_trades : m_trades m = tr ++ new;
  wp_fills : fills h (index_ b) (id (h !!! t)) (ptrs_of (side_map opp b))
               (quantity (h !!! t)) new (quantity (m_store m !!! t))
}.

Lemma walk_post_refl opp t h b tr :
  book_ok h b → Forall (λ o, u64 (quantity o)) h →
  walk_ends opp (price (h !!! t)) (quantity (h !!! t)) (side_map opp b) →
  walk_post opp t h b tr (MatchingEngine.mkMatch h b tr) [].
Proof.
  intros Hb Hu He. split; simpl; rewrite ?app_nil_r; try done. constructor.
Qed.

Lemma walk_spec fuel opp t : ∀ h b tr,
  book_ok h b →
  (t < length h)%nat →
  t ∉ ptrs_from opp b →
  Forall (λ o, u64 (quantity o)) h →
  (length (side_map opp b) < fuel)%nat →
  ∃ m new,
    MatchingEngine.walk fuel opp t (MatchingEngine.mkMatch h b tr) = Some m ∧
    walk_post opp t h b tr m new.
Proof.
  induction fuel as [|fuel IH]; intros h b tr Hb Ht Hnot Hu Hfuel; [lia|].
  rewrite walk_S. simpl.
  destruct (side_map opp b) as [|[p l] rest] eqn:Hm.
  { eexists _, []. split; [done|]. apply walk_post_refl; try done.
    right. rewrite Hm. intros k Hk. by apply elem_of_nil in Hk. }
  assert (Htq := store_u64_total h t Hu). unfold u64 in Htq.
  destruct (0 <? quantity (h !!! t)) eqn:Eq.
  2:{ apply Z.ltb_ge in Eq. eexists _, []. split; [done|].
      apply walk_post_refl; try done. left. lia. }
  apply Z.ltb_lt in Eq.
  destruct (MatchingEngine.leaves opp p (price (h !!! t))) eqn:El.
  { apply leaves_better in El. eexists _, []. split; [done|].
    apply walk_post_refl; try done. right. rewrite Hm.
    pose proof (proj1 (book_ok_side opp h b) Hb) as ([_ Hso] & _).
    rewrite Hm in Hso. apply StronglySorted_cons in Hso as [Hall _].
    intros k [->|Hk]%elem_of_cons; [done|].
    eapply better_trans; [exact El|].
    by apply (proj1 (Forall_forall _ _) Hall). }
  (* the head level is taken *)
  pose proof Hb as Hb0.
  apply (book_ok_side opp) in Hb as ([Hl Hso] & Hoo & Hn & Hix & Hc).
  unfold ptrs_from in Hn, Hnot. rewrite Hm in Hl, Hso, Hn, Hnot, Hc.
  rewrite ptrs_of_cons in Hn, Hnot.
  apply Forall_cons in Hl as [[Hrl Htl] Hl]. simpl in Hrl, Htl.
  destruct (fillLevel_spec (S (length (orders_ l))) t opp p h l (index_ b) tr)
    as (f & popped & new1 & Hrun & Hpost); try done.
  { rewrite <- app_assoc in Hn. by apply NoDup_app in Hn as (? & _). }
  { set_solver. }
  { lia. }
  rewrite Hrun.
  pose proof (fill_head_ok opp t h b p l rest tr f popped new1 Hb0 Hm) as Hb1.
  unfold ptrs_from in Hb1. rewrite Hm, ptrs_of_cons in Hb1.
  specialize (Hb1 Hnot Hpost).
  destruct Hpost as [Ho Hp Hs Hu1 Hfr Htot Hi Hex Htk Htr Hfl].
  set (b1 := with_side_map opp ((p, f_level f) :: rest) (f_index f) b) in *.
  assert (Hsub : ∀ i o, f_index f !! i = Some o → index_ b !! i = Some o).
  { intros i o. rewrite Hi. by case_decide. }
  assert (Hfl' : fills h (index_ b) (id (h !!! t))
                   (orders_ l ++ ptrs_of rest) (quantity (h !!! t)) new1
                   (quantity (f_store f !!! t))).
  { eapply fills_transfer; [| |exact Hfl]; [|done].
    intros o ?. split; [set_solver|done]. }
  destruct (orders_ (f_level f)) as [|o1 os1] eqn:Eo.
  - (* the level is used up and erased; the walk goes on *)
    unfold PriceLevel.empty. rewrite Eo.
    unfold b1. rewrite cleanLevel_head by done.
    set (b2 := with_side_map opp rest (f_index f) b).
    assert (Hbk2 : book_ok (f_store f) b2).
    { unfold b2. replace (f_index f) with (index_ b1) by apply index_with.
      replace (with_side_map opp rest (index_ b1) b)
        with (with_side_map opp rest (index_ b1) b1) by (by destruct opp).
      eapply book_ok_drop_head; [done|apply side_map_with|done]. }
    destruct (IH (f_store f) b2 (f_trades f)) as (m & new2 & Hrun2 & Hpost2).
    { done. }
    { destruct Hs as [-> _]. done. }
    { unfold ptrs_from, b2. rewrite side_map_with, side_map_with_opp.
      set_solver. }
    { done. }
    { unfold b2. rewrite side_map_with. simpl in Hfuel. lia. }
    exists m, (new1 ++ new2). split; [done|].
    destruct Hpost2 as [Wb Wne Wsame Wkeys Wptrs Wst Wu Wix Wend Wtk Widle Wtr Wfl].
    unfold b2 in *.
    rewrite ?side_map_with, ?side_map_with_opp, ?index_with in *.
    assert (Hfrest : ∀ o, o ∈ ptrs_of rest → f_store f !!! o = h !!! o).
    { intros o Hoin. apply Hfr; [set_solver|].
      rewrite <- app_assoc in Hn. apply NoDup_app in Hn as (_ & Hn & _).
      intros ?. apply (Hn o); set_solver. }
    destruct Hs as [Hlen Hs].
    split; simpl; rewrite ?Hm.
    + done.
    + intros Hne. apply Forall_cons in Hne as [_ Hne]. auto.
    + done.
    + set_solver.
    + rewrite ptrs_of_cons. set_solver.
    + eapply same_static_trans; [split|]; done.
    + done.
    + auto.
    + destruct (Hs t) as (_ & _ & <-). done.
    + lia.
    + lia.
    + by rewrite Wtr, Htr, app_assoc.
    + rewrite ptrs_of_cons. eapply fills_app; [exact Hfl'|].
      destruct (Hs t) as (<- & _ & _).
      eapply fills_transfer; [| |exact Wfl]; [|done].
      intros o Hoin. split; [set_solver|]. by apply Hfrest.
  - (* orders remain in the level: the taker is exhausted *)
    destruct Hex as [Hz|?]; [|done].
    unfold PriceLevel.empty. rewrite Eo.
    destruct fuel as [|fuel]; [simpl in Hfuel; lia|].
    rewrite walk_S. simpl. unfold b1 at 1. rewrite side_map_with, Hz. simpl.
    eexists _, new1. split; [done|].
    split; simpl; unfold b1;
      rewrite ?side_map_with, ?side_map_with_opp, ?index_with, ?Hm; try done.
    + intros Hne. apply Forall_cons in Hne as [_ Hne].
      apply Forall_cons. split; [|done]. simpl. by rewrite Eo.
    + rewrite !ptrs_of_cons, Ho, Eo. set_solver.
    + by left.
    + lia.
Qed.

(** ** std::map operations on a sorted list of entries *)

Lemma keys_app (m1 m2 : list (Price * PriceLevel.t)) :
  keys (m1 ++ m2) = keys m1 ++ keys m2.
Proof. apply fmap_app. Qed.

Lemma map_find_split {V} (m1 : list (Price * V)) k v m2 :
  k ∉ m1.*1 → map_find k (m1 ++ (k, v) :: m2) = Some v.
Proof.
  induction m1 as [|[k' v'] m1 IH]; simpl; intros Hk.
  - by rewrite decide_True.
  - apply not_elem_of_cons in Hk as [? ?]. rewrite decide_False by done. auto.
Qed.

Lemma map_set_split {V} (m1 : list (Price * V)) k v v' m2 :
  k ∉ m1.*1 → map_set k v' (m1 ++ (k, v) :: m2) = m1 ++ (k, v') :: m2.
Proof.
  induction m1 as [|[k' w] m1 IH]; simpl; intros Hk.
  - by rewrite decide_True.
  - apply not_elem_of_cons in Hk as [? ?]. rewrite decide_False by done.
    by rewrite IH.
Qed.

Lemma map_erase_split {V} (m1 : list (Price * V)) k v m2 :
  k ∉ m1.*1 → map_erase k (m1 ++ (k, v) :: m2) = m1 ++ m2.
Proof.
  induction m1 as [|[k' w] m1 IH]; simpl; intros Hk.
  - by rewrite decide_True.
  - apply not_elem_of_cons in Hk as [? ?]. rewrite decide_False by done.
    by rewrite IH.
Qed.

Lemma map_find_None {V} k (m : list (Price * V)) :
  k ∉ m.*1 → map_find k m = None.
Proof.
  induction m as [|[k' v] m IH]; simpl; [done|]. intros Hk.
  apply not_elem_of_cons in Hk as [? ?]. rewrite decide_False by done. auto.
Qed.

(** The level that holds a given entry, in a map without repeated keys. *)
Lemma sorted_split s (m : list (Price * PriceLevel.t)) k l :
  StronglySorted (better s) (keys m) → (k, l) ∈ m →
  ∃ m1 m2, m = m1 ++ (k, l) :: m2 ∧ (k ∉ keys m1).
Proof.
  intros Hs (m1 & m2 & ->)%list_elem_of_split. exists m1, m2. split; [done|].
  rewrite keys_app in Hs. intros Hk.
  eapply (better_irrefl s k), StronglySorted_app_1_elem_of; [exact Hs|done|].
  simpl. by left.
Qed.

Lemma map_emplace_spec s k (v : PriceLevel.t) m :
  StronglySorted (better s) (keys m) →
  (∃ m1 v0 m2, m = m1 ++ (k, v0) :: m2 ∧ (k ∉ keys m1) ∧
               map_emplace (side_comp s) k v m = m) ∨
  (∃ m1 m2, m = m1 ++ m2 ∧ (k ∉ keys m1) ∧ (k ∉ keys m) ∧
            map_emplace (side_comp s) k v m = m1 ++ (k, v) :: m2 ∧
            StronglySorted (better s) (keys (m1 ++ (k, v) :: m2))).
Proof.
  induction m as [|[k' v'] m IH]; intros Hs.
  - right. exists [], []. repeat split; try done; try apply not_elem_of_nil.
    simpl. repeat constructor.
  - simpl in Hs. apply StronglySorted_cons in Hs as [Hall Hs]. simpl.
    destruct (side_comp s k k') eqn:E1.
    + apply side_comp_better in E1. right. exists [], ((k', v') :: m).
      assert (Hlt : Forall (better s k) (k' :: keys m)).
      { apply Forall_cons. split; [done|].
        eapply Forall_impl; [exact Hall|]. intros; by eapply better_trans. }
      repeat split; try done; try apply not_elem_of_nil.
      * intros Hin. apply (better_irrefl s k).
        by apply (proj1 (Forall_forall _ _) Hlt).
      * simpl. apply StronglySorted_cons. split; [done|].
        apply StronglySorted_cons. done.
    + assert (N1 : ¬ better s k k').
      { rewrite <- side_comp_better. by rewrite E1. }
      destruct (side_comp s k' k) eqn:E2.
      * apply side_comp_better in E2.
        destruct (IH Hs) as [(m1 & v0 & m2 & -> & Hk & Hem)|
                             (m1 & m2 & -> & Hk & Hkm & Hem & Hso)].
        -- left. exists ((k', v') :: m1), v0, m2. repeat split; [| by rewrite Hem].
           apply not_elem_of_cons. split; [|done].
           intros ->. by apply (better_irrefl s k').
        -- right. exists ((k', v') :: m1), m2. rewrite Hem.
           repeat split; try done.
           ++ apply not_elem_of_cons. split; [|done].
              intros ->. by apply (better_irrefl s k').
           ++ apply not_elem_of_cons. split; [|done].
              intros ->. by apply (better_irrefl s k').
           ++ simpl. apply StronglySorted_cons. split; [|done].
              rewrite keys_app in *. simpl.
              apply Forall_app in Hall as [? ?].
              apply Forall_app. split; [done|]. by apply Forall_cons.
      * assert (N2 : ¬ better s k' k).
        { rewrite <- side_comp_better. by rewrite E2. }
        assert (k = k') as <- by (by eapply better_total).
        left. exists [], v', m. repeat split; try done. apply not_elem_of_nil.
Qed.

(** ** [OrderBook::addOrder] *)

Lemma addOrder_side h o b :
  OrderBook.addOrder h o b =
  with_side_map (side (h !!! o))
    (OrderBook.add_in (side_comp (side (h !!! o))) h o (price (h !!! o))
       (side_map (side (h !!! o)) b))
    (<[id (h !!! o) := o]> (index_ b)) b.
Proof. unfold OrderBook.addOrder. by destruct (side (h !!! o)). Qed.

(** The level the order joins: the one of its price, or a new one put at
    its place in the order of the side. *)
Lemma add_in_spec s h o p m :
  StronglySorted (better s) (keys m) →
  ∃ m1 l0 m2,
    OrderBook.add_in (side_comp s) h o p m
      = m1 ++ (p, PriceLevel.addOrder h o l0) :: m2 ∧
    StronglySorted (better s) (keys (m1 ++ (p, l0) :: m2)) ∧
    (m = m1 ++ (p, l0) :: m2 ∨ (m = m1 ++ m2 ∧ l0 = PriceLevel.new p)).
Proof.
  intros Hs. unfold OrderBook.add_in.
  destruct (map_emplace_spec s p (PriceLevel.new p) m Hs)
    as [(m1 & l0 & m2 & -> & Hk & ->)|(m1 & m2 & -> & Hk & _ & -> & Hs')].
  - exists m1, l0, m2. rewrite map_find_split, map_set_split by done.
    split; [done|]. split; [done|]. by left.
  - exists m1, (PriceLevel.new p), m2.
    rewrite map_find_split, map_set_split by done.
    split; [done|]. split; [done|]. by right.
Qed.

Lemma level_ok_new h idx s p : level_ok h idx s (p, PriceLevel.new p).
Proof. split; simpl; [constructor|done]. Qed.

Lemma perm_push_back (A L B C : list nat) o :
  (A ++ (L ++ [o]) ++ B) ++ C ≡ₚ o :: (A ++ L ++ B) ++ C.
Proof.
  rewrite <- !app_assoc. simpl. symmetry.
  rewrite (app_assoc A L), (app_assoc A L (o :: _)).
  apply Permutation_middle.
Qed.

Lemma addOrder_ok h o b :
  book_ok h b →
  (o < length h)%nat →
  o ∉ book_ptrs b →
  index_ b !! id (h !!! o) = None →
  (∀ k, k ∈ keys (side_map (opposite (side (h !!! o))) b) →
        better (opposite (side (h !!! o))) (price (h !!! o)) k) →
  book_ok h (OrderBook.addOrder h o b).
Proof.
  intros Hb Hlen Hnot Hfresh Hcross. rewrite addOrder_side.
  set (s := side (h !!! o)) in *. set (p := price (h !!! o)) in *.
  set (idx' := <[id (h !!! o) := o]> (index_ b)).
  pose proof Hb as Hb0.
  apply (book_ok_side s) in Hb as ([Hl Hso] & [Hlo Hsoo] & Hn & Hix & Hc).
  rewrite <- (ptrs_from_perm s) in Hnot. unfold ptrs_from in *.
  (* the orders of the book keep their index entry *)
  assert (F1 : ∀ o', o' ∈ ptrs_of (side_map s b) ++
                          ptrs_of (side_map (opposite s) b) →
               quantity (h !!! o') = quantity (h !!! o') ∧
               idx' !! id (h !!! o') = Some o').
  { intros o' Ho'. split; [done|].
    destruct (book_resting s h b o' Hb0 Ho') as (s' & k & _ & _ & Hr).
    destruct Hr as (_&_&_&Hr). unfold idx'.
    rewrite lookup_insert_ne; [done|]. intros Heq. congruence. }
  destruct (add_in_spec s h o p (side_map s b) Hso)
    as (m1 & l0 & m2 & -> & Hso' & Hm).
  assert (Hold : Forall (level_ok h (index_ b) s) (m1 ++ (p, l0) :: m2)
                 ∧ ptrs_of (side_map s b) = ptrs_of (m1 ++ (p, l0) :: m2)
                 ∧ keys (m1 ++ (p, l0) :: m2) ⊆ p :: keys (side_map s b)).
  { destruct Hm as [<-|[Hm ->]].
    - split; [done|]. split; [done|]. set_solver.
    - rewrite Hm in *. rewrite !ptrs_of_app, ptrs_of_cons. simpl.
      apply Forall_app in Hl as [? ?].
      split; [|split; [done|]].
      + apply Forall_app. split; [done|]. apply Forall_cons. split; [|done].
        apply level_ok_new.
      + rewrite !keys_app. simpl. set_solver. }
  destruct Hold as (Hl' & Hp' & Hk'). rewrite Hp' in *. clear Hm Hp' Hl.
  rewrite !ptrs_of_app, !ptrs_of_cons in *.
  apply Forall_app in Hl' as [Hl1 Hl2].
  apply Forall_cons in Hl2 as [[Hr0 Ht0] Hl2]. simpl in Hr0, Ht0.
  apply (book_ok_side s). unfold ptrs_from.
  rewrite side_map_with, side_map_with_opp, index_with.
  rewrite !ptrs_of_app, !ptrs_of_cons.
  assert (Hperm : (ptrs_of m1 ++ orders_ (PriceLevel.addOrder h o l0) ++ ptrs_of m2)
                    ++ ptrs_of (side_map (opposite s) b)
                  ≡ₚ o :: (ptrs_of m1 ++ orders_ l0 ++ ptrs_of m2)
                    ++ ptrs_of (side_map (opposite s) b)).
  { apply perm_push_back. }
  split; [|split; [|split; [|split]]].
  - split; [|by rewrite keys_app in *].
    apply Forall_app. split; [|apply Forall_cons; split].
    + eapply levels_transport; [done|apply same_static_refl|].
      intros o' ?. apply F1. set_solver.
    + split; simpl.
      * apply Forall_app. split.
        -- apply Forall_forall. intros o' Ho'.
           pose proof (proj1 (Forall_forall _ _) Hr0 o' Ho') as (?&?&?&?).
           repeat split; try done. apply F1. set_solver.
        -- apply Forall_singleton. repeat split; try done.
           apply lookup_insert_eq.
      * rewrite Ht0, wrap64_add_l, sum_qty_app. simpl. f_equal. lia.
    + eapply levels_transport; [done|apply same_static_refl|].
      intros o' ?. apply F1. set_solver.
  - split; [|done]. eapply levels_transport; [done|apply same_static_refl|].
    intros o' ?. apply F1. set_solver.
  - rewrite Hperm. apply NoDup_cons. by split.
  - intros i o' Hio. unfold idx' in Hio.
    apply lookup_insert_Some in Hio as [[<- <-]|[Hne Hio]].
    + split; [done|]. rewrite Hperm. by left.
    + destruct (Hix i o' Hio) as [? Hin]. split; [done|].
      rewrite Hperm. by right.
  - intros k k' Hk Hk2.
    assert (Hk0 : k ∈ keys (m1 ++ (p, l0) :: m2))
      by (by rewrite keys_app in *).
    apply Hk' in Hk0.
    apply elem_of_cons in Hk0 as [->|Hk0]; [by apply Hcross|].
    by apply Hc.
Qed.

Lemma add_in_find s h o p m :
  StronglySorted (better s) (keys m) →
  ∃ l0, map_find p (OrderBook.add_in (side_comp s) h o p m)
          = Some (PriceLevel.addOrder h o l0).
Proof.
  intros Hs. destruct (add_in_spec s h o p m Hs) as (m1 & l0 & m2 & -> & Hs' & _).
  exists l0. apply map_find_split.
  rewrite keys_app in Hs'. intros Hk.
  eapply (better_irrefl s p), StronglySorted_app_1_elem_of; [exact Hs'|done|].
  simpl. by left.
Qed.

Lemma add_in_nonempty s h o p m :
  StronglySorted (better s) (keys m) → nonempty m →
  nonempty (OrderBook.add_in (side_comp s) h o p m).
Proof.
  intros Hs Hne.
  destruct (add_in_spec s h o p m Hs) as (m1 & l0 & m2 & -> & _ & Hm).
  assert (nonempty m1 ∧ nonempty m2) as [? ?].
  { destruct Hm as [->|[-> _]]; apply Forall_app in Hne as [? Hne]; [|done].
    apply Forall_cons in Hne as [_ ?]. done. }
  apply Forall_app. split; [done|]. apply Forall_cons. split; [|done].
  simpl. by destruct (orders_ l0).
Qed.

(** ** Locating a live order *)

Lemma book_locate h b i o :
  book_ok h b → index_ b !! i = Some o →
  ∃ m1 l m2 os1 os2,
    side_map (side (h !!! o)) b = m1 ++ (price (h !!! o), l) :: m2 ∧
    (price (h !!! o) ∉ keys m1) ∧
    orders_ l = os1 ++ o :: os2 ∧
    id (h !!! o) = i ∧
    (∀ o', o' ∈ orders_ l → id (h !!! o') = i → o' = o).
Proof.
  intros Hb Hio.
  destruct (bk_index _ _ Hb i o Hio) as [Hid Hin].
  rewrite <- (ptrs_from_perm Buy) in Hin.
  destruct (book_resting Buy h b o Hb Hin) as (s & k & _ & Hos & Hr).
  pose proof Hr as (_ & <- & <- & _).
  apply elem_of_ptrs_of in Hos as ([k l] & Hkl & Hol). simpl in Hol.
  pose proof (proj1 (book_ok_side (side (h !!! o)) h b) Hb) as ([Hl Hso] & _).
  pose proof (proj1 (Forall_forall _ _) Hl _ Hkl) as [Hrl _]. simpl in Hrl.
  pose proof (proj1 (Forall_forall _ _) Hrl o Hol) as (_ & _ & Hk & _).
  subst k.
  destruct (sorted_split _ _ _ _ Hso Hkl) as (m1 & m2 & Hm & Hk).
  apply list_elem_of_split in Hol as (os1 & os2 & Hos).
  exists m1, l, m2, os1, os2. repeat split; try done.
  intros o' Ho' Hid'.
  pose proof (proj1 (Forall_forall _ _) Hrl o' Ho') as Hr'.
  eapply resting_inj; [exact Hr'|exact Hr|congruence].
Qed.

Lemma erase_id_spec h i os1 o os2 :
  id (h !!! o) = i →
  (∀ o', o' ∈ os1 ++ o :: os2 → id (h !!! o') = i → o' = o) →
  o ∉ os1 →
  PriceLevel.erase_id h i (os1 ++ o :: os2) = Some (o, os1 ++ os2).
Proof.
  intros Hid Hu Hnot. induction os1 as [|x os1 IH]; simpl.
  - by rewrite decide_True.
  - apply not_elem_of_cons in Hnot as [Hne Hnot].
    rewrite decide_False.
    + rewrite IH; [done| |done]. intros o' ? ?. apply Hu; [|done]. by right.
    + intros Hx. apply Hne. symmetry. apply Hu; [|done]. by left.
Qed.

(** A level that lost all its orders can be erased, wherever it stands. *)
Lemma book_ok_drop s h b m1 p l m2 :
  book_ok h b → side_map s b = m1 ++ (p, l) :: m2 → orders_ l = [] →
  book_ok h (with_side_map s (m1 ++ m2) (index_ b) b).
Proof.
  intros Hb Hm He. apply (book_ok_side s) in Hb.
  apply (book_ok_side s).
  unfold ptrs_from in *.
  rewrite side_map_with, side_map_with_opp, index_with.
  rewrite Hm, ptrs_of_app, ptrs_of_cons, He in Hb. simpl in Hb.
  rewrite ptrs_of_app.
  destruct Hb as ([Hl Hso] & Ho & Hn & Hix & Hc).
  apply Forall_app in Hl as [Hl1 Hl].
  apply Forall_cons in Hl as [_ Hl2].
  rewrite keys_app in Hso. simpl in Hso.
  apply StronglySorted_app in Hso as (Hx & Hs1 & Hs2).
  apply StronglySorted_cons in Hs2 as [_ Hs2].
  split; [|split; [done|]; split; [done|]; split; [done|]].
  - split; [by apply Forall_app|]. rewrite keys_app.
    apply StronglySorted_app. split; [|done].
    intros x1 x2 ? ?. apply Hx; [done|]. by right.
  - intros k k' Hk ?. apply Hc; [|done]. rewrite !keys_app in *. simpl.
    set_solver.
Qed.

(** ** [OrderBook::cancelOrder] *)

Lemma cancelOrder_side h i b :
  OrderBook.cancelOrder h i b =
  match index_ b !! i with
  | None => (false, b)
  | Some o =>
      (true, with_side_map (side (h !!! o))
               (OrderBook.cancel_in h i (price (h !!! o))
                  (side_map (side (h !!! o)) b))
               (delete i (index_ b)) b)
  end.
Proof.
  unfold OrderBook.cancelOrder. destruct (index_ b !! i); [|done].
  by destruct (side (h !!! n)).
Qed.

Lemma perm_take_out (A L1 L2 B C : list nat) o :
  (A ++ (L1 ++ o :: L2) ++ B) ++ C ≡ₚ o :: (A ++ (L1 ++ L2) ++ B) ++ C.
Proof.
  rewrite <- !app_assoc. simpl. symmetry.
  rewrite (app_assoc A L1), (app_assoc A L1 (o :: _)).
  apply Permutation_middle.
Qed.

Lemma cancelOrder_ok h i b :
  book_ok h b → nonempty (bids_ b) → nonempty (asks_ b) →
  let b' := (OrderBook.cancelOrder h i b).2 in
  book_ok h b' ∧ nonempty (bids_ b') ∧ nonempty (asks_ b') ∧
  index_ b' = delete i (index_ b) ∧
  book_ptrs b' ⊆ book_ptrs b.
Proof.
  intros Hb Hnb Hna. rewrite cancelOrder_side.
  destruct (index_ b !! i) as [o|] eqn:Hio; simpl.
  2:{ split; [done|]. split; [done|]. split; [done|].
      split; [symmetry; by apply delete_id|done]. }
  destruct (book_locate h b i o Hb Hio)
    as (m1 & l & m2 & os1 & os2 & Hm & Hk & Hos & Hid & Huniq).
  set (s := side (h !!! o)) in *. set (p := price (h !!! o)) in *.
  assert (Hne : ∀ s', nonempty (side_map s' b)) by (by intros []).
  pose proof Hb as Hb0.
  apply (book_ok_side s) in Hb as ([Hl Hso] & [Hlo Hsoo] & Hn & Hix & Hc).
  unfold ptrs_from in *. rewrite Hm in *.
  rewrite ptrs_of_app, ptrs_of_cons, Hos in Hn, Hix.
  rewrite perm_take_out in Hn. apply NoDup_cons in Hn as [Hnot Hn].
  (* what cancel_in computes *)
  set (l' := PriceLevel.mk (PriceLevel.price l) (os1 ++ os2)
               (wrap64 (totalQty_ l - quantity (h !!! o)))).
  assert (Hcin : OrderBook.cancel_in h i p (m1 ++ (p, l) :: m2)
                 = if PriceLevel.empty l' then m1 ++ m2
                   else m1 ++ (p, l') :: m2).
  { unfold OrderBook.cancel_in. rewrite map_find_split by done.
    unfold PriceLevel.removeOrder. rewrite Hos, erase_id_spec; try done.
    - simpl. fold l'. destruct (PriceLevel.empty l').
      + by apply map_erase_split.
      + by apply map_set_split.
    - by rewrite <- Hos.
    - intros ?. apply Hnot. set_solver. }
  rewrite Hcin. clear Hcin.
  set (idx' := delete i (index_ b)).
  (* the book with the order taken out of its level *)
  set (b1 := with_side_map s (m1 ++ (p, l') :: m2) idx' b).
  assert (F1 : ∀ o', o' ∈ (ptrs_of m1 ++ (os1 ++ os2) ++ ptrs_of m2) ++
                          ptrs_of (side_map (opposite s) b) →
               quantity (h !!! o') = quantity (h !!! o') ∧
               idx' !! id (h !!! o') = Some o').
  { intros o' Ho'. split; [done|].
    destruct (book_resting s h b o' Hb0) as (s' & k & _ & _ & Hr).
    { unfold ptrs_from. rewrite Hm, ptrs_of_app, ptrs_of_cons, Hos.
      rewrite perm_take_out. by right. }
    unfold idx'. rewrite lookup_delete_ne; [apply Hr|].
    intros Heq. destruct Hr as (_&_&_&Hr). rewrite <- Heq, Hio in Hr.
    injection Hr as ->. done. }
  apply Forall_app in Hl as [Hl1 Hl2].
  apply Forall_cons in Hl2 as [[Hr0 Ht0] Hl2]. simpl in Hr0, Ht0.
  assert (Hb1 : book_ok h b1).
  { apply (book_ok_side s). unfold b1, ptrs_from.
    rewrite side_map_with, side_map_with_opp, index_with.
    rewrite ptrs_of_app, ptrs_of_cons. simpl.
    split; [|split; [|split; [|split]]].
    - split; [|by rewrite keys_app in *].
      apply Forall_app. split; [|apply Forall_cons; split].
      + eapply levels_transport; [done|apply same_static_refl|].
        intros o' ?. apply F1. set_solver.
      + split; simpl.
        * apply Forall_forall. intros o' Ho'.
          pose proof (proj1 (Forall_forall _ _) Hr0 o') as (?&?&?&?).
          { rewrite Hos. set_solver. }
          repeat split; try done. apply F1. set_solver.
        * rewrite Ht0, wrap64_sub_l, Hos, !sum_qty_app. simpl. f_equal. lia.
      + eapply levels_transport; [done|apply same_static_refl|].
        intros o' ?. apply F1. set_solver.
    - split; [|done]. eapply levels_transport; [done|apply same_static_refl|].
      intros o' ?. apply F1. set_solver.
    - done.
    - intros i' o' Hio'. unfold idx' in Hio'.
      apply lookup_delete_Some in Hio' as [Hne' Hio'].
      destruct (Hix i' o' Hio') as [Hid' Hin]. split; [done|].
      rewrite perm_take_out in Hin.
      apply elem_of_cons in Hin as [->|Hin]; [congruence|done].
    - intros k k' Hk' Hk2. apply Hc; [|done]. by rewrite keys_app in *. }
  assert (Hsub : ∀ m', ptrs_of m' ⊆ ptrs_of m1 ++ (os1 ++ os2) ++ ptrs_of m2 →
            book_ptrs (with_side_map s m' idx' b) ⊆ book_ptrs b).
  { intros m' Hm'. rewrite <- !(ptrs_from_perm s). unfold ptrs_from.
    rewrite side_map_with, side_map_with_opp, Hm, ptrs_of_app, ptrs_of_cons, Hos.
    set_solver. }
  assert (Hne1 : nonempty m1 ∧ nonempty m2).
  { specialize (Hne s). rewrite Hm in Hne.
    apply Forall_app in Hne as [? Hne]. by apply Forall_cons in Hne as [_ ?]. }
  assert (Hnes : ∀ m', nonempty m' → ∀ s',
            nonempty (side_map s' (with_side_map s m' idx' b))).
  { intros m' Hm' s'. destruct (decide (s' = s)) as [->|Hs'].
    - by rewrite side_map_with.
    - replace s' with (opposite s) by (by destruct s, s').
      rewrite side_map_with_opp. apply Hne. }
  destruct (PriceLevel.empty l') eqn:El'.
  - assert (He : orders_ l' = []).
    { unfold PriceLevel.empty in El'. by destruct (orders_ l'). }
    assert (Hnew : nonempty (m1 ++ m2)) by (by apply Forall_app).
    split; [|split; [apply (Hnes _ Hnew Buy)|split; [apply (Hnes _ Hnew Sell)|]]].
    + replace (with_side_map s (m1 ++ m2) idx' b)
        with (with_side_map s (m1 ++ m2) (index_ b1) b1).
      * eapply book_ok_drop; [done|apply side_map_with|done].
      * unfold b1. by destruct s.
    + split; [apply index_with|]. apply Hsub.
      rewrite ptrs_of_app. simpl in He. rewrite He. set_solver.
  - assert (Hnew : nonempty (m1 ++ (p, l') :: m2)).
    { destruct Hne1. apply Forall_app. split; [done|].
      apply Forall_cons. split; [|done]. simpl.
      unfold PriceLevel.empty in El'. simpl in El'. by destruct (os1 ++ os2). }
    split; [done|].
    split; [apply (Hnes _ Hnew Buy)|split; [apply (Hnes _ Hnew Sell)|]].
    split; [apply index_with|]. apply Hsub.
    rewrite ptrs_of_app, ptrs_of_cons. done.
Qed.

(** ** [OrderBook::modifyQuantity] *)

Lemma wrap64_sub_r a b : wrap64 (a - wrap64 b) = wrap64 (a - b).
Proof. apply Zminus_mod_idemp_r. Qed.

Lemma modifyQuantity_ok h i newQty b :
  book_ok h b → nonempty (bids_ b) → nonempty (asks_ b) →
  Forall (λ o, u64 (quantity o)) h → 0 ≤ newQty →
  let r := OrderBook.modifyQuantity h i newQty b in
  book_ok r.2.1 r.2.2 ∧ nonempty (bids_ r.2.2) ∧ nonempty (asks_ r.2.2) ∧
  same_static h r.2.1 ∧ Forall (λ o, u64 (quantity o)) r.2.1.
Proof.
  intros Hb Hnb Hna Hu Hq. unfold OrderBook.modifyQuantity.
  destruct (index_ b !! i) as [o|] eqn:Hio; simpl;
    [|by auto using same_static_refl].
  destruct (newQty >=? quantity (h !!! o)) eqn:Eq; simpl;
    [by auto using same_static_refl|].
  assert (Hlt : newQty < quantity (h !!! o)).
  { rewrite Z.geb_leb in Eq. by apply Z.leb_gt in Eq. }
  assert (Hqo := store_u64_total h o Hu). unfold u64 in Hqo.
  destruct (book_locate h b i o Hb Hio)
    as (m1 & l & m2 & os1 & os2 & Hm & Hk & Hos & Hid & Huniq).
  set (h' := store_quantity o newQty h).
  assert (Hst : same_static h h') by apply store_quantity_static.
  destruct (Hst) as [Hlen Hst']. destruct (Hst' o) as (Hid' & Hsd' & Hpr').
  assert (Hu' : Forall (λ o, u64 (quantity o)) h').
  { apply store_quantity_u64; [|done]. unfold u64. lia. }
  set (delta := wrap64 (quantity (h !!! o) - newQty)).
  set (s := side (h !!! o)) in *. set (p := price (h !!! o)) in *.
  assert (Hres : (if side (h' !!! o) is Buy
            then (true, (h', OrderBook.mk
                    (OrderBook.adjust_in delta (price (h' !!! o)) (bids_ b))
                    (asks_ b) (index_ b)))
            else (true, (h', OrderBook.mk (bids_ b)
                    (OrderBook.adjust_in delta (price (h' !!! o)) (asks_ b))
                    (index_ b))))
          = (true, (h', with_side_map s
               (m1 ++ (p, PriceLevel.adjustTotal delta l) :: m2) (index_ b) b))).
  { rewrite Hsd', Hpr'. fold s p.
    assert (OrderBook.adjust_in delta p (side_map s b)
            = m1 ++ (p, PriceLevel.adjustTotal delta l) :: m2) as <-.
    { unfold OrderBook.adjust_in.
      by rewrite Hm, map_find_split, map_set_split. }
    by destruct s. }
  rewrite Hres. clear Hres. simpl.
  assert (Hne : ∀ s', nonempty (side_map s' b)) by (by intros []).
  pose proof Hb as Hb0.
  apply (book_ok_side s) in Hb as ([Hl Hso] & [Hlo Hsoo] & Hn & Hix & Hc).
  unfold ptrs_from in *. rewrite Hm in *.
  rewrite ptrs_of_app, ptrs_of_cons, Hos in Hn.
  rewrite perm_take_out in Hn. apply NoDup_cons in Hn as [Hnot Hn].
  assert (Hoo : (o < length h)%nat).
  { destruct (book_resting Buy h b o Hb0) as (?&?&_&_&Hr); [|apply Hr].
    rewrite (ptrs_from_perm Buy). by apply (bk_index _ _ Hb0 i). }
  assert (F1 : ∀ o', o' ∈ (ptrs_of m1 ++ (os1 ++ os2) ++ ptrs_of m2) ++
                          ptrs_of (side_map (opposite s) b) →
               quantity (h' !!! o') = quantity (h !!! o') ∧
               index_ b !! id (h !!! o') = Some o').
  { intros o' Ho'. split.
    - unfold h'. rewrite store_quantity_ne; [done|]. by intros ->.
    - destruct (book_resting s h b o' Hb0) as (s' & k & _ & _ & Hr);
        [|apply Hr].
      unfold ptrs_from. rewrite Hm, ptrs_of_app, ptrs_of_cons, Hos.
      rewrite perm_take_out. by right. }
  apply Forall_app in Hl as [Hl1 Hl2].
  apply Forall_cons in Hl2 as [[Hr0 Ht0] Hl2]. simpl in Hr0, Ht0.
  assert (Hnes : ∀ s', nonempty (side_map s' (with_side_map s
            (m1 ++ (p, PriceLevel.adjustTotal delta l) :: m2) (index_ b) b))).
  { intros s'. destruct (decide (s' = s)) as [->|Hs'].
    - rewrite side_map_with. specialize (Hne s). rewrite Hm in Hne.
      apply Forall_app in Hne as [? Hne]. apply Forall_cons in Hne as [? ?].
      apply Forall_app. split; [done|]. by apply Forall_cons.
    - replace s' with (opposite s) by (by destruct s, s').
      rewrite side_map_with_opp. apply Hne. }
  split; [|split; [apply (Hnes Buy)|split; [apply (Hnes Sell)|done]]].
  apply (book_ok_side s). unfold ptrs_from.
  rewrite side_map_with, side_map_with_opp, index_with.
  rewrite ptrs_of_app, ptrs_of_cons. simpl. rewrite Hos.
  split; [|split; [|split; [|split]]].
  - split; [|by rewrite keys_app in *].
    apply Forall_app. split; [|apply Forall_cons; split].
    + eapply levels_transport; [done..|].
      intros o' ?. apply F1. set_solver.
    + split; simpl.
      * rewrite Hos. apply Forall_forall. intros o' Ho'.
        pose proof (proj1 (Forall_forall _ _) Hr0 o') as (?&?&?&?).
        { by rewrite Hos. }
        destruct (Hst' o') as (Hi1 & Hi2 & Hi3).
        split; [lia|]. by rewrite Hi1, Hi2, Hi3.
      * rewrite Ht0, wrap64_sub_l. unfold delta. rewrite wrap64_sub_r.
        rewrite Hos, !sum_qty_app. simpl.
        rewrite (sum_qty_ext h h' os1), (sum_qty_ext h h' os2).
        -- unfold h' at 1. rewrite store_quantity_eq by done. simpl.
           f_equal. lia.
        -- intros o' ?. apply F1. set_solver.
        -- intros o' ?. apply F1. set_solver.
    + eapply levels_transport; [done..|].
      intros o' ?. apply F1. set_solver.
  - split; [|done]. eapply levels_transport; [done..|].
    intros o' ?. apply F1. set_solver.
  - rewrite perm_take_out. by apply NoDup_cons.
  - intros i' o' Hio'. rewrite ptrs_of_app, ptrs_of_cons, Hos in Hix.
    destruct (Hix i' o' Hio') as [? ?]. split; [|done].
    destruct (Hst' o') as (-> & _). done.
  - intros k k' Hk' Hk2. apply Hc; [|done]. by rewrite keys_app in *.
Qed.

(** ** [MatchingEngine::submitOrder] *)

Lemma Forall_total (P : Order → Prop) (h : list Order) :
  Forall P h ↔ ∀ o, (o < length h)%nat → P (h !!! o).
Proof.
  rewrite Forall_lookup. split.
  - intros H o Ho. apply (H o). by apply list_lookup_lookup_total_lt.
  - intros H o x Hx. rewrite <- (list_lookup_total_correct _ _ _ Hx).
    apply H. by eapply lookup_lt_Some.
Qed.

(** The book does not see an order that is pushed on [storage_]. *)
Lemma book_ok_push h x b : book_ok h b → book_ok (h ++ [x]) b.
Proof.
  intros Hb.
  assert (Hsame : ∀ o, o ∈ book_ptrs b →
            (o < length h)%nat ∧ (h ++ [x]) !!! o = h !!! o).
  { intros o Ho. rewrite <- (ptrs_from_perm Buy) in Ho.
    destruct (book_resting Buy h b o Hb Ho) as (? & ? & _ & _ & (Hlt & _)).
    split; [done|]. by apply lookup_total_app_l. }
  assert (Hside : ∀ s, side_ok h (index_ b) s (side_map s b) →
            side_ok (h ++ [x]) (index_ b) s (side_map s b)).
  { intros s [Hl Hso]. split; [|done].
    apply Forall_forall. intros [k l] Hkl.
    pose proof (proj1 (Forall_forall _ _) Hl _ Hkl) as [Hr Ht]. simpl in *.
    assert (Hin : ∀ o, o ∈ orders_ l → o ∈ book_ptrs b).
    { intros o Ho. rewrite <- (ptrs_from_perm s). apply elem_of_app. left.
      apply elem_of_ptrs_of. by exists (k, l). }
    split; simpl.
    - apply Forall_forall. intros o Ho.
      pose proof (proj1 (Forall_forall _ _) Hr _ Ho) as (?&?&?&?).
      unfold resting. destruct (Hsame o (Hin o Ho)) as [_ ->].
      rewrite length_app. simpl. repeat split; try done. lia.
    - rewrite Ht. f_equal. symmetry. apply sum_qty_ext.
      intros o Ho. by destruct (Hsame o (Hin o Ho)) as [_ ->]. }
  destruct Hb as [Hbi Has Hn Hix Hc]. split; try done.
  - by apply (Hside Buy).
  - by apply (Hside Sell).
  - intros i o Hio. destruct (Hix i o Hio) as [? Ho]. split; [|done].
    by destruct (Hsame o Ho) as [_ ->].
Qed.

Lemma book_ptrs_valid h b o :
  book_ok h b → o ∈ book_ptrs b → (o < length h)%nat.
Proof.
  intros Hb Ho. rewrite <- (ptrs_from_perm Buy) in Ho.
  by destruct (book_resting Buy h b o Hb Ho) as (? & ? & _ & _ & (Hlt & _)).
Qed.

(** No order of the book has the id the engine hands out next. *)
Lemma next_id_fresh h b next :
  book_ok h b → Forall (λ o, 1 ≤ id o < next) h → index_ b !! next = None.
Proof.
  intros Hb Hids. destruct (index_ b !! next) as [o|] eqn:Hio; [|done].
  destruct (bk_index _ _ Hb _ _ Hio) as [Hid Ho].
  apply (book_ptrs_valid h) in Ho; [|done].
  pose proof (proj1 (Forall_total _ _) Hids o Ho). simpl in *. lia.
Qed.

Record submit_post (s : Side) (p : Price) (qty : Quantity)
    (e : MatchingEngine.t) (trades : list Trade) (e' : MatchingEngine.t)
  : Prop := {
  sp_book : book_ok (storage_ e') (book_ e');
  sp_bids : nonempty (bids_ (book_ e'));
  sp_asks : nonempty (asks_ (book_ e'));
  sp_next : nextOrderId_ e' = wrap64 (nextOrderId_ e + 1);
  sp_len : length (storage_ e') = S (length (storage_ e));
  sp_ids : Forall (λ o, 1 ≤ id o < nextOrderId_ e + 1) (storage_ e');
  sp_u64 : Forall (λ o, u64 (quantity o)) (storage_ e');
  sp_new : id (storage_ e' !!! length (storage_ e)) = nextOrderId_ e ∧
           side (storage_ e' !!! length (storage_ e)) = s ∧
           price (storage_ e' !!! length (storage_ e)) = p;
  sp_index : ∀ i o, index_ (book_ e') !! i = Some o →
               i = nextOrderId_ e ∧ o = length (storage_ e) ∨
               index_ (book_ e) !! i = Some o;
  sp_fills : fills (storage_ e) (index_ (book_ e)) (nextOrderId_ e)
               (ptrs_of (side_map (opposite s) (book_ e))) qty trades
               (quantity (storage_ e' !!! length (storage_ e)));
  sp_rest : 0 < quantity (storage_ e' !!! length (storage_ e)) →
            index_ (book_ e') !! nextOrderId_ e = Some (length (storage_ e)) ∧
            ∃ l, map_find p (side_map s (book_ e')) = Some l ∧
                 last (orders_ l) = Some (length (storage_ e));
  sp_gone : quantity (storage_ e' !!! length (storage_ e)) = 0 →
            index_ (book_ e') !! nextOrderId_ e = None
}.

Lemma submitOrder_spec s p qty ts e :
  book_ok (storage_ e) (book_ e) →
  nonempty (bids_ (book_ e)) → nonempty (asks_ (book_ e)) →
  store_ok (storage_ e) (nextOrderId_ e) →
  1 ≤ nextOrderId_ e →
  u64 qty →
  ∃ trades e',
    MatchingEngine.submitOrder s p qty ts e = Returns trades e' ∧
    submit_post s p qty e trades e'.
Proof.
  intros Hb Hnb Hna [Hids Hu] Hnext Hq.
  unfold MatchingEngine.submitOrder, MatchingEngine.match_.
  set (order := mkOrder (nextOrderId_ e) s p qty qty ts).
  set (raw := length (storage_ e)).
  set (h := storage_ e ++ [order]).
  assert (Hraw : h !!! raw = order) by apply list_lookup_total_middle, eq_refl.
  rewrite Hraw. simpl.
  assert (Hne : ∀ s', nonempty (side_map s' (book_ e))) by (by intros []).
  assert (Hnotin : raw ∉ book_ptrs (book_ e)).
  { intros Hin. apply (book_ptrs_valid _ _ _ Hb) in Hin. unfold raw in Hin. lia. }
  destruct (walk_spec (S (length (side_map (opposite s) (book_ e))))
              (opposite s) raw h (book_ e) [])
    as (m & new & Hrun & Hpost).
  { by apply book_ok_push. }
  { unfold h, raw. rewrite length_app. simpl. lia. }
  { by rewrite (ptrs_from_perm (opposite s)). }
  { apply Forall_app. split; [done|]. by apply Forall_singleton. }
  { lia. }
  rewrite Hrun.
  destruct Hpost as [Wb Wne Wsame Wkeys Wptrs Wst Wu Wix Wend Wtk Widle Wtr Wfl].
  rewrite opposite_involutive in Wsame. rewrite Hraw in *. simpl in *.
  destruct Wst as [Wlen Wst].
  destruct (Wst raw) as (Hrid & Hrsd & Hrpr). rewrite Hraw in *. simpl in *.
  assert (Hptrs' : book_ptrs (m_book m) ⊆ book_ptrs (book_ e)).
  { rewrite <- !(ptrs_from_perm s). unfold ptrs_from. rewrite Wsame.
    set_solver. }
  assert (Hfresh : index_ (m_book m) !! nextOrderId_ e = None).
  { destruct (index_ (m_book m) !! nextOrderId_ e) as [o|] eqn:Hio; [|done].
    apply Wix in Hio. by rewrite (next_id_fresh _ _ _ Hb Hids) in Hio. }
  assert (Hids' : Forall (λ o, 1 ≤ id o < nextOrderId_ e + 1) (m_store m)).
  { apply Forall_total. intros o Ho. destruct (Wst o) as (-> & _).
    revert o Ho. rewrite Wlen.
    apply (Forall_total (λ o, 1 ≤ id o < nextOrderId_ e + 1)).
    apply Forall_app. split.
    - eapply Forall_impl; [exact Hids|]. simpl. intros; lia.
    - apply Forall_singleton. simpl. lia. }
  assert (Hfl : fills (storage_ e) (index_ (book_ e)) (nextOrderId_ e)
            (ptrs_of (side_map (opposite s) (book_ e))) qty new
            (quantity (m_store m !!! raw))).
  { eapply fills_transfer; [| |exact Wfl]; [|done].
    intros o Ho. split; [done|]. apply lookup_total_app_l.
    apply (book_ptrs_valid _ (book_ e)); [done|].
    rewrite <- (ptrs_from_perm (opposite s)). apply elem_of_app. by left. }
  assert (Hlen' : length (m_store m) = S (length (storage_ e))).
  { rewrite Wlen. unfold h. rewrite length_app. simpl. lia. }
  assert (Hne' : ∀ s', nonempty (side_map s' (m_book m))).
  { intros s'. destruct (decide (s' = s)) as [->|Hs'].
    - rewrite Wsame. apply Hne.
    - replace s' with (opposite s) by (by destruct s, s'). apply Wne, Hne. }
  destruct (0 <? quantity (m_store m !!! raw)) eqn:Eq.
  - (* the remainder rests *)
    apply Z.ltb_lt in Eq.
    eexists _, _. split; [done|].
    assert (Hsorted : StronglySorted (better s) (keys (side_map s (m_book m)))).
    { by pose proof (proj1 (book_ok_side s _ _) Wb) as ([_ ?] & _). }
    assert (Hadd := addOrder_side (m_store m) raw (m_book m)).
    rewrite Hrid, Hrsd, Hrpr in Hadd.
    assert (Hne2 : ∀ s', nonempty (side_map s'
              (OrderBook.addOrder (m_store m) raw (m_book m)))).
    { intros s'. rewrite Hadd. destruct (decide (s' = s)) as [->|Hs'].
      - rewrite side_map_with. by apply add_in_nonempty.
      - replace s' with (opposite s) by (by destruct s, s').
        rewrite side_map_with_opp. apply Hne'. }
    split; simpl; try done.
    + apply addOrder_ok; try done.
      * lia.
      * set_solver.
      * by rewrite Hrid.
      * rewrite Hrsd, Hrpr. destruct Wend as [?|?]; [lia|done].
    + apply (Hne2 Buy).
    + apply (Hne2 Sell).
    + rewrite Hadd, index_with. intros i o Hio.
      apply lookup_insert_Some in Hio as [[<- <-]|[_ Hio]]; [by left|].
      right. by apply Wix.
    + by rewrite Wtr.
    + intros _. rewrite Hadd, index_with, side_map_with.
      split; [apply lookup_insert_eq|].
      destruct (add_in_find s (m_store m) raw p _ Hsorted) as (l0 & ->).
      eexists. split; [done|]. simpl. apply last_snoc.
    + fold raw. lia.
  - (* the order is filled *)
    apply Z.ltb_ge in Eq.
    eexists _, _. split; [done|].
    split; simpl; try done.
    + apply (Hne' Buy).
    + apply (Hne' Sell).
    + intros i o Hio. right. by apply Wix.
    + by rewrite Wtr.
    + fold raw. lia.
Qed.

(** ** Sequences of calls on the engine *)

Inductive Op :=
  | OpSubmit (s : Side) (p : Price) (qty : Quantity) (ts : Timestamp)
  | OpCancel (i : OrderId)
  | OpModify (i : OrderId) (p : Price) (qty : Quantity) (ts : Timestamp).

Definition i64 (z : Z) : Prop := - 2 ^ 63 ≤ z < 2 ^ 63.

(** The arguments have the types of the C++ signatures. *)
Definition valid_op (op : Op) : Prop :=
  match op with
  | OpSubmit _ p qty ts => i64 p ∧ u64 qty ∧ u64 ts
  | OpCancel i => u64 i
  | OpModify i p qty ts => u64 i ∧ i64 p ∧ u64 qty ∧ u64 ts
  end.

(** The engine after a call, also when the call threw (the command loop
    catches the exception and goes on). *)
Definition state_after {A} (o : MatchingEngine.Outcome A)
  : option MatchingEngine.t :=
  match o with
  | Returns _ e => Some e
  | Throws _ e => Some e
  | OutOfFuel => None
  end.

Definition apply_op (op : Op) (e : MatchingEngine.t) : option MatchingEngine.t :=
  match op with
  | OpSubmit s p qty ts => state_after (MatchingEngine.submitOrder s p qty ts e)
  | OpCancel i => state_after (MatchingEngine.cancelOrder i e)
  | OpModify i p qty ts => state_after (MatchingEngine.modifyOrder i p qty ts e)
  end.

Fixpoint run (ops : list Op) (e : MatchingEngine.t) : option MatchingEngine.t :=
  match ops with
  | [] => Some e
  | op :: ops' =>
      match apply_op op e with
      | Some e' => run ops' e'
      | None => None
      end
  end.

(** ** The invariant holds in every state the engine reaches *)

Lemma Inv_new : Inv MatchingEngine.new.
Proof.
  split; simpl.
  - split; simpl.
    + split; constructor.
    + split; constructor.
    + apply NoDup_nil_2.
    + intros i o Hio. by rewrite lookup_empty in Hio.
    + intros kb ka Hk. by apply elem_of_nil in Hk.
  - constructor.
  - constructor.
  - split; constructor.
  - lia.
Qed.

Lemma submit_Inv s p qty ts e :
  Inv e → u64 qty → nextOrderId_ e + 1 < 2 ^ 64 →
  ∃ trades e',
    MatchingEngine.submitOrder s p qty ts e = Returns trades e' ∧
    submit_post s p qty e trades e' ∧ Inv e' ∧
    nextOrderId_ e' = nextOrderId_ e + 1.
Proof.
  intros [Hb Hnb Hna Hst Hn] Hq Hw.
  destruct (submitOrder_spec s p qty ts e) as (trades & e' & Hrun & Hpost);
    try done; [lia|].
  exists trades, e'. split; [done|]. split; [done|].
  assert (Hnext : nextOrderId_ e' = nextOrderId_ e + 1).
  { rewrite (sp_next _ _ _ _ _ _ Hpost). apply wrap64_small. unfold u64. lia. }
  split; [|done]. destruct Hpost. split; try done.
  - split; [|done]. by rewrite Hnext.
  - lia.
Qed.

Lemma cancel_Inv i e :
  Inv e →
  ∃ r e', MatchingEngine.cancelOrder i e = Returns r e' ∧ Inv e' ∧
          storage_ e' = storage_ e ∧ nextOrderId_ e' = nextOrderId_ e ∧
          index_ (book_ e') = delete i (index_ (book_ e)).
Proof.
  intros [Hb Hnb Hna Hst Hn]. unfold MatchingEngine.cancelOrder.
  eexists _, _. split; [done|].
  destruct (cancelOrder_ok (storage_ e) i (book_ e) Hb Hnb Hna)
    as (? & ? & ? & ? & ?).
  split; [|done]. by split.
Qed.

Lemma same_static_ids h h' (P : Z → Prop) :
  same_static h h' → Forall (λ o, P (id o)) h → Forall (λ o, P (id o)) h'.
Proof.
  intros [Hlen Hst] Hh. apply Forall_total. intros o Ho.
  destruct (Hst o) as (-> & _). rewrite Hlen in Ho. revert o Ho.
  by apply (Forall_total (λ o, P (id o))).
Qed.

Lemma modify_Inv i p qty ts e :
  Inv e → u64 qty → nextOrderId_ e + 1 < 2 ^ 64 →
  ∃ e', state_after (MatchingEngine.modifyOrder i p qty ts e) = Some e' ∧
        Inv e' ∧ nextOrderId_ e ≤ nextOrderId_ e' ≤ nextOrderId_ e + 1.
Proof.
  intros HI Hq Hw. unfold MatchingEngine.modifyOrder, OrderBook.getOrder.
  destruct (index_ (book_ e) !! i) as [o|] eqn:Hio.
  2:{ exists e. simpl. split; [done|]. split; [done|lia]. }
  destruct (decide (p = price (storage_ e !!! o))) as [->|Hp].
  - destruct (qty >=? quantity (storage_ e !!! o)) eqn:Eq.
    { exists e. simpl. split; [done|]. split; [done|lia]. }
    simpl. eexists. split; [done|]. split; [|simpl; lia].
    destruct HI as [Hb Hnb Hna [Hids Hu] Hn].
    destruct (modifyQuantity_ok (storage_ e) i qty (book_ e) Hb Hnb Hna Hu)
      as (? & ? & ? & ? & ?); [apply Hq|].
    split; simpl; try done. split; [|done].
    by apply (same_static_ids (storage_ e) _ (λ z, 1 ≤ z < nextOrderId_ e)).
  - destruct (cancel_Inv i e HI) as (r & e1 & Hc & HI1 & Hs1 & Hn1 & _).
    unfold MatchingEngine.cancelOrder in Hc. injection Hc as _ <-.
    destruct (submit_Inv (side (storage_ e !!! o)) p qty ts _ HI1 Hq)
      as (trades & e' & Hrun & _ & HI' & Hn'); [simpl; lia|].
    rewrite Hrun. exists e'. simpl in *. split; [done|]. split; [done|lia].
Qed.

Lemma step_ok op e :
  Inv e → valid_op op → nextOrderId_ e + 1 < 2 ^ 64 →
  ∃ e', apply_op op e = Some e' ∧ Inv e' ∧
        nextOrderId_ e ≤ nextOrderId_ e' ≤ nextOrderId_ e + 1.
Proof.
  intros HI Hv Hw.
  destruct op as [s p qty ts|i|i p qty ts]; cbn [apply_op valid_op] in *.
  - destruct (submit_Inv s p qty ts e HI) as (tr & e' & -> & _ & ? & ?);
      [tauto|done|].
    exists e'. simpl. split; [done|]. split; [done|lia].
  - destruct (cancel_Inv i e HI) as (r & e' & -> & ? & _ & Hn & _).
    exists e'. simpl. split; [done|]. split; [done|lia].
  - apply modify_Inv; tauto.
Qed.

Lemma run_ok ops : ∀ e,
  Inv e → Forall valid_op ops →
  nextOrderId_ e + Z.of_nat (length ops) < 2 ^ 64 →
  ∃ e', run ops e = Some e' ∧ Inv e' ∧
        nextOrderId_ e' ≤ nextOrderId_ e + Z.of_nat (length ops).
Proof.
  induction ops as [|op ops IH]; intros e HI Hv Hw; simpl in *.
  - exists e. split; [done|]. split; [done|lia].
  - apply Forall_cons in Hv as [Hop Hv].
    destruct (step_ok op e HI Hop) as (e1 & -> & HI1 & Hn1); [lia|].
    destruct (IH e1 HI1 Hv) as (e' & Hrun & HI' & Hn'); [lia|].
    exists e'. split; [done|]. split; [done|lia].
Qed.

(** Every state reached from a new engine by fewer than [2^64 - 1] calls
    with well-typed arguments: the id counter has not wrapped around. *)
Lemma reachable_Inv ops :
  Forall valid_op ops → Z.of_nat (length ops) < 2 ^ 64 - 1 →
  ∃ e, run ops MatchingEngine.new = Some e ∧ Inv e.
Proof.
  intros Hv Hw.
  destruct (run_ok ops MatchingEngine.new Inv_new Hv) as (e & ? & ? & _);
    [simpl; lia|].
  by exists e.
Qed.

Lemma reached_Inv ops e :
  Forall valid_op ops → Z.of_nat (length ops) < 2 ^ 64 - 1 →
  run ops MatchingEngine.new = Some e → Inv e.
Proof.
  intros Hv Hw Hrun. destruct (reachable_Inv ops Hv Hw) as (e' & Hrun' & HI).
  congruence.
Qed.

(** The state a sequence of calls leads to, for concrete sequences. *)
Definition state_of (ops : list Op) : MatchingEngine.t :=
  default MatchingEngine.new (run ops MatchingEngine.new).

(** The value and the engine an outcome carries, for concrete calls. *)
Definition trades_of (r : MatchingEngine.Outcome (list Trade)) : list Trade :=
  match r with Returns trades _ => trades | _ => [] end.

Definition engine_of {A} (r : MatchingEngine.Outcome A) : MatchingEngine.t :=
  default MatchingEngine.new (state_after r).

(** * The claims *)

(** ** C1: maker pricing and fill quantity *)

(** Total quantity of a list of trades. *)
Definition filled (trades : list Trade) : Z :=
  foldr (λ t acc, trade_quantity t + acc) 0 trades.

(** Every trade of the list names a maker that the index [idx] finds in the
    store [h]; the trade is at that maker's price, and its quantity is the
    smaller of what the taker has left after the earlier trades of the list
    and of the maker's remaining quantity. *)
Definition maker_priced (h : list Order) (idx : gmap Z nat) (tid : OrderId)
    (qty : Quantity) (trades : list Trade) : Prop :=
  ∀ n t, trades !! n = Some t →
    ∃ o maker,
      idx !! makerOrderId t = Some o ∧ h !! o = Some maker ∧
      id maker = makerOrderId t ∧
      takerOrderId t = tid ∧
      trade_price t = price maker ∧
      trade_quantity t = Z.min (qty - filled (take n trades)) (quantity maker).

Lemma fills_maker_priced h idx tid os q trades q' :
  fills h idx tid os q trades q' →
  (∀ o, o ∈ os → (o < length h)%nat) →
  maker_priced h idx tid q trades.
Proof.
  intros Hf Hos. induction Hf as [|q q' t o rest Ho Hio Hid Hp Hq Ht Hf IH].
  - intros n t Hn. by rewrite lookup_nil in Hn.
  - intros [|n] t' Hn; simpl in Hn.
    + injection Hn as <-. exists o, (h !!! o).
      split; [done|]. split; [by apply list_lookup_lookup_total_lt, Hos|].
      simpl. rewrite Z.sub_0_r. done.
    + destruct (IH n t' Hn) as (o' & mk' & ? & ? & ? & ? & ? & Hq').
      exists o', mk'. repeat split; try done.
      rewrite Hq'. simpl. f_equal. lia.
Qed.

Lemma submit_maker_priced s p qty ts e :
  Inv e → u64 qty →
  ∃ trades e',
    MatchingEngine.submitOrder s p qty ts e = Returns trades e' ∧
    maker_priced (storage_ e) (index_ (book_ e)) (nextOrderId_ e) qty trades.
Proof.
  intros [Hb Hnb Hna Hst Hn] Hq.
  destruct (submitOrder_spec s p qty ts e) as (trades & e' & Hs & Hpost);
    try done; [lia|].
  exists trades, e'. split; [done|].
  eapply fills_maker_priced; [apply (sp_fills _ _ _ _ _ _ Hpost)|].
  intros o Ho. apply (book_ptrs_valid _ (book_ e)); [done|].
  rewrite <- (ptrs_from_perm (opposite s)). apply elem_of_app. by left.
Qed.

(** C1. In every state the engine reaches, [submitOrder] returns, and each
    trade it returns is priced at the resting price of its maker and is for
    min(taker remaining, maker remaining) at the time of the fill: the taker
    has its quantity less the earlier trades of the call left, and the maker
    has what it had when the call began, since a maker is met once per call.
    This holds for every side, price and quantity, also when the price is
    that of resting orders.  The same holds for the trades of the
    resubmission inside [modifyOrder] of any live order at a new price, with
    respect to the book the cancellation leaves. *)
Theorem C1_trades_at_maker_price_for_min_quantity ops e s p qty ts :
  Forall valid_op ops → Z.of_nat (length ops) < 2 ^ 64 - 1 →
  run ops MatchingEngine.new = Some e →
  u64 qty →
  (∃ trades e',
     MatchingEngine.submitOrder s p qty ts e = Returns trades e' ∧
     maker_priced (storage_ e) (index_ (book_ e)) (nextOrderId_ e) qty
       trades) ∧
  (∀ i o,
     OrderBook.getOrder i (book_ e) = Some o →
     p ≠ price (storage_ e !!! o) →
     ∃ trades e',
       MatchingEngine.modifyOrder i p qty ts e = Returns trades e' ∧
       maker_priced (storage_ e) (delete i (index_ (book_ e)))
         (nextOrderId_ e) qty trades).
Proof.
  intros Hv Hw Hrun Hq.
  pose proof (reached_Inv ops e Hv Hw Hrun) as HI.
  split; [by apply submit_maker_priced|].
  intros i o Hio Hp.
  unfold MatchingEngine.modifyOrder. rewrite Hio.
  rewrite decide_False by done.
  destruct (cancel_Inv i e HI) as (r & e1 & Hc & HI1 & Hs1 & Hn1 & Hi1).
  unfold MatchingEngine.cancelOrder in Hc. injection Hc as _ <-.
  destruct (submit_maker_priced (side (storage_ e !!! o)) p qty ts _ HI1 Hq)
    as (trades & e' & -> & Hmp).
  exists trades, e'. split; [done|]. simpl in *. by rewrite <- Hi1.
Qed.

Definition ops_C1 : list Op :=
  [OpSubmit Buy 10000 50 1; OpSubmit Buy 10000 60 2; OpSubmit Sell 10100 40 3].

Lemma valid_ops_C1 : Forall valid_op ops_C1.
Proof. repeat constructor; unfold i64, u64; lia. Defined.

(** A sell of 70 at 10000 against two bids resting at 10000 (50 and 60):
    the trades are 50 and 20 at 10000; and a modify of the resting sell
    (id 3, at 10100) to 10000 for 70 trades in the same way. *)
Lemma C1_witness :
  let e := state_of ops_C1 in
  Forall valid_op ops_C1 ∧ Z.of_nat (length ops_C1) < 2 ^ 64 - 1 ∧
  run ops_C1 MatchingEngine.new = Some e ∧
  u64 70 ∧
  trades_of (MatchingEngine.submitOrder Sell 10000 70 4 e)
  = [mkTrade 1 4 10000 50; mkTrade 2 4 10000 20] ∧
  OrderBook.getOrder 3 (book_ e) = Some 2%nat ∧
  10000 ≠ price (storage_ e !!! 2%nat) ∧
  (∃ trades e',
     MatchingEngine.submitOrder Sell 10000 70 4 e = Returns trades e' ∧
     maker_priced (storage_ e) (index_ (book_ e)) (nextOrderId_ e) 70
       trades) ∧
  (∃ trades e',
     MatchingEngine.modifyOrder 3 10000 70 4 e = Returns trades e' ∧
     maker_priced (storage_ e) (delete 3 (index_ (book_ e)))
       (nextOrderId_ e) 70 trades).
Proof.
  intros e.
  assert (H1 : Z.of_nat (length ops_C1) < 2 ^ 64 - 1) by (simpl; lia).
  assert (H2 : run ops_C1 MatchingEngine.new = Some e) by (vm_compute; reflexivity).
  assert (H3 : u64 70) by (unfold u64; lia).
  assert (H4 : OrderBook.getOrder 3 (book_ e) = Some 2%nat) by (vm_compute; reflexivity).
  assert (H5 : 10000 ≠ price (storage_ e !!! 2%nat))
    by (vm_compute; discriminate).
  assert (H6 : trades_of (MatchingEngine.submitOrder Sell 10000 70 4 e)
               = [mkTrade 1 4 10000 50; mkTrade 2 4 10000 20])
    by (vm_compute; reflexivity).
  pose proof (C1_trades_at_maker_price_for_min_quantity ops_C1 e Sell 10000 70 4
                valid_ops_C1 H1 H2 H3) as H.
  exact (conj valid_ops_C1 (conj H1 (conj H2 (conj H3 (conj H6 (conj H4
    (conj H5 (conj (proj1 H) (proj2 H 3 2%nat H4 H5))))))))).
Defined.

(** ** C2: level totals and non-empty levels *)

(** The level total is kept in a [uint64_t]: two resting orders of [2^63]
    at one price overflow it, and it reads 0 while the quantities add up
    to [2^64]. *)
Lemma C2_counterexample :
  ∃ e l,
    run [OpSubmit Buy 10000 (2 ^ 63) 1; OpSubmit Buy 10000 (2 ^ 63) 2]
        MatchingEngine.new = Some e ∧
    (10000, l) ∈ bids_ (book_ e) ∧
    totalQty_ l = 0 ∧
    sum_qty (storage_ e) (orders_ l) = 2 ^ 64 ∧
    totalQty_ l ≠ sum_qty (storage_ e) (orders_ l).
Proof.
  eexists _, _. split; [vm_compute; reflexivity|].
  split; [apply list_elem_of_here|]. by vm_compute.
Qed.

(** C2 (amended). In every state the engine reaches, the total of every
    level of the bids and of the asks is the sum of the remaining quantities
    of its orders modulo [2^64], hence that sum itself when it is below
    [2^64]; and no level is empty. *)
Theorem C2_level_total_and_nonempty ops e p l :
  Forall valid_op ops → Z.of_nat (length ops) < 2 ^ 64 - 1 →
  run ops MatchingEngine.new = Some e →
  (p, l) ∈ bids_ (book_ e) ∨ (p, l) ∈ asks_ (book_ e) →
  totalQty_ l = wrap64 (sum_qty (storage_ e) (orders_ l)) ∧
  (sum_qty (storage_ e) (orders_ l) < 2 ^ 64 →
   totalQty_ l = sum_qty (storage_ e) (orders_ l)) ∧
  orders_ l ≠ [].
Proof.
  intros Hv Hw Hrun Hin.
  destruct (reached_Inv ops e Hv Hw Hrun) as [Hb Hnb Hna [_ Hu] _].
  assert (∃ s, (p, l) ∈ side_map s (book_ e)) as [s Hs].
  { destruct Hin; [by exists Buy|by exists Sell]. }
  pose proof (proj1 (book_ok_side s _ _) Hb) as ([Hl _] & _).
  pose proof (proj1 (Forall_forall _ _) Hl _ Hs) as [_ Ht]. simpl in Ht.
  split; [done|]. split.
  - intros Hlt. rewrite Ht. apply wrap64_small. split; [|done].
    clear -Hu. induction (orders_ l) as [|o os IH]; simpl; [done|].
    pose proof (store_u64_total _ o Hu) as [? _]. lia.
  - assert (Hne : nonempty (side_map s (book_ e))) by (by destruct s).
    by apply (proj1 (Forall_forall _ _) Hne _ Hs).
Qed.

Definition ops_demo : list Op :=
  [OpSubmit Buy 10000 50 1; OpSubmit Sell 10100 60 2; OpSubmit Buy 9900 10 3;
   OpModify 1 10000 20 4; OpCancel 3; OpModify 2 10050 30 5;
   OpSubmit Buy 10000 7 6].

Lemma valid_ops_demo : Forall valid_op ops_demo.
Proof. repeat constructor; unfold i64, u64; lia. Defined.

Lemma length_ops_demo : Z.of_nat (length ops_demo) < 2 ^ 64 - 1.
Proof. simpl. lia. Defined.

Lemma run_ops_demo :
  run ops_demo MatchingEngine.new = Some (state_of ops_demo).
Proof. vm_compute. reflexivity. Defined.

Lemma C2_witness :
  let e := state_of ops_demo in
  let l := PriceLevel.mk 10000 [0; 4]%nat 27 in
  Forall valid_op ops_demo ∧ Z.of_nat (length ops_demo) < 2 ^ 64 - 1 ∧
  run ops_demo MatchingEngine.new = Some e ∧
  ((10000, l) ∈ bids_ (book_ e) ∨ (10000, l) ∈ asks_ (book_ e)) ∧
  totalQty_ l = wrap64 (sum_qty (storage_ e) (orders_ l)) ∧
  (sum_qty (storage_ e) (orders_ l) < 2 ^ 64 →
   totalQty_ l = sum_qty (storage_ e) (orders_ l)) ∧
  orders_ l ≠ [].
Proof.
  intros e l.
  assert (H : (10000, l) ∈ bids_ (book_ e) ∨ (10000, l) ∈ asks_ (book_ e))
    by (vm_compute; left; apply list_elem_of_here).
  exact (conj valid_ops_demo (conj length_ops_demo (conj run_ops_demo (conj H
    (C2_level_total_and_nonempty ops_demo e 10000 l valid_ops_demo
       length_ops_demo run_ops_demo H))))).
Defined.

(** ** C3: the book is never crossed or locked *)

(** C3. In every state the engine reaches, the best bid is strictly below
    the best ask when both sides hold orders. *)
Theorem C3_best_bid_below_best_ask ops e bid ask :
  Forall valid_op ops → Z.of_nat (length ops) < 2 ^ 64 - 1 →
  run ops MatchingEngine.new = Some e →
  OrderBook.bestBid (book_ e) = Some bid →
  OrderBook.bestAsk (book_ e) = Some ask →
  bid < ask.
Proof.
  intros Hv Hw Hrun Hbid Hask.
  pose proof (reached_Inv ops e Hv Hw Hrun) as HI.
  apply (bk_cross _ _ (inv_book _ HI)).
  - unfold OrderBook.bestBid in Hbid.
    destruct (bids_ (book_ e)) as [|[k l] m]; [done|].
    injection Hbid as ->. simpl. by left.
  - unfold OrderBook.bestAsk in Hask.
    destruct (asks_ (book_ e)) as [|[k l] m]; [done|].
    injection Hask as ->. simpl. by left.
Qed.

Lemma C3_witness :
  let e := state_of ops_demo in
  Forall valid_op ops_demo ∧ Z.of_nat (length ops_demo) < 2 ^ 64 - 1 ∧
  run ops_demo MatchingEngine.new = Some e ∧
  OrderBook.bestBid (book_ e) = Some 10000 ∧
  OrderBook.bestAsk (book_ e) = Some 10050 ∧
  10000 < 10050.
Proof.
  intros e.
  assert (H1 : OrderBook.bestBid (book_ e) = Some 10000) by (vm_compute; reflexivity).
  assert (H2 : OrderBook.bestAsk (book_ e) = Some 10050) by (vm_compute; reflexivity).
  exact (conj valid_ops_demo (conj length_ops_demo (conj run_ops_demo (conj H1
    (conj H2 (C3_best_bid_below_best_ask ops_demo e 10000 10050
       valid_ops_demo length_ops_demo run_ops_demo H1 H2)))))).
Defined.

(** ** C4: a modify at a new price is a cancel and a resubmit *)

Lemma lastOrderId_after_submit (n : Z) :
  u64 n → wrap64 (wrap64 (n + 1) - 1) = n.
Proof.
  intros Hn. rewrite wrap64_sub_l. replace (n + 1 - 1) with n by lia.
  by apply wrap64_small.
Qed.

(** C4. In every state [e] the engine reaches, for a live id [i] whose
    order has a price other than [newPrice]: [modifyOrder] returns what
    [submitOrder] returns on the engine [e1] left by [cancelOrder i], for
    the side of the order; [lastOrderId] is then an id that no order had
    before, and it is the id of the new order; [i] is no longer live and
    no level holds the pointer to its order any more, neither after the
    cancellation nor after the resubmission; and if the new order keeps a
    remainder it is live under the new id and is the last order of the
    level of [newPrice] on its side. *)
Theorem C4_modify_price_cancels_and_resubmits ops e i o newPrice newQty ts :
  Forall valid_op ops → Z.of_nat (length ops) < 2 ^ 64 - 1 →
  run ops MatchingEngine.new = Some e →
  u64 newQty →
  OrderBook.getOrder i (book_ e) = Some o →
  newPrice ≠ price (storage_ e !!! o) →
  ∃ e1 trades e',
    MatchingEngine.cancelOrder i e = Returns true e1 ∧
    MatchingEngine.submitOrder (side (storage_ e !!! o)) newPrice newQty ts e1
      = Returns trades e' ∧
    MatchingEngine.modifyOrder i newPrice newQty ts e = Returns trades e' ∧
    MatchingEngine.lastOrderId e' = nextOrderId_ e ∧
    Forall (λ x, id x ≠ MatchingEngine.lastOrderId e') (storage_ e) ∧
    OrderBook.hasOrder i (book_ e') = false ∧
    (o ∉ book_ptrs (book_ e1)) ∧
    (o ∉ book_ptrs (book_ e')) ∧
    let raw := length (storage_ e) in
    id (storage_ e' !!! raw) = MatchingEngine.lastOrderId e' ∧
    side (storage_ e' !!! raw) = side (storage_ e !!! o) ∧
    price (storage_ e' !!! raw) = newPrice ∧
    (0 < quantity (storage_ e' !!! raw) →
     OrderBook.getOrder (MatchingEngine.lastOrderId e') (book_ e') = Some raw ∧
     ∃ l, map_find newPrice (side_map (side (storage_ e !!! o)) (book_ e'))
            = Some l ∧
          last (orders_ l) = Some raw).
Proof.
  intros Hv Hw Hrun Hq Hio Hp.
  pose proof (reached_Inv ops e Hv Hw Hrun) as HI.
  unfold OrderBook.getOrder in Hio.
  destruct (cancel_Inv i e HI) as (r & e1 & Hc & HI1 & Hs1 & Hn1 & Hi1).
  assert (Hr : r = true).
  { unfold MatchingEngine.cancelOrder in Hc. injection Hc as <- _.
    unfold OrderBook.cancelOrder. rewrite Hio.
    by destruct (side (storage_ e !!! o)). }
  subst r.
  pose proof HI1 as [Hb1 Hnb1 Hna1 Hst1 Hnx1].
  destruct (submitOrder_spec (side (storage_ e !!! o)) newPrice newQty ts e1)
    as (trades & e' & Hsub & Hpost); try done; [lia|].
  exists e1, trades, e'. split; [done|]. split; [done|].
  split.
  { unfold MatchingEngine.modifyOrder, OrderBook.getOrder. rewrite Hio.
    rewrite decide_False by done.
    unfold MatchingEngine.cancelOrder in Hc. injection Hc as _ <-. done. }
  destruct Hpost as [Sb Snb Sna Snext Slen Sids Su Snew Six Sfl Srest Sgone].
  rewrite Hs1, Hn1 in *.
  assert (Hlast : MatchingEngine.lastOrderId e' = nextOrderId_ e).
  { unfold MatchingEngine.lastOrderId. rewrite Snext.
    apply lastOrderId_after_submit. destruct HI. unfold u64. lia. }
  rewrite Hlast.
  split; [done|]. split.
  { destruct HI as [_ _ _ [Hids _] _].
    eapply Forall_impl; [exact Hids|]. simpl. intros; lia. }
  split.
  { unfold OrderBook.hasOrder. apply bool_decide_eq_false. intros [o' Ho'].
    apply Six in Ho' as [[-> _]|Ho'].
    - pose proof (next_id_fresh _ _ _ (inv_book _ HI)
                    (proj1 (inv_store _ HI))) as Hf.
      by rewrite Hf in Hio.
    - rewrite Hi1, lookup_delete_eq in Ho'. done. }
  destruct (bk_index _ _ (inv_book _ HI) _ _ Hio) as [Hido Hoin].
  pose proof (book_ptrs_valid _ _ _ (inv_book _ HI) Hoin) as Holt.
  split.
  { intros Hin. rewrite <- (ptrs_from_perm Buy) in Hin.
    destruct (book_resting Buy _ _ o Hb1 Hin)
      as (s' & k & _ & _ & (_ & _ & _ & Hix)).
    rewrite Hido, Hi1, lookup_delete_eq in Hix. done. }
  split.
  { intros Hin. rewrite <- (ptrs_from_perm Buy) in Hin.
    destruct (book_resting Buy _ _ o Sb Hin)
      as (s' & k & _ & _ & (_ & _ & _ & Hix)).
    apply Six in Hix as [[_ ->]|Hix]; [lia|].
    rewrite Hi1 in Hix. apply lookup_delete_Some in Hix as [Hne Hix].
    destruct (bk_index _ _ (inv_book _ HI) _ _ Hix) as [Hid' _]. congruence. }
  simpl. destruct Snew as (? & ? & ?). repeat split; try done.
  - by apply Srest.
  - by apply Srest.
Qed.

Definition ops_C4 : list Op :=
  [OpSubmit Sell 10100 100 1; OpSubmit Buy 9900 100 2; OpSubmit Buy 10000 5 3].

Lemma valid_ops_C4 : Forall valid_op ops_C4.
Proof. repeat constructor; unfold i64, u64; lia. Defined.

Lemma C4_witness :
  let e := state_of ops_C4 in
  Forall valid_op ops_C4 ∧ Z.of_nat (length ops_C4) < 2 ^ 64 - 1 ∧
  run ops_C4 MatchingEngine.new = Some e ∧
  u64 30 ∧
  OrderBook.getOrder 2 (book_ e) = Some 1%nat ∧
  10000 ≠ price (storage_ e !!! 1%nat) ∧
  ∃ e1 trades e',
    MatchingEngine.cancelOrder 2 e = Returns true e1 ∧
    MatchingEngine.submitOrder (side (storage_ e !!! 1%nat)) 10000 30 4 e1
      = Returns trades e' ∧
    MatchingEngine.modifyOrder 2 10000 30 4 e = Returns trades e' ∧
    MatchingEngine.lastOrderId e' = nextOrderId_ e ∧
    Forall (λ x, id x ≠ MatchingEngine.lastOrderId e') (storage_ e) ∧
    OrderBook.hasOrder 2 (book_ e') = false ∧
    (1%nat ∉ book_ptrs (book_ e1)) ∧
    (1%nat ∉ book_ptrs (book_ e')) ∧
    let raw := length (storage_ e) in
    id (storage_ e' !!! raw) = MatchingEngine.lastOrderId e' ∧
    side (storage_ e' !!! raw) = side (storage_ e !!! 1%nat) ∧
    price (storage_ e' !!! raw) = 10000 ∧
    (0 < quantity (storage_ e' !!! raw) →
     OrderBook.getOrder (MatchingEngine.lastOrderId e') (book_ e') = Some raw ∧
     ∃ l, map_find 10000 (side_map (side (storage_ e !!! 1%nat)) (book_ e'))
            = Some l ∧
          last (orders_ l) = Some raw).
Proof.
  intros e.
  assert (H1 : Z.of_nat (length ops_C4) < 2 ^ 64 - 1) by (simpl; lia).
  assert (H2 : run ops_C4 MatchingEngine.new = Some e) by (vm_compute; reflexivity).
  assert (H3 : u64 30) by (unfold u64; lia).
  assert (H4 : OrderBook.getOrder 2 (book_ e) = Some 1%nat) by (vm_compute; reflexivity).
  assert (H5 : 10000 ≠ price (storage_ e !!! 1%nat))
    by (vm_compute; discriminate).
  exact (conj valid_ops_C4 (conj H1 (conj H2 (conj H3 (conj H4 (conj H5
    (C4_modify_price_cancels_and_resubmits ops_C4 e 2 1%nat 10000 30 4
       valid_ops_C4 H1 H2 H3 H4 H5))))))).
Defined.

(** ** C5: errors of modifyOrder *)

(** C5. [modifyOrder] on an id that is not in the index throws
    "Order not found: <id>"; on a live order, at its own price and with a
    quantity not below its remaining quantity, it throws the other
    [runtime_error]; the two errors differ, and in both cases the engine the
    caller is left with (book, index, orders, id counter) is the one given. *)
Theorem C5_modify_errors_leave_engine_unchanged e i o newPrice newQty ts :
  (OrderBook.getOrder i (book_ e) = None →
   MatchingEngine.modifyOrder i newPrice newQty ts e
   = Throws (RuntimeError ("Order not found: " +:+ pretty i)) e) ∧
  (OrderBook.getOrder i (book_ e) = Some o →
   newPrice = price (storage_ e !!! o) →
   newQty >= quantity (storage_ e !!! o) →
   MatchingEngine.modifyOrder i newPrice newQty ts e
   = Throws (RuntimeError "Modify can only redice qty at same price") e) ∧
  RuntimeError ("Order not found: " +:+ pretty i)
  ≠ RuntimeError "Modify can only redice qty at same price".
Proof.
  split; [|split].
  - intros Hio. unfold MatchingEngine.modifyOrder. by rewrite Hio.
  - intros Hio -> Hq. unfold MatchingEngine.modifyOrder. rewrite Hio.
    rewrite decide_True by done.
    destruct (newQty >=? quantity (storage_ e !!! o)) eqn:E; [done|].
    rewrite Z.geb_leb in E. apply Z.leb_gt in E. lia.
  - discriminate.
Qed.

Lemma C5_witness :
  let e := state_of ops_C4 in
  MatchingEngine.modifyOrder 7 10000 30 4 e
  = Throws (RuntimeError "Order not found: 7") e ∧
  MatchingEngine.modifyOrder 2 9900 100 4 e
  = Throws (RuntimeError "Modify can only redice qty at same price") e.
Proof.
  intros e. split.
  - apply (C5_modify_errors_leave_engine_unchanged e 7 0%nat 10000 30 4).
    vm_compute. reflexivity.
  - apply (C5_modify_errors_leave_engine_unchanged e 2 1%nat 9900 100 4).
    + vm_compute. reflexivity.
    + vm_compute. reflexivity.
    + vm_compute. discriminate.
Defined.

(** ** C6: cancelling an id that is not resting *)

Lemma engine_eta (e : MatchingEngine.t) :
  MatchingEngine.mk (book_ e) (storage_ e) (nextOrderId_ e) = e.
Proof. by destruct e. Qed.

Lemma cancel_absent i e :
  index_ (book_ e) !! i = None →
  MatchingEngine.cancelOrder i e = Returns false e.
Proof.
  intros Hi. unfold MatchingEngine.cancelOrder, OrderBook.cancelOrder.
  rewrite Hi. simpl. by rewrite engine_eta.
Qed.

(** C6. In every state the engine reaches, cancelling an id that no order
    of any level has returns false and leaves the engine as it is; and after
    a cancel that returned true, a second cancel of the same id returns
    false and changes nothing. *)
Theorem C6_cancel_of_absent_id_is_a_no_op ops e i :
  Forall valid_op ops → Z.of_nat (length ops) < 2 ^ 64 - 1 →
  run ops MatchingEngine.new = Some e →
  ((∀ o, o ∈ book_ptrs (book_ e) → id (storage_ e !!! o) ≠ i) →
   MatchingEngine.cancelOrder i e = Returns false e) ∧
  (∀ e1, MatchingEngine.cancelOrder i e = Returns true e1 →
         MatchingEngine.cancelOrder i e1 = Returns false e1).
Proof.
  intros Hv Hw Hrun. pose proof (reached_Inv ops e Hv Hw Hrun) as HI.
  split.
  - intros Hno. apply cancel_absent.
    destruct (index_ (book_ e) !! i) as [o|] eqn:Hio; [|done].
    destruct (bk_index _ _ (inv_book _ HI) i o Hio) as [Hid Ho].
    by destruct (Hno o Ho).
  - intros e1 Hc. apply cancel_absent.
    destruct (cancel_Inv i e HI) as (r & e1' & Hc' & _ & _ & _ & Hi1).
    rewrite Hc in Hc'. injection Hc' as _ <-.
    rewrite Hi1. apply lookup_delete_eq.
Qed.

Lemma C6_witness :
  let e := state_of ops_demo in
  Forall valid_op ops_demo ∧ Z.of_nat (length ops_demo) < 2 ^ 64 - 1 ∧
  run ops_demo MatchingEngine.new = Some e ∧
  MatchingEngine.cancelOrder 3 e = Returns false e ∧
  (∀ e1, MatchingEngine.cancelOrder 1 e = Returns true e1 →
         MatchingEngine.cancelOrder 1 e1 = Returns false e1).
Proof.
  intros e.
  pose proof (C6_cancel_of_absent_id_is_a_no_op ops_demo e 3 valid_ops_demo
                length_ops_demo run_ops_demo) as [H3 _].
  pose proof (C6_cancel_of_absent_id_is_a_no_op ops_demo e 1 valid_ops_demo
                length_ops_demo run_ops_demo) as [_ H1].
  split; [exact valid_ops_demo|]. split; [exact length_ops_demo|].
  split; [exact run_ops_demo|]. split; [|exact H1].
  apply H3.
  assert (Hp : book_ptrs (book_ e) = [0; 4; 3]%nat)
    by (vm_compute; reflexivity).
  rewrite Hp. intros o Ho.
  repeat (apply elem_of_cons in Ho as [->|Ho]);
    [vm_compute; discriminate..|exfalso; by apply elem_of_nil in Ho].
Defined.

(** ** C7: the spread *)

Definition ops_C7 : list Op :=
  [OpSubmit Buy 9950 10 1; OpSubmit Sell 10050 10 2].

(** With the best bid at 9950 cents and the best ask at 10050 cents,
    [spread] is the double 1.0 (dollars), not the difference 100 in cents. *)
Lemma C7_counterexample :
  let b := book_ (state_of ops_C7) in
  OrderBook.bestBid b = Some 9950 ∧
  OrderBook.bestAsk b = Some 10050 ∧
  OrderBook.spread b = Some 1%float ∧
  OrderBook.spread b ≠ Some (to_double (10050 - 9950)).
Proof.
  intros b. split; [vm_compute; reflexivity|].
  split; [vm_compute; reflexivity|].
  split; [vm_compute; reflexivity|].
  set (below := λ x : option float,
                  match x with Some f => PrimFloat.ltb f 50%float | None => false end).
  assert (H1 : below (OrderBook.spread b) = true)
    by (vm_compute; reflexivity).
  assert (H2 : below (Some (to_double (10050 - 9950))) = false)
    by (vm_compute; reflexivity).
  intros H. rewrite H in H1. congruence.
Qed.

Lemma wrap_i64_small z : - 2 ^ 63 ≤ z < 2 ^ 63 → wrap_i64 z = z.
Proof. intros Hz. unfold wrap_i64. rewrite Z.mod_small; lia. Qed.

(** A gap of [2^63] cents or more between the best prices overflows the
    [int64_t] subtraction: the spread is then negative. *)
Lemma spread_overflow :
  let b := book_ (state_of [OpSubmit Buy (-4611686018427387905) 1 1;
                            OpSubmit Sell 4611686018427387904 1 2]) in
  OrderBook.bestBid b = Some (-4611686018427387905) ∧
  OrderBook.bestAsk b = Some 4611686018427387904 ∧
  match OrderBook.spread b with
  | Some f => PrimFloat.ltb f (-92000000000000000)%float = true
  | None => False
  end.
Proof. vm_compute. repeat split; reflexivity. Qed.

(** C7 (amended). In every state the engine reaches, when both sides hold
    orders the best bid is below the best ask and [spread] is the double
    obtained from the [int64_t] difference best ask minus best bid divided
    by 100.0, that is the difference in dollars; the [int64_t] difference
    is the exact difference whenever that is below [2^63].  When a side is
    empty [spread] is absent. *)
Theorem C7_spread_is_difference_in_dollars ops e :
  Forall valid_op ops → Z.of_nat (length ops) < 2 ^ 64 - 1 →
  run ops MatchingEngine.new = Some e →
  match OrderBook.bestBid (book_ e), OrderBook.bestAsk (book_ e) with
  | Some bid, Some ask =>
      bid < ask ∧
      OrderBook.spread (book_ e)
      = Some (PrimFloat.div (to_double (wrap_i64 (ask - bid))) 100%float) ∧
      (ask - bid < 2 ^ 63 →
       OrderBook.spread (book_ e)
       = Some (PrimFloat.div (to_double (ask - bid)) 100%float))
  | _, _ => OrderBook.spread (book_ e) = None
  end.
Proof.
  intros Hv Hw Hrun. pose proof (reached_Inv ops e Hv Hw Hrun) as HI.
  pose proof (bk_cross _ _ (inv_book _ HI)) as Hcross.
  unfold OrderBook.spread, OrderBook.bestBid, OrderBook.bestAsk.
  destruct (bids_ (book_ e)) as [|[bid lb] bids]; [done|].
  destruct (asks_ (book_ e)) as [|[ask la] asks]; [done|].
  assert (Hlt : bid < ask).
  { apply Hcross; simpl; by left. }
  split; [done|]. split; [done|].
  intros Hsmall. by rewrite wrap_i64_small by lia.
Qed.

Lemma C7_witness :
  let e := state_of ops_C7 in
  let e0 := state_of [OpSubmit Buy 9950 10 1] in
  (Forall valid_op ops_C7 ∧ Z.of_nat (length ops_C7) < 2 ^ 64 - 1 ∧
   run ops_C7 MatchingEngine.new = Some e ∧
   OrderBook.bestBid (book_ e) = Some 9950 ∧
   OrderBook.bestAsk (book_ e) = Some 10050 ∧
   9950 < 10050 ∧
   OrderBook.spread (book_ e)
   = Some (PrimFloat.div (to_double (wrap_i64 (10050 - 9950))) 100%float) ∧
   (10050 - 9950 < 2 ^ 63 →
    OrderBook.spread (book_ e)
    = Some (PrimFloat.div (to_double (10050 - 9950)) 100%float))) ∧
  (OrderBook.bestAsk (book_ e0) = None ∧ OrderBook.spread (book_ e0) = None).
Proof.
  intros e e0.
  assert (Hv : Forall valid_op ops_C7)
    by (repeat constructor; unfold i64, u64; lia).
  assert (Hw : Z.of_nat (length ops_C7) < 2 ^ 64 - 1) by (simpl; lia).
  assert (Hrun : run ops_C7 MatchingEngine.new = Some e)
    by (vm_compute; reflexivity).
  assert (Hb : OrderBook.bestBid (book_ e) = Some 9950)
    by (vm_compute; reflexivity).
  assert (Ha : OrderBook.bestAsk (book_ e) = Some 10050)
    by (vm_compute; reflexivity).
  pose proof (C7_spread_is_difference_in_dollars ops_C7 e Hv Hw Hrun) as H.
  rewrite Hb, Ha in H.
  assert (Hv0 : Forall valid_op [OpSubmit Buy 9950 10 1])
    by (repeat constructor; unfold i64, u64; lia).
  assert (Hw0 : Z.of_nat (length [OpSubmit Buy 9950 10 1]) < 2 ^ 64 - 1)
    by (simpl; lia).
  assert (Hrun0 : run [OpSubmit Buy 9950 10 1] MatchingEngine.new = Some e0)
    by (vm_compute; reflexivity).
  assert (Hb0 : OrderBook.bestBid (book_ e0) = Some 9950)
    by (vm_compute; reflexivity).
  assert (Ha0 : OrderBook.bestAsk (book_ e0) = None)
    by (vm_compute; reflexivity).
  pose proof (C7_spread_is_difference_in_dollars [OpSubmit Buy 9950 10 1] e0
                Hv0 Hw0 Hrun0) as H0.
  rewrite Hb0, Ha0 in H0.
  exact (conj (conj Hv (conj Hw (conj Hrun (conj Hb (conj Ha H)))))
              (conj Ha0 H0)).
Defined.

(** ** C8: submitOrder does not validate its arguments *)

(** A buy at the price -5 is accepted on a new engine: the call returns, the
    order gets id 1 and rests as the best bid. *)
Lemma C8_counterexample :
  ∃ e', MatchingEngine.submitOrder Buy (-5) 10 1 MatchingEngine.new
        = Returns [] e' ∧
        MatchingEngine.lastOrderId e' = 1 ∧
        length (storage_ e') = 1%nat ∧
        OrderBook.hasOrder 1 (book_ e') = true ∧
        OrderBook.bestBid (book_ e') = Some (-5).
Proof. eexists. split; [vm_compute; reflexivity|]. by vm_compute. Qed.

Lemma submit_zero s p ts e :
  MatchingEngine.submitOrder s p 0 ts e
  = Returns [] (MatchingEngine.mk (book_ e)
                  (storage_ e ++ [mkOrder (nextOrderId_ e) s p 0 0 ts])
                  (wrap64 (nextOrderId_ e + 1))).
Proof.
  unfold MatchingEngine.submitOrder, MatchingEngine.match_.
  set (order := mkOrder (nextOrderId_ e) s p 0 0 ts).
  assert (Hraw : (storage_ e ++ [order]) !!! length (storage_ e) = order)
    by apply list_lookup_total_middle, eq_refl.
  rewrite walk_S. simpl. rewrite !Hraw. simpl.
  destruct (side_map (opposite s) (book_ e)) as [|[k l] m]; simpl;
    by rewrite Hraw.
Qed.

(** C8 (amended). In every state the engine reaches, [submitOrder] with any
    price, positive or not, and any quantity, zero included, returns a list
    of trades and never throws; it takes the next id and allocates one
    order.  With quantity zero it makes no trade and leaves the book as it
    is. *)
Theorem C8_submit_accepts_every_argument ops e s p qty ts :
  Forall valid_op ops → Z.of_nat (length ops) < 2 ^ 64 - 1 →
  run ops MatchingEngine.new = Some e →
  u64 qty →
  ∃ trades e',
    MatchingEngine.submitOrder s p qty ts e = Returns trades e' ∧
    MatchingEngine.lastOrderId e' = nextOrderId_ e ∧
    length (storage_ e') = S (length (storage_ e)) ∧
    id (storage_ e' !!! length (storage_ e)) = nextOrderId_ e ∧
    (qty = 0 → trades = [] ∧ book_ e' = book_ e).
Proof.
  intros Hv Hw Hrun Hq.
  pose proof (reached_Inv ops e Hv Hw Hrun) as [Hb Hnb Hna Hst Hn].
  destruct (submitOrder_spec s p qty ts e) as (trades & e' & Hs & Hpost);
    try done; [lia|].
  exists trades, e'. split; [done|].
  split; [|split; [|split]].
  - unfold MatchingEngine.lastOrderId. rewrite (sp_next _ _ _ _ _ _ Hpost).
    apply lastOrderId_after_submit. unfold u64. lia.
  - apply (sp_len _ _ _ _ _ _ Hpost).
  - apply (sp_new _ _ _ _ _ _ Hpost).
  - intros Hz. subst qty. rewrite submit_zero in Hs.
    injection Hs as <- <-. done.
Qed.

Lemma C8_witness :
  let e := state_of ops_demo in
  Forall valid_op ops_demo ∧ Z.of_nat (length ops_demo) < 2 ^ 64 - 1 ∧
  run ops_demo MatchingEngine.new = Some e ∧
  u64 0 ∧
  ∃ trades e',
    MatchingEngine.submitOrder Sell (-3) 0 9 e = Returns trades e' ∧
    MatchingEngine.lastOrderId e' = nextOrderId_ e ∧
    length (storage_ e') = S (length (storage_ e)) ∧
    id (storage_ e' !!! length (storage_ e)) = nextOrderId_ e ∧
    (0 = 0 → trades = [] ∧ book_ e' = book_ e).
Proof.
  intros e.
  assert (H : u64 0) by (unfold u64; lia).
  exact (conj valid_ops_demo (conj length_ops_demo (conj run_ops_demo (conj H
    (C8_submit_accepts_every_argument ops_demo e Sell (-3) 0 9
       valid_ops_demo length_ops_demo run_ops_demo H))))).
Defined.

(** ** C9: PriceLevel::reduceTop *)

(** C9. On a level that holds one order of quantity 10, [reduceTop 3]
    changes neither the order nor the total; on an empty level it takes the
    front of an empty deque. *)
Theorem C9_reduceTop_guard_is_inverted :
  let h := [mkOrder 1 Buy 10000 10 10 0] in
  let l := PriceLevel.mk 10000 [0%nat] 10 in
  PriceLevel.reduceTop 3 h l = Some (h, l) ∧
  PriceLevel.reduceTop 3 h (PriceLevel.new 10000) = None.
Proof. split; reflexivity. Qed.

(** ** C10: the id before the first order *)

(** C10. On a new engine [lastOrderId] is 0 and the first order submitted
    gets id 1; in every state the engine reaches no order ever allocated has
    id 0 and id 0 is not live. *)
Theorem C10_last_order_id_starts_at_zero ops e s p qty ts :
  Forall valid_op ops → Z.of_nat (length ops) < 2 ^ 64 - 1 →
  run ops MatchingEngine.new = Some e →
  u64 qty →
  MatchingEngine.lastOrderId MatchingEngine.new = 0 ∧
  (∃ trades e1,
     MatchingEngine.submitOrder s p qty ts MatchingEngine.new
     = Returns trades e1 ∧
     MatchingEngine.lastOrderId e1 = 1 ∧ id (storage_ e1 !!! 0%nat) = 1) ∧
  Forall (λ o, id o ≠ 0) (storage_ e) ∧
  OrderBook.hasOrder 0 (book_ e) = false.
Proof.
  intros Hv Hw Hrun Hq. split; [reflexivity|]. split.
  - destruct Inv_new as [Hb Hnb Hna Hst Hn].
    destruct (submitOrder_spec s p qty ts MatchingEngine.new)
      as (trades & e1 & Hs & Hpost); try done.
    exists trades, e1. split; [done|]. split.
    + unfold MatchingEngine.lastOrderId.
      by rewrite (sp_next _ _ _ _ _ _ Hpost).
    + apply (sp_new _ _ _ _ _ _ Hpost).
  - pose proof (reached_Inv ops e Hv Hw Hrun) as [Hb _ _ [Hids _] _].
    split.
    + eapply Forall_impl; [exact Hids|]. simpl. intros; lia.
    + unfold OrderBook.hasOrder. apply bool_decide_eq_false. intros [o Ho].
      destruct (bk_index _ _ Hb 0 o Ho) as [Hid Hin].
      apply (book_ptrs_valid _ _ _ Hb) in Hin.
      pose proof (proj1 (Forall_total _ _) Hids o Hin). simpl in *. lia.
Qed.

Lemma C10_witness :
  let e := state_of ops_demo in
  Forall valid_op ops_demo ∧ Z.of_nat (length ops_demo) < 2 ^ 64 - 1 ∧
  run ops_demo MatchingEngine.new = Some e ∧
  u64 25 ∧
  MatchingEngine.lastOrderId MatchingEngine.new = 0 ∧
  (∃ trades e1,
     MatchingEngine.submitOrder Buy 10000 25 1 MatchingEngine.new
     = Returns trades e1 ∧
     MatchingEngine.lastOrderId e1 = 1 ∧ id (storage_ e1 !!! 0%nat) = 1) ∧
  Forall (λ o, id o ≠ 0) (storage_ e) ∧
  OrderBook.hasOrder 0 (book_ e) = false.
Proof.
  intros e.
  assert (H : u64 25) by (unfold u64; lia).
  exact (conj valid_ops_demo (conj length_ops_demo (conj run_ops_demo (conj H
    (C10_last_order_id_starts_at_zero ops_demo e Buy 10000 25 1
       valid_ops_demo length_ops_demo run_ops_demo H))))).
Defined.

(** * Further properties of the engine *)

(** ** What the matching loops do, order by order *)

Definition ids (h : list Order) (os : list nat) : list OrderId :=
  (λ o, id (h !!! o)) <$> os.

(** The trade [fillLevel] writes for the maker behind pointer [o]. *)
Definition trade_with (h : list Order) (t o : nat) (tr : Trade) : Prop :=
  makerOrderId tr = id (h !!! o) ∧ takerOrderId tr = id (h !!! t) ∧
  trade_price tr = price (h !!! o).

(** Only [quantity] is ever written: the other fields of an order are
    those it was created with. *)
Definition frozen (h h' : list Order) : Prop :=
  length h' = length h ∧
  ∀ o, set_quantity 0 (h' !!! o) = set_quantity 0 (h !!! o).

Lemma frozen_refl h : frozen h h.
Proof. by split. Qed.

Lemma frozen_trans h1 h2 h3 : frozen h1 h2 → frozen h2 h3 → frozen h1 h3.
Proof.
  intros [Hl1 H1] [Hl2 H2]. split; [congruence|].
  intros o. by rewrite H2, H1.
Qed.

Lemma store_quantity_frozen p q h : frozen h (store_quantity p q h).
Proof.
  split; [apply store_quantity_length|].
  intros o. unfold store_quantity. rewrite list_lookup_total_alter.
  case_decide as Hd; [|done]. by destruct Hd as [-> _].
Qed.

Lemma Forall2_impl_elem {A B} (P Q : A → B → Prop) l k :
  Forall2 P l k → (∀ x y, x ∈ l → P x y → Q x y) → Forall2 Q l k.
Proof.
  induction 1 as [|x y l k HP HF IH]; intros HQ; constructor.
  - apply HQ; [by left|done].
  - apply IH. intros x' y' ? ?. apply HQ; [by right|done].
Qed.

Lemma ids_static h h' os : same_static h h' → ids h' os = ids h os.
Proof. intros [_ Hs]. apply list_fmap_ext. intros ? o _. apply Hs. Qed.

Lemma trade_with_static h h' t os new :
  same_static h h' →
  Forall2 (trade_with h' t) os new → Forall2 (trade_with h t) os new.
Proof.
  intros [_ Hs] H. eapply Forall2_impl; [exact H|].
  intros o tr (H1 & H2 & H3).
  destruct (Hs o) as (E1 & _ & E3), (Hs t) as (E4 & _).
  unfold trade_with. by rewrite <- E1, <- E3, <- E4.
Qed.

(** [fillLevel] pops the orders [popped] off the front of the level, one
    trade each, and may end with one more trade against the order [part]
    that is then at the front, when the taker runs out first. *)
Record fill_trace (t : nat) (st f : MatchingEngine.FillState)
    (popped part : list nat) (new : list Trade) : Prop := {
  ft_orders : orders_ (f_level st) = popped ++ orders_ (f_level f);
  ft_part : part = [] ∨
            part = take 1 (orders_ (f_level f)) ∧ quantity (f_store f !!! t) = 0;
  ft_exit : quantity (f_store f !!! t) = 0 ∨ orders_ (f_level f) = [];
  ft_trades : f_trades f = f_trades st ++ new;
  ft_makers : Forall2 (trade_with (f_store st) t) (popped ++ part) new;
  ft_static : same_static (f_store st) (f_store f);
  ft_frozen : frozen (f_store st) (f_store f);
  ft_qty : Forall2 (λ o tr, quantity (f_store f !!! o)
                            = quantity (f_store st !!! o) - trade_quantity tr)
             (popped ++ part) new;
  ft_pos : Forall2 (λ o tr, 0 < quantity (f_store st !!! o) →
                            0 < trade_quantity tr) (popped ++ part) new;
  ft_zero : Forall (λ o, quantity (f_store f !!! o) = 0) popped;
  ft_live : Forall (λ o, quantity (f_store f !!! o) ≠ 0) part;
  ft_frame : ∀ o, o ≠ t → o ∉ popped ++ part →
               f_store f !!! o = f_store st !!! o;
  ft_taker : quantity (f_store f !!! t)
             = quantity (f_store st !!! t) - filled new;
  ft_u64 : Forall (λ o, u64 (quantity o)) (f_store f);
  ft_index : ∀ i, f_index f !! i =
               if decide (i ∈ ids (f_store st) popped) then None
               else f_index st !! i
}.

Lemma fillLevel_trace fuel t : ∀ st f,
  (t < length (f_store st))%nat →
  Forall (λ o, (o < length (f_store st))%nat) (orders_ (f_level st)) →
  t ∉ orders_ (f_level st) →
  NoDup (orders_ (f_level st)) →
  Forall (λ o, u64 (quantity o)) (f_store st) →
  MatchingEngine.fillLevel fuel t st = Some f →
  ∃ popped part new, fill_trace t st f popped part new.
Proof.
  induction fuel as [|fuel IH]; intros st f Ht Hval Hnot Hnd Hu Hrun; [done|].
  destruct st as [h [lp os tot] idx tr]. simpl in Ht, Hval, Hnot, Hnd, Hu.
  assert (Htq := store_u64_total h t Hu). unfold u64 in Htq.
  assert (Hidle : f = MatchingEngine.mkFill h (PriceLevel.mk lp os tot) idx tr →
            quantity (h !!! t) = 0 ∨ os = [] →
            ∃ popped part new,
              fill_trace t (MatchingEngine.mkFill h (PriceLevel.mk lp os tot)
                              idx tr) f popped part new).
  { intros -> Hex. exists [], [], [].
    split; simpl; rewrite ?app_nil_r, ?Z.sub_0_r; try done;
      by auto using same_static_refl, frozen_refl. }
  rewrite fillLevel_S in Hrun. simpl in Hrun.
  destruct (0 <? quantity (h !!! t)) eqn:Eq; simpl in Hrun.
  2:{ injection Hrun as <-. apply Hidle; [done|].
      apply Z.ltb_ge in Eq. left. lia. }
  apply Z.ltb_lt in Eq.
  destruct os as [|m os]; simpl in Hrun.
  { injection Hrun as <-. apply Hidle; [done|]. by right. }
  clear Hidle.
  assert (Hmq := store_u64_total h m Hu). unfold u64 in Hmq.
  apply Forall_cons in Hval as [Hml Hval].
  apply not_elem_of_cons in Hnot as [Htm Hnot].
  apply NoDup_cons in Hnd as [Hmos Hnd].
  set (fillQty := Z.min (quantity (h !!! t)) (quantity (h !!! m))) in *.
  set (h1 := store_quantity t (wrap64 (quantity (h !!! t) - fillQty)) h) in *.
  set (h2 := store_quantity m (wrap64 (quantity (h1 !!! m) - fillQty)) h1) in *.
  set (trade := mkTrade (id (h !!! m)) (id (h !!! t)) (price (h !!! m)) fillQty)
    in *.
  assert (Hh1m : h1 !!! m = h !!! m) by (by apply store_quantity_ne).
  assert (Hq2m : quantity (h2 !!! m) = quantity (h !!! m) - fillQty).
  { unfold h2. rewrite store_quantity_eq
      by (unfold h1; rewrite store_quantity_length; lia).
    simpl. rewrite Hh1m. apply wrap64_small. unfold u64. lia. }
  assert (Hq2t : quantity (h2 !!! t) = quantity (h !!! t) - fillQty).
  { unfold h2. rewrite store_quantity_ne by done. unfold h1.
    rewrite store_quantity_eq by done. simpl.
    apply wrap64_small. unfold u64. lia. }
  assert (Hst2 : same_static h h2).
  { eapply same_static_trans; apply store_quantity_static. }
  assert (Hfr2 : frozen h h2).
  { eapply frozen_trans; apply store_quantity_frozen. }
  assert (Hoth : ∀ o, o ≠ t → o ≠ m → h2 !!! o = h !!! o).
  { intros o ? ?. unfold h2, h1. by rewrite !store_quantity_ne. }
  assert (Hu2 : Forall (λ o, u64 (quantity o)) h2).
  { apply store_quantity_u64; [apply wrap64_u64|].
    apply store_quantity_u64; [apply wrap64_u64|done]. }
  assert (Hlen2 : length h2 = length h) by apply Hst2.
  assert (Htw : trade_with h t m trade) by done.
  destruct (quantity (h2 !!! m) =? 0) eqn:Ez.
  - (* the maker is filled and popped *)
    apply Z.eqb_eq in Ez.
    apply IH in Hrun as (popped & part & new & Hft); simpl; try done.
    2:{ by rewrite Hlen2. }
    2:{ eapply Forall_impl; [exact Hval|]. simpl. intros. by rewrite Hlen2. }
    destruct Hft as [Ho Hp Hex Htr Hmk Hs Hfr Hqy Hps Hzr Hlv Hfm Htk Hu' Hi].
    simpl in *.
    assert (Hsub : ∀ o, o ∈ popped ++ part → o ∈ os).
    { intros o Hoin. rewrite Ho.
      apply elem_of_app in Hoin as [?|Hoin]; [set_solver|].
      destruct Hp as [->|[-> _]]; [by apply elem_of_nil in Hoin|].
      apply elem_of_app. right. by apply (subseteq_take 1). }
    assert (Hfm' : f_store f !!! m = h2 !!! m).
    { apply Hfm; [done|]. intros Hin. by apply Hsub in Hin. }
    exists (m :: popped), part, (trade :: new). split; simpl.
    + by rewrite Ho.
    + done.
    + done.
    + by rewrite Htr, <- app_assoc.
    + apply Forall2_cons. split; [done|]. by eapply trade_with_static.
    + by eapply same_static_trans.
    + by eapply frozen_trans.
    + apply Forall2_cons. split; [by rewrite Hfm', Hq2m|].
      eapply Forall2_impl_elem; [exact Hqy|]. simpl.
      intros o tr' Hoin ->. apply Hsub in Hoin.
      rewrite Hoth; [done|set_solver..].
    + apply Forall2_cons. split; [simpl; lia|].
      eapply Forall2_impl_elem; [exact Hps|]. simpl.
      intros o tr' Hoin Himp Hpos. apply Himp. apply Hsub in Hoin.
      rewrite Hoth; [done|set_solver..].
    + apply Forall_cons. split; [by rewrite Hfm'|done].
    + done.
    + intros o Hot Hoin. apply not_elem_of_cons in Hoin as [Hom Hoin].
      rewrite Hfm by done. by apply Hoth.
    + rewrite Htk, Hq2t. lia.
    + done.
    + intros i. rewrite Hi, (ids_static h h2) by done.
      replace (id (h2 !!! m)) with (id (h !!! m)) by (symmetry; apply Hst2).
      unfold ids. simpl. repeat case_decide; try done.
      * set_solver.
      * apply lookup_delete_None. left. set_solver.
      * apply lookup_delete_ne. set_solver.
  - (* the taker is exhausted *)
    apply Z.eqb_neq in Ez.
    assert (Hz : quantity (h2 !!! t) = 0) by lia.
    destruct fuel as [|fuel]; [done|].
    rewrite fillLevel_done in Hrun by done. injection Hrun as <-.
    exists [], [m], [trade]. split; simpl; try done.
    + by right.
    + by left.
    + by apply Forall2_cons.
    + by apply Forall2_cons.
    + apply Forall2_cons. split; [simpl; lia|done].
    + by apply Forall_singleton.
    + intros o Hot Hoin. apply Hoth; [done|set_solver].
    + rewrite Hq2t. lia.
Qed.

(** [match] meets the orders of the side it walks in the order the book
    lists them: all those it fills ([removed]) and at most one more
    ([part]), which it leaves at the front with a remainder. *)
Record walk_trace (opp : Side) (t : nat) (st m : MatchingEngine.MatchState)
    (removed part : list nat) (new : list Trade) : Prop := {
  wt_split : ptrs_of (side_map opp (m_book st))
             = removed ++ ptrs_of (side_map opp (m_book m));
  wt_same : side_map (opposite opp) (m_book m)
            = side_map (opposite opp) (m_book st);
  wt_levels : ∀ k l', (k, l') ∈ side_map opp (m_book m) →
                ∃ l pre, (k, l) ∈ side_map opp (m_book st) ∧
                         orders_ l = pre ++ orders_ l';
  wt_part : part = [] ∨
            part = take 1 (ptrs_of (side_map opp (m_book m))) ∧
            quantity (m_store m !!! t) = 0;
  wt_trades : m_trades m = m_trades st ++ new;
  wt_makers : Forall2 (trade_with (m_store st) t) (removed ++ part) new;
  wt_cross : Forall (λ o, ∃ k l, (k, l) ∈ side_map opp (m_book st) ∧
                          o ∈ orders_ l ∧
                          MatchingEngine.leaves opp k
                            (price (m_store st !!! t)) = false)
               (removed ++ part);
  wt_static : same_static (m_store st) (m_store m);
  wt_frozen : frozen (m_store st) (m_store m);
  wt_qty : Forall2 (λ o tr, quantity (m_store m !!! o)
                            = quantity (m_store st !!! o) - trade_quantity tr)
             (removed ++ part) new;
  wt_pos : Forall2 (λ o tr, 0 < quantity (m_store st !!! o) →
                            0 < trade_quantity tr) (removed ++ part) new;
  wt_zero : Forall (λ o, quantity (m_store m !!! o) = 0) removed;
  wt_live : Forall (λ o, quantity (m_store m !!! o) ≠ 0) part;
  wt_frame : ∀ o, o ≠ t → o ∉ removed ++ part →
               m_store m !!! o = m_store st !!! o;
  wt_taker : quantity (m_store m !!! t)
             = quantity (m_store st !!! t) - filled new;
  wt_u64 : Forall (λ o, u64 (quantity o)) (m_store m);
  wt_index : ∀ i, index_ (m_book m) !! i =
               if decide (i ∈ ids (m_store st) removed) then None
               else index_ (m_book st) !! i
}.

Lemma walk_trace_refl opp t st :
  Forall (λ o, u64 (quantity o)) (m_store st) →
  walk_trace opp t st st [] [] [].
Proof.
  intros Hu. split; simpl; rewrite ?app_nil_r, ?Z.sub_0_r; try done;
    try by auto using same_static_refl, frozen_refl.
  intros k l' Hin. by exists l', [].
Qed.

Lemma walk_done fuel opp t st :
  quantity (m_store st !!! t) = 0 →
  MatchingEngine.walk (S fuel) opp t st = Some st.
Proof.
  intros Hz. rewrite walk_S.
  destruct (side_map opp (m_book st)) as [|[p l] rest]; [done|].
  by rewrite Hz.
Qed.

Lemma filled_app l1 l2 : filled (l1 ++ l2) = filled l1 + filled l2.
Proof. induction l1 as [|t l1 IH]; simpl; [done|]. rewrite IH. lia. Qed.

Lemma walk_trace_spec fuel opp t : ∀ st m,
  (t < length (m_store st))%nat →
  Forall (λ o, (o < length (m_store st))%nat)
    (ptrs_of (side_map opp (m_book st))) →
  t ∉ ptrs_of (side_map opp (m_book st)) →
  NoDup (ptrs_of (side_map opp (m_book st))) →
  Forall (λ o, u64 (quantity o)) (m_store st) →
  MatchingEngine.walk fuel opp t st = Some m →
  ∃ removed part new, walk_trace opp t st m removed part new.
Proof.
  induction fuel as [|fuel IH]; intros st m Ht Hval Hnot Hnd Hu Hrun; [done|].
  destruct st as [h b tr]. simpl in Ht, Hval, Hnot, Hnd, Hu.
  rewrite walk_S in Hrun. simpl in Hrun.
  destruct (side_map opp b) as [|[p l] rest] eqn:Hm.
  { injection Hrun as <-. exists [], [], []. by apply walk_trace_refl. }
  destruct (0 <? quantity (h !!! t)) eqn:Eq.
  2:{ injection Hrun as <-. exists [], [], []. by apply walk_trace_refl. }
  destruct (MatchingEngine.leaves opp p (price (h !!! t))) eqn:El.
  { injection Hrun as <-. exists [], [], []. by apply walk_trace_refl. }
  rewrite ptrs_of_cons in Hval, Hnot, Hnd.
  apply Forall_app in Hval as [Hvl Hvr].
  apply NoDup_app in Hnd as (Hndl & Hdisj & Hndr).
  destruct (MatchingEngine.fillLevel (S (length (orders_ l))) t
              (MatchingEngine.mkFill h l (index_ b) tr)) as [f|] eqn:Hfill;
    [|done].
  apply fillLevel_trace in Hfill as (popped & part & new1 & Hft); simpl;
    try done; [|set_solver].
  destruct Hft as [Ho Hp Hex Htr Hmk Hs Hfr Hqy Hps Hzr Hlv Hfm Htk Hu1 Hi].
  simpl in *.
  assert (Hlen1 : length (f_store f) = length h) by apply Hs.
  assert (Hsub1 : ∀ o, o ∈ popped ++ part → o ∈ orders_ l).
  { intros o Hoin. rewrite Ho.
    apply elem_of_app in Hoin as [?|Hoin]; [set_solver|].
    destruct Hp as [->|[-> _]]; [by apply elem_of_nil in Hoin|].
    apply elem_of_app. right. by apply (subseteq_take 1). }
  assert (Hcross1 : Forall (λ o, ∃ k l0, (k, l0) ∈ (p, l) :: rest ∧
             o ∈ orders_ l0 ∧
             MatchingEngine.leaves opp k (price (h !!! t)) = false)
            (popped ++ part)).
  { apply Forall_forall. intros o Hoin. exists p, l.
    split; [by left|]. split; [|done]. by apply Hsub1. }
  destruct (orders_ (f_level f)) as [|o1 os1] eqn:Eo.
  - (* the level is used up *)
    unfold PriceLevel.empty in Hrun. rewrite Eo in Hrun.
    rewrite cleanLevel_head in Hrun by done.
    assert (Hpart : part = []) by (by destruct Hp as [->|[-> _]]).
    subst part. rewrite app_nil_r in *. subst popped.
    apply IH in Hrun as (removed & part & new2 & Hwt); simpl;
      rewrite ?side_map_with; try done.
    2:{ by rewrite Hlen1. }
    2:{ eapply Forall_impl; [exact Hvr|]. simpl. intros. by rewrite Hlen1. }
    2:{ set_solver. }
    destruct Hwt as [Ws Wsm Wlev Wp Wtr Wmk Wc Wst Wfr Wqy Wps Wzr Wlv Wfm Wtk
                     Wu Wi].
    simpl in *.
    rewrite side_map_with, ?side_map_with_opp, ?index_with in *.
    assert (Hsub2 : ∀ o, o ∈ removed ++ part → o ∈ ptrs_of rest).
    { intros o Hoin. rewrite Ws.
      apply elem_of_app in Hoin as [?|Hoin]; [set_solver|].
      destruct Wp as [->|[-> _]]; [by apply elem_of_nil in Hoin|].
      apply elem_of_app. right. by apply (subseteq_take 1). }
    assert (Hkeep : ∀ o, o ∈ orders_ l → m_store m !!! o = f_store f !!! o).
    { intros o Hoin. apply Wfm; [set_solver|].
      intros Hin. apply Hsub2 in Hin. by apply (Hdisj o). }
    exists (orders_ l ++ removed), part, (new1 ++ new2).
    split; simpl; rewrite ?Hm, ?ptrs_of_cons.
    + by rewrite Ws, app_assoc.
    + done.
    + intros k l' Hin. destruct (Wlev k l' Hin) as (l0 & pre & Hl0 & Hpre).
      exists l0, pre. split; [by right|done].
    + done.
    + by rewrite Wtr, Htr, app_assoc.
    + rewrite <- app_assoc. apply Forall2_app; [done|].
      by eapply trade_with_static.
    + rewrite <- app_assoc. apply Forall_app. split; [done|].
      eapply Forall_impl; [exact Wc|]. simpl.
      intros o (k & l0 & ? & ? & Hlk). exists k, l0.
      split; [by right|]. split; [done|].
      destruct Hs as [_ Hs]. destruct (Hs t) as (_ & _ & <-). done.
    + by eapply same_static_trans.
    + by eapply frozen_trans.
    + rewrite <- app_assoc. apply Forall2_app.
      * eapply Forall2_impl_elem; [exact Hqy|]. simpl.
        intros o tr' Hoin <-. by rewrite Hkeep.
      * eapply Forall2_impl_elem; [exact Wqy|]. simpl.
        intros o tr' Hoin ->. apply Hsub2 in Hoin.
        rewrite Hfm; [done|set_solver|].
        intros Hin. by apply (Hdisj o).
    + rewrite <- app_assoc. apply Forall2_app; [done|].
      eapply Forall2_impl_elem; [exact Wps|]. simpl.
      intros o tr' Hoin Himp Hpos. apply Himp. apply Hsub2 in Hoin.
      rewrite Hfm; [done|set_solver|].
      intros Hin. by apply (Hdisj o).
    + apply Forall_app. split; [|done].
      apply Forall_forall. intros o Hoin. rewrite Hkeep by done.
      by apply (proj1 (Forall_forall _ _) Hzr).
    + done.
    + intros o Hot Hoin. rewrite <- app_assoc in Hoin.
      apply not_elem_of_app in Hoin as [Hol Hor].
      rewrite Wfm by done. by apply Hfm.
    + rewrite Wtk, Htk, filled_app. lia.
    + done.
    + intros i. rewrite Wi, Hi, (ids_static h (f_store f)) by done.
      unfold ids. rewrite fmap_app.
      repeat case_decide; try done; set_solver.
  - (* orders remain: the taker is exhausted *)
    destruct Hex as [Hz|?]; [|done].
    unfold PriceLevel.empty in Hrun. rewrite Eo in Hrun.
    destruct fuel as [|fuel]; [done|].
    rewrite walk_done in Hrun by done. injection Hrun as <-.
    exists popped, part, new1.
    split; simpl;
      rewrite ?side_map_with, ?side_map_with_opp, ?index_with, ?Hm,
        ?ptrs_of_cons; try done.
    + by rewrite Ho, Eo, app_assoc.
    + intros k l' Hin. apply elem_of_cons in Hin as [[= -> ->]|Hin].
      * exists l, popped. split; [by left|]. by rewrite Ho, Eo.
      * exists l', []. split; [by right|done].
    + destruct Hp as [->|[-> _]]; [by left|right]. by rewrite Eo.
Qed.

Lemma order_eq_quantity (a b : Order) :
  set_quantity 0 a = set_quantity 0 b → quantity a = quantity b → a = b.
Proof. destruct a, b. unfold set_quantity. simpl. congruence. Qed.

(** The trace of [submitOrder], in terms of the engine before and after:
    [removed] are the resting orders filled in full, [part] the one (if any)
    filled in part, [length (storage_ e)] is the pointer to the new order. *)
Record submit_trace (s : Side) (p : Price) (qty : Quantity) (ts : Timestamp)
    (e : MatchingEngine.t) (trades : list Trade) (e' : MatchingEngine.t)
    (removed part : list nat) : Prop := {
  st_split : ptrs_of (side_map (opposite s) (book_ e))
             = removed ++ ptrs_of (side_map (opposite s) (book_ e'));
  st_own : side_map s (book_ e') =
           if 0 <? qty - filled trades
           then OrderBook.add_in (side_comp s) (storage_ e')
                  (length (storage_ e)) p (side_map s (book_ e))
           else side_map s (book_ e);
  st_levels : ∀ k l', (k, l') ∈ side_map (opposite s) (book_ e') →
                ∃ l pre, (k, l) ∈ side_map (opposite s) (book_ e) ∧
                         orders_ l = pre ++ orders_ l';
  st_part : part = [] ∨
            part = take 1 (ptrs_of (side_map (opposite s) (book_ e'))) ∧
            filled trades = qty;
  st_makers : Forall2 (λ o tr, makerOrderId tr = id (storage_ e !!! o) ∧
                               takerOrderId tr = nextOrderId_ e ∧
                               trade_price tr = price (storage_ e !!! o))
                (removed ++ part) trades;
  st_cross : Forall (λ o, ∃ k l, (k, l) ∈ side_map (opposite s) (book_ e) ∧
                          o ∈ orders_ l ∧
                          MatchingEngine.leaves (opposite s) k p = false)
               (removed ++ part);
  st_qty : Forall2 (λ o tr, quantity (storage_ e' !!! o)
                            = quantity (storage_ e !!! o) - trade_quantity tr)
             (removed ++ part) trades;
  st_pos : Forall2 (λ o tr, 0 < quantity (storage_ e !!! o) →
                            0 < trade_quantity tr) (removed ++ part) trades;
  st_zero : Forall (λ o, quantity (storage_ e' !!! o) = 0) removed;
  st_live : Forall (λ o, quantity (storage_ e' !!! o) ≠ 0) part;
  st_frame : ∀ o, (o < length (storage_ e))%nat → o ∉ removed ++ part →
               storage_ e' !!! o = storage_ e !!! o;
  st_frozen : frozen (storage_ e) (take (length (storage_ e)) (storage_ e'));
  st_new : storage_ e' !! length (storage_ e) =
           Some (mkOrder (nextOrderId_ e) s p (qty - filled trades) qty ts);
  st_len : length (storage_ e') = S (length (storage_ e));
  st_next : nextOrderId_ e' = wrap64 (nextOrderId_ e + 1);
  st_index : ∀ i, index_ (book_ e') !! i =
               if decide (i = nextOrderId_ e)
               then (if 0 <? qty - filled trades
                     then Some (length (storage_ e)) else None)
               else if decide (i ∈ ids (storage_ e) removed) then None
               else index_ (book_ e) !! i
}.

Lemma submitOrder_trace s p qty ts e trades e' :
  Inv e → u64 qty →
  MatchingEngine.submitOrder s p qty ts e = Returns trades e' →
  ∃ removed part, submit_trace s p qty ts e trades e' removed part.
Proof.
  intros [Hb Hnb Hna [Hids Hu] Hn] Hq.
  unfold MatchingEngine.submitOrder, MatchingEngine.match_.
  set (order := mkOrder (nextOrderId_ e) s p qty qty ts).
  set (raw := length (storage_ e)).
  set (h := storage_ e ++ [order]).
  assert (Hraw : h !!! raw = order) by apply list_lookup_total_middle, eq_refl.
  rewrite Hraw. simpl.
  destruct (MatchingEngine.walk _ _ _ _) as [m|] eqn:Hwalk; [|done].
  assert (Hvalid : ∀ o, o ∈ ptrs_of (side_map (opposite s) (book_ e)) →
            (o < length (storage_ e))%nat).
  { intros o Ho. apply (book_ptrs_valid _ (book_ e)); [done|].
    rewrite <- (ptrs_from_perm (opposite s)). apply elem_of_app. by left. }
  assert (Hold : ∀ o, (o < length (storage_ e))%nat → h !!! o = storage_ e !!! o).
  { intros o Ho. by apply lookup_total_app_l. }
  assert (Hlenh : length h = S (length (storage_ e))).
  { unfold h. rewrite length_app. simpl. lia. }
  apply walk_trace_spec in Hwalk as (removed & part & new & Hwt); simpl.
  2:{ rewrite Hlenh. unfold raw. lia. }
  2:{ apply Forall_forall. intros o Ho. apply Hvalid in Ho. lia. }
  2:{ intros Ho. apply Hvalid in Ho. unfold raw in Ho. lia. }
  2:{ pose proof (bk_nodup _ _ Hb) as Hnd.
      rewrite <- (ptrs_from_perm (opposite s)) in Hnd.
      by apply NoDup_app in Hnd as (? & _). }
  2:{ apply Forall_app. split; [done|]. by apply Forall_singleton. }
  destruct Hwt as [Ws Wsm Wlev Wp Wtr Wmk Wc Wst Wfr Wqy Wps Wzr Wlv Wfm Wtk
                   Wu Wi].
  simpl in *. rewrite opposite_involutive in Wsm.
  rewrite Hraw in *. simpl in *.
  destruct Wst as [Wlen Wst]. destruct (Wst raw) as (Hid & Hsd & Hpr).
  rewrite Hraw in *. simpl in *.
  assert (Hrem : ∀ o, o ∈ removed ++ part → (o < length (storage_ e))%nat).
  { intros o Ho. apply Hvalid. rewrite Ws.
    apply elem_of_app in Ho as [?|Ho]; [set_solver|].
    destruct Wp as [->|[-> _]]; [by apply elem_of_nil in Ho|].
    apply elem_of_app. right. by apply (subseteq_take 1). }
  assert (Hids' : ids h removed = ids (storage_ e) removed).
  { apply list_fmap_ext. intros ? o Ho. simpl. rewrite Hold; [done|].
    apply Hrem, elem_of_app. left. by eapply list_elem_of_lookup_2. }
  assert (Hfresh : index_ (book_ e) !! nextOrderId_ e = None)
    by (by eapply next_id_fresh).
  assert (Hnew : m_store m !!! raw
                 = mkOrder (nextOrderId_ e) s p (qty - filled new) qty ts).
  { apply order_eq_quantity; [|done].
    destruct Wfr as [_ Wfr]. by rewrite Wfr, Hraw. }
  assert (Hfz : frozen (storage_ e) (take (length (storage_ e)) (m_store m))).
  { split; [rewrite length_take; lia|].
    intros o. destruct (decide (o < length (storage_ e))%nat) as [Ho|Ho].
    + rewrite lookup_total_take, decide_True by done.
      destruct Wfr as [_ Wfr]. by rewrite Wfr, Hold.
    + rewrite !list_lookup_total_alt, !lookup_ge_None_2;
        [done|lia|rewrite length_take; lia]. }
  intros Hret.
  assert (∃ b', e' = MatchingEngine.mk b' (m_store m)
                       (wrap64 (nextOrderId_ e + 1)) ∧
                trades = m_trades m ∧
                b' = if 0 <? qty - filled new
                     then OrderBook.addOrder (m_store m) raw (m_book m)
                     else m_book m)
    as (b' & -> & -> & Hb').
  { rewrite Wtk in Hret. injection Hret as <- <-. by eexists. }
  rewrite Wtr. simpl.
  assert (Hadd := addOrder_side (m_store m) raw (m_book m)).
  rewrite Hid, Hsd, Hpr in Hadd.
  exists removed, part. split; simpl.
  - rewrite Hb'. destruct (0 <? qty - filled new); [|done].
    by rewrite Hadd, side_map_with_opp.
  - rewrite Hb'. destruct (0 <? qty - filled new); [|by rewrite Wsm].
    by rewrite Hadd, side_map_with, Wsm.
  - assert (Hside : side_map (opposite s) b'
                    = side_map (opposite s) (m_book m)).
    { rewrite Hb'. destruct (0 <? qty - filled new); [|done].
      by rewrite Hadd, side_map_with_opp. }
    by rewrite Hside.
  - assert (Hside : side_map (opposite s) b'
                    = side_map (opposite s) (m_book m)).
    { rewrite Hb'. destruct (0 <? qty - filled new); [|done].
      by rewrite Hadd, side_map_with_opp. }
    rewrite Hside. destruct Wp as [->|[-> Hz]]; [by left|right].
    split; [done|lia].
  - eapply Forall2_impl_elem; [exact Wmk|].
    intros o tr Ho (H1 & H2 & H3). rewrite Hraw in H2.
    rewrite Hold in H1, H3 by (by apply Hrem). done.
  - done.
  - eapply Forall2_impl_elem; [exact Wqy|]. simpl.
    intros o tr Ho ->. by rewrite Hold by (by apply Hrem).
  - eapply Forall2_impl_elem; [exact Wps|]. simpl.
    intros o tr Ho Himp Hpos. apply Himp. by rewrite Hold by (by apply Hrem).
  - done.
  - done.
  - intros o Ho Hnin. rewrite Wfm; [by apply Hold| |done].
    unfold raw. lia.
  - done.
  - rewrite <- Hnew. apply list_lookup_lookup_total_lt. rewrite Wlen, Hlenh.
    unfold raw. lia.
  - by rewrite Wlen.
  - done.
  - intros i. rewrite Hb', <- Hids', <- Wi.
    destruct (0 <? qty - filled new).
    + rewrite Hadd, index_with. case_decide as Hi.
      * subst i. apply lookup_insert_eq.
      * by apply lookup_insert_ne.
    + case_decide as Hi; [|done]. subst i.
      rewrite Wi. by case_decide.
Qed.

(** ** States the engine reaches *)

(** [e] is reached from a new engine by fewer than [2^64 - 1] calls with
    arguments of the types of the C++ signatures. *)
Definition reachable (e : MatchingEngine.t) : Prop :=
  ∃ ops, Forall valid_op ops ∧ Z.of_nat (length ops) < 2 ^ 64 - 1 ∧
         run ops MatchingEngine.new = Some e.

Lemma reachable_Inv' e : reachable e → Inv e.
Proof. intros (ops & Hv & Hw & Hrun). by eapply reached_Inv. Qed.

Lemma reachable_demo : reachable (state_of ops_demo).
Proof.
  exists ops_demo.
  exact (conj valid_ops_demo (conj length_ops_demo run_ops_demo)).
Defined.

(** ** What one [submitOrder] does to the book *)

Lemma Forall2_fmap_eq {A B C} (f : A → C) (g : B → C) l k :
  Forall2 (λ x y, g y = f x) l k → g <$> k = f <$> l.
Proof. induction 1 as [|x y l k H _ IH]; csimpl; [done|]. by rewrite H, IH. Qed.

Section SubmitTrace.
Context (s : Side) (p : Price) (qty : Quantity) (ts : Timestamp).
Context (e : MatchingEngine.t) (trades : list Trade) (e' : MatchingEngine.t).
Context (removed part : list nat).
Hypothesis HI : Inv e.
Hypothesis Htrace : submit_trace s p qty ts e trades e' removed part.

Lemma trace_length : length trades = (length removed + length part)%nat.
Proof.
  rewrite <- (Forall2_length _ _ _ (st_makers _ _ _ _ _ _ _ _ _ Htrace)).
  apply length_app.
Qed.

Lemma trace_part_length :
  part = [] ∨ length part = 1%nat ∧ filled trades = qty.
Proof.
  destruct (st_part _ _ _ _ _ _ _ _ _ Htrace) as [->|[-> Hf]]; [by left|].
  destruct (ptrs_of (side_map (opposite s) (book_ e'))); [by left|by right].
Qed.

Lemma trace_prefix :
  removed ++ part
  = take (length trades) (ptrs_of (side_map (opposite s) (book_ e))).
Proof.
  rewrite trace_length, (st_split _ _ _ _ _ _ _ _ _ Htrace).
  rewrite take_app_add'; [|done]. f_equal.
  destruct (st_part _ _ _ _ _ _ _ _ _ Htrace) as [->|[-> _]]; [done|].
  destruct (ptrs_of (side_map (opposite s) (book_ e'))); [done|].
  simpl. by rewrite take_0.
Qed.

(** A maker of the call rested on the opposite side, at a price the limit
    [p] allows, and the index knew it. *)
Lemma trace_resting o :
  o ∈ removed ++ part →
  (o < length (storage_ e))%nat ∧
  side (storage_ e !!! o) = opposite s ∧
  MatchingEngine.leaves (opposite s) (price (storage_ e !!! o)) p = false ∧
  index_ (book_ e) !! id (storage_ e !!! o) = Some o ∧
  id (storage_ e !!! o) ≠ nextOrderId_ e.
Proof.
  intros Ho.
  pose proof (proj1 (Forall_forall _ _) (st_cross _ _ _ _ _ _ _ _ _ Htrace)
                _ Ho) as (k & l & Hkl & Hol & Hlv).
  pose proof (proj1 (book_ok_side (opposite s) _ _) (inv_book _ HI))
    as ([Hlev _] & _).
  pose proof (proj1 (Forall_forall _ _) Hlev _ Hkl) as [Hrest _].
  pose proof (proj1 (Forall_forall _ _) Hrest _ Hol) as (Hlt & Hsd & Hpr & Hix).
  simpl in Hpr. rewrite Hpr. repeat split; try done.
  destruct (inv_store _ HI) as [Hids _].
  pose proof (proj1 (Forall_total _ _) Hids o Hlt). simpl in *. lia.
Qed.

Lemma trace_ptr_inj o o' :
  o ∈ removed ++ part → o' ∈ removed ++ part →
  id (storage_ e !!! o) = id (storage_ e !!! o') → o = o'.
Proof.
  intros Ho Ho' Hid.
  destruct (trace_resting o Ho) as (_ & _ & _ & H1 & _).
  destruct (trace_resting o' Ho') as (_ & _ & _ & H2 & _).
  rewrite Hid in H1. congruence.
Qed.

Lemma trace_nodup : NoDup (removed ++ part).
Proof.
  rewrite trace_prefix.
  pose proof (bk_nodup _ _ (inv_book _ HI)) as Hnd.
  rewrite <- (ptrs_from_perm (opposite s)) in Hnd.
  apply NoDup_app in Hnd as (Hnd & _).
  exact (sublist_NoDup _ _ Hnd (sublist_take _ _)).
Qed.

Lemma trace_makers_ids :
  makerOrderId <$> trades = ids (storage_ e) (removed ++ part).
Proof.
  apply Forall2_fmap_eq.
  eapply Forall2_impl; [exact (st_makers _ _ _ _ _ _ _ _ _ Htrace)|].
  by intros o tr (? & _).
Qed.

End SubmitTrace.

Lemma submit_facts s p qty ts e trades e' :
  Inv e → u64 qty →
  MatchingEngine.submitOrder s p qty ts e = Returns trades e' →
  submit_post s p qty e trades e' ∧
  ∃ removed part, submit_trace s p qty ts e trades e' removed part.
Proof.
  intros HI Hq Hrun. split; [|by eapply submitOrder_trace].
  destruct HI as [Hb Hnb Hna Hst Hn].
  destruct (submitOrder_spec s p qty ts e) as (trades0 & e0 & Hrun0 & Hpost);
    try done; [lia|].
  rewrite Hrun in Hrun0. by injection Hrun0 as <- <-.
Qed.

(** X1. Price-time priority.  The makers of the trades [submitOrder]
    returns are, in order, the first resting orders of the opposite side as
    the book lists them: levels from the best price on, each level from its
    front.  Afterwards that side holds the orders that follow them; the
    maker of the last trade stays at the front only when the incoming order
    was filled in full. *)
Theorem X1_makers_are_taken_in_book_order e s p qty ts trades e' :
  reachable e → u64 qty →
  MatchingEngine.submitOrder s p qty ts e = Returns trades e' →
  makerOrderId <$> trades
  = ids (storage_ e)
      (take (length trades) (ptrs_of (side_map (opposite s) (book_ e)))) ∧
  ∃ n, (length trades = n ∨ length trades = S n ∧ filled trades = qty) ∧
       ptrs_of (side_map (opposite s) (book_ e'))
       = drop n (ptrs_of (side_map (opposite s) (book_ e))).
Proof.
  intros Hr Hq Hrun. pose proof (reachable_Inv' e Hr) as HI.
  destruct (submit_facts s p qty ts e trades e' HI Hq Hrun)
    as (_ & removed & part & Htr).
  split.
  - rewrite <- (trace_prefix _ _ _ _ _ _ _ _ _ Htr).
    by eapply trace_makers_ids.
  - exists (length removed). split.
    + rewrite (trace_length _ _ _ _ _ _ _ _ _ Htr).
      destruct (trace_part_length _ _ _ _ _ _ _ _ _ Htr) as [->|[-> ?]];
        [left; simpl; lia|right; split; [lia|done]].
    + rewrite (st_split _ _ _ _ _ _ _ _ _ Htr). by rewrite drop_app_length.
Qed.

Lemma X1_witness :
  let e := state_of ops_demo in
  let r := MatchingEngine.submitOrder Sell 10000 25 7 e in
  reachable e ∧ u64 25 ∧ r = Returns (trades_of r) (engine_of r) ∧
  makerOrderId <$> trades_of r
  = ids (storage_ e)
      (take (length (trades_of r)) (ptrs_of (side_map (opposite Sell) (book_ e)))) ∧
  ∃ n, (length (trades_of r) = n ∨
        length (trades_of r) = S n ∧ filled (trades_of r) = 25) ∧
       ptrs_of (side_map (opposite Sell) (book_ (engine_of r)))
       = drop n (ptrs_of (side_map (opposite Sell) (book_ e))).
Proof.
  intros e r.
  assert (Hq : u64 25) by (unfold u64; lia).
  assert (H : r = Returns (trades_of r) (engine_of r))
    by (vm_compute; reflexivity).
  exact (conj reachable_demo (conj Hq (conj H
    (X1_makers_are_taken_in_book_order e Sell 10000 25 7 _ _
       reachable_demo Hq H)))).
Defined.

Lemma trace_trade_ptr s p qty ts e trades e' removed part tr :
  submit_trace s p qty ts e trades e' removed part →
  tr ∈ trades →
  ∃ o, o ∈ removed ++ part ∧
       (o ∈ removed ∧ quantity (storage_ e' !!! o) = 0 ∨
        o ∈ part ∧ quantity (storage_ e' !!! o) ≠ 0) ∧
       makerOrderId tr = id (storage_ e !!! o) ∧
       takerOrderId tr = nextOrderId_ e ∧
       trade_price tr = price (storage_ e !!! o) ∧
       quantity (storage_ e' !!! o)
       = quantity (storage_ e !!! o) - trade_quantity tr.
Proof.
  intros Htr Hin. apply list_elem_of_lookup in Hin as [i Hi].
  destruct (Forall2_lookup_r _ _ _ _ _ (st_makers _ _ _ _ _ _ _ _ _ Htr) Hi)
    as (o & Ho & H1 & H2 & H3).
  destruct (Forall2_lookup_r _ _ _ _ _ (st_qty _ _ _ _ _ _ _ _ _ Htr) Hi)
    as (o' & Ho' & H4).
  assert (o' = o) as -> by congruence.
  pose proof (list_elem_of_lookup_2 _ _ _ Ho) as Hoin.
  exists o. split; [done|]. split; [|done].
  apply elem_of_app in Hoin as [Hrm|Hpt]; [left|right]; (split; [done|]).
  - by apply (proj1 (Forall_forall _ _) (st_zero _ _ _ _ _ _ _ _ _ Htr)).
  - by apply (proj1 (Forall_forall _ _) (st_live _ _ _ _ _ _ _ _ _ Htr)).
Qed.

(** X2. Every trade of [submitOrder] is against an order that was live on
    the opposite side, at the price that order rests at, and that price is
    within the limit of the incoming order: at most [p] for a buy, at least
    [p] for a sell.  The taker of the trade is the incoming order, under
    the id the engine hands out for it, and is not its maker. *)
Theorem X2_trades_are_within_the_limit e s p qty ts trades e' tr :
  reachable e → u64 qty →
  MatchingEngine.submitOrder s p qty ts e = Returns trades e' →
  tr ∈ trades →
  ∃ o, index_ (book_ e) !! makerOrderId tr = Some o ∧
       side (storage_ e !!! o) = opposite s ∧
       trade_price tr = price (storage_ e !!! o) ∧
       match s with Buy => trade_price tr ≤ p | Sell => p ≤ trade_price tr end ∧
       takerOrderId tr = nextOrderId_ e ∧
       makerOrderId tr ≠ takerOrderId tr.
Proof.
  intros Hr Hq Hrun Hin. pose proof (reachable_Inv' e Hr) as HI.
  destruct (submit_facts s p qty ts e trades e' HI Hq Hrun)
    as (_ & removed & part & Htr).
  destruct (trace_trade_ptr _ _ _ _ _ _ _ _ _ _ Htr Hin)
    as (o & Ho & _ & Hmk & Htk & Hpr & _).
  destruct (trace_resting _ _ _ _ _ _ _ _ _ HI Htr o Ho)
    as (_ & Hsd & Hlv & Hix & Hne).
  exists o. rewrite Hmk, Htk, Hpr. repeat split; try done.
  destruct s; simpl in Hlv; lia.
Qed.

Lemma X2_witness :
  let e := state_of ops_demo in
  let r := MatchingEngine.submitOrder Sell 10000 25 7 e in
  let tr := mkTrade 5 6 10000 5 in
  reachable e ∧ u64 25 ∧ r = Returns (trades_of r) (engine_of r) ∧
  tr ∈ trades_of r ∧
  ∃ o, index_ (book_ e) !! makerOrderId tr = Some o ∧
       side (storage_ e !!! o) = opposite Sell ∧
       trade_price tr = price (storage_ e !!! o) ∧
       10000 ≤ trade_price tr ∧
       takerOrderId tr = nextOrderId_ e ∧
       makerOrderId tr ≠ takerOrderId tr.
Proof.
  intros e r tr.
  assert (Hq : u64 25) by (unfold u64; lia).
  assert (H : r = Returns (trades_of r) (engine_of r))
    by (vm_compute; reflexivity).
  assert (Hin : tr ∈ trades_of r)
    by (vm_compute; apply list_elem_of_further, list_elem_of_here).
  exact (conj reachable_demo (conj Hq (conj H (conj Hin
    (X2_trades_are_within_the_limit e Sell 10000 25 7 _ _ tr
       reachable_demo Hq H Hin))))).
Defined.

(** X3. Each trade takes its quantity off the remaining quantity of its
    maker, and the maker leaves the book exactly when that brings it to
    zero; otherwise it stays live behind the same pointer. *)
Theorem X3_maker_leaves_when_filled e s p qty ts trades e' tr :
  reachable e → u64 qty →
  MatchingEngine.submitOrder s p qty ts e = Returns trades e' →
  tr ∈ trades →
  ∃ o, index_ (book_ e) !! makerOrderId tr = Some o ∧
       quantity (storage_ e' !!! o)
       = quantity (storage_ e !!! o) - trade_quantity tr ∧
       OrderBook.getOrder (makerOrderId tr) (book_ e')
       = if decide (quantity (storage_ e' !!! o) = 0) then None else Some o.
Proof.
  intros Hr Hq Hrun Hin. pose proof (reachable_Inv' e Hr) as HI.
  destruct (submit_facts s p qty ts e trades e' HI Hq Hrun)
    as (_ & removed & part & Htr).
  destruct (trace_trade_ptr _ _ _ _ _ _ _ _ _ _ Htr Hin)
    as (o & Ho & Hcase & Hmk & _ & _ & Hqy).
  destruct (trace_resting _ _ _ _ _ _ _ _ _ HI Htr o Ho)
    as (_ & _ & _ & Hix & Hne).
  exists o. rewrite Hmk. split; [done|]. split; [done|].
  unfold OrderBook.getOrder. rewrite (st_index _ _ _ _ _ _ _ _ _ Htr).
  rewrite decide_False by done.
  destruct Hcase as [[Hrm Hz]|[Hpt Hnz]].
  - rewrite (decide_True (P := quantity _ = 0)) by done.
    rewrite decide_True; [done|].
    apply list_elem_of_fmap. by exists o.
  - rewrite (decide_False (P := quantity _ = 0)) by done.
    rewrite decide_False; [done|].
    intros Hids. apply list_elem_of_fmap in Hids as (o' & Hid & Ho').
    assert (o = o').
    { eapply (trace_ptr_inj _ _ _ _ _ _ _ _ _ HI Htr); [done| |done].
      apply elem_of_app. by left. }
    subst o'.
    pose proof (trace_nodup _ _ _ _ _ _ _ _ _ HI Htr) as Hnd.
    apply NoDup_app in Hnd as (_ & Hdisj & _). by apply (Hdisj o).
Qed.

Lemma X3_witness :
  let e := state_of ops_demo in
  let r := MatchingEngine.submitOrder Sell 10000 25 7 e in
  let tr := mkTrade 5 6 10000 5 in
  reachable e ∧ u64 25 ∧ r = Returns (trades_of r) (engine_of r) ∧
  tr ∈ trades_of r ∧
  ∃ o, index_ (book_ e) !! makerOrderId tr = Some o ∧
       quantity (storage_ (engine_of r) !!! o)
       = quantity (storage_ e !!! o) - trade_quantity tr ∧
       OrderBook.getOrder (makerOrderId tr) (book_ (engine_of r))
       = if decide (quantity (storage_ (engine_of r) !!! o) = 0)
         then None else Some o.
Proof.
  intros e r tr.
  assert (Hq : u64 25) by (unfold u64; lia).
  assert (H : r = Returns (trades_of r) (engine_of r))
    by (vm_compute; reflexivity).
  assert (Hin : tr ∈ trades_of r)
    by (vm_compute; apply list_elem_of_further, list_elem_of_here).
  exact (conj reachable_demo (conj Hq (conj H (conj Hin
    (X3_maker_leaves_when_filled e Sell 10000 25 7 _ _ tr
       reachable_demo Hq H Hin))))).
Defined.

Lemma frozen_lookup h h' k o :
  frozen h h' → h !! k = Some o →
  h' !! k = Some (set_quantity (quantity (h' !!! k)) o).
Proof.
  intros [Hlen Hfz] Hk.
  assert (Hlt : (k < length h')%nat).
  { rewrite Hlen. by eapply lookup_lt_Some. }
  rewrite (list_lookup_lookup_total_lt _ _ Hlt). f_equal.
  apply order_eq_quantity; [|done].
  rewrite Hfz. by rewrite (list_lookup_total_correct _ _ _ Hk).
Qed.

(** X4. [submitOrder] appends one order to the store: the id is the next
    id, which [lastOrderId] reports afterwards, side, price and timestamp
    are the arguments, the original quantity is [qty] and the remaining
    quantity is [qty] less what the trades filled.  Of the orders already
    stored only the remaining quantity can change, and only for the makers
    of the trades. *)
Theorem X4_submit_writes_only_quantities e s p qty ts trades e' :
  reachable e → u64 qty →
  MatchingEngine.submitOrder s p qty ts e = Returns trades e' →
  length (storage_ e') = S (length (storage_ e)) ∧
  storage_ e' !! length (storage_ e)
  = Some (mkOrder (nextOrderId_ e) s p (qty - filled trades) qty ts) ∧
  MatchingEngine.lastOrderId e' = nextOrderId_ e ∧
  ∀ k o, storage_ e !! k = Some o →
    ∃ q, storage_ e' !! k = Some (set_quantity q o) ∧
         (id o ∉ makerOrderId <$> trades → q = quantity o).
Proof.
  intros Hr Hq Hrun. pose proof (reachable_Inv' e Hr) as HI.
  destruct (submit_facts s p qty ts e trades e' HI Hq Hrun)
    as (_ & removed & part & Htr).
  split; [apply (st_len _ _ _ _ _ _ _ _ _ Htr)|].
  split; [apply (st_new _ _ _ _ _ _ _ _ _ Htr)|].
  split.
  { unfold MatchingEngine.lastOrderId.
    rewrite (st_next _ _ _ _ _ _ _ _ _ Htr).
    apply lastOrderId_after_submit.
    pose proof (inv_next _ HI). unfold u64. lia. }
  intros k o Hk.
  pose proof (lookup_lt_Some _ _ _ Hk) as Hlt.
  pose proof (frozen_lookup _ _ k o (st_frozen _ _ _ _ _ _ _ _ _ Htr) Hk) as Hk'.
  rewrite lookup_take_lt in Hk' by done.
  rewrite lookup_total_take, decide_True in Hk' by done.
  eexists. split; [exact Hk'|].
  intros Hid. rewrite (trace_makers_ids _ _ _ _ _ _ _ _ _ Htr) in Hid.
  rewrite (st_frame _ _ _ _ _ _ _ _ _ Htr); [|done|].
  - by rewrite (list_lookup_total_correct _ _ _ Hk).
  - intros Hin. apply Hid. apply list_elem_of_fmap. exists k.
    by rewrite (list_lookup_total_correct _ _ _ Hk).
Qed.

Lemma X4_witness :
  let e := state_of ops_demo in
  let r := MatchingEngine.submitOrder Sell 10000 25 7 e in
  reachable e ∧ u64 25 ∧ r = Returns (trades_of r) (engine_of r) ∧
  length (storage_ (engine_of r)) = S (length (storage_ e)) ∧
  storage_ (engine_of r) !! length (storage_ e)
  = Some (mkOrder (nextOrderId_ e) Sell 10000 (25 - filled (trades_of r)) 25 7) ∧
  MatchingEngine.lastOrderId (engine_of r) = nextOrderId_ e ∧
  ∀ k o, storage_ e !! k = Some o →
    ∃ q, storage_ (engine_of r) !! k = Some (set_quantity q o) ∧
         (id o ∉ makerOrderId <$> trades_of r → q = quantity o).
Proof.
  intros e r.
  assert (Hq : u64 25) by (unfold u64; lia).
  assert (H : r = Returns (trades_of r) (engine_of r))
    by (vm_compute; reflexivity).
  exact (conj reachable_demo (conj Hq (conj H
    (X4_submit_writes_only_quantities e Sell 10000 25 7 _ _
       reachable_demo Hq H)))).
Defined.

Lemma fills_bounds h idx tid os q trades q' :
  fills h idx tid os q trades q' →
  Forall (λ o, u64 (quantity o)) h → 0 ≤ q →
  Forall (λ t, 0 ≤ trade_quantity t) trades ∧ 0 ≤ q' ∧ q' = q - filled trades.
Proof.
  intros Hf Hu. induction Hf as [|q q' t o rest Ho Hio Hid Hp Hq Ht Hf IH];
    intros Hq0; simpl.
  - split; [constructor|lia].
  - pose proof (store_u64_total h o Hu) as [Ho0 _].
    destruct IH as (IH1 & IH2 & IH3); [lia|].
    split; [constructor; [lia|done]|]. lia.
Qed.

(** X5. The quantities add up: no trade has a negative quantity, the trades
    fill at most [qty], and the incoming order is live afterwards exactly
    when they fill less.  It then rests at the back of the level of its
    price on its own side, and no level is left on the opposite side at a
    price it could have taken. *)
Theorem X5_remainder_rests_at_the_back e s p qty ts trades e' :
  reachable e → u64 qty →
  MatchingEngine.submitOrder s p qty ts e = Returns trades e' →
  Forall (λ tr, 0 ≤ trade_quantity tr) trades ∧
  filled trades ≤ qty ∧
  (OrderBook.hasOrder (nextOrderId_ e) (book_ e') = true ↔ filled trades < qty) ∧
  (filled trades < qty →
   (∃ l, map_find p (side_map s (book_ e')) = Some l ∧
         last (orders_ l) = Some (length (storage_ e))) ∧
   ∀ k, k ∈ keys (side_map (opposite s) (book_ e')) →
        MatchingEngine.leaves (opposite s) k p = true).
Proof.
  intros Hr Hq Hrun. pose proof (reachable_Inv' e Hr) as HI.
  destruct (submit_facts s p qty ts e trades e' HI Hq Hrun)
    as (Hpost & removed & part & Htr).
  destruct (fills_bounds _ _ _ _ _ _ _ (sp_fills _ _ _ _ _ _ Hpost))
    as (Hnn & Hrem & Hq');
    [apply (inv_store _ HI)|apply Hq|].
  split; [done|]. split; [lia|].
  assert (Hlive : index_ (book_ e') !! nextOrderId_ e
                  = if 0 <? qty - filled trades
                    then Some (length (storage_ e)) else None).
  { rewrite (st_index _ _ _ _ _ _ _ _ _ Htr). by rewrite decide_True. }
  split.
  - unfold OrderBook.hasOrder. rewrite Hlive.
    destruct (0 <? qty - filled trades) eqn:E.
    + apply Z.ltb_lt in E. rewrite bool_decide_eq_true. split; [lia|by eexists].
    + apply Z.ltb_ge in E. rewrite bool_decide_eq_true.
      split; [by intros [? ?]|lia].
  - intros Hlt. rewrite <- Hq' in Hlive.
    destruct (sp_rest _ _ _ _ _ _ Hpost) as (_ & l & Hfind & Hlast); [lia|].
    split; [by exists l|].
    intros k Hk. apply leaves_better.
    pose proof (proj1 (book_ok_side s _ _) (sp_book _ _ _ _ _ _ Hpost))
      as (_ & _ & _ & _ & Hcross).
    apply Hcross; [|done].
    clear -Hfind. induction (side_map s (book_ e')) as [|[k' l'] m IH];
      simpl in *; [done|].
    case_decide; [subst; by left|right; by apply IH].
Qed.

Lemma X5_witness :
  let e := state_of ops_demo in
  let r := MatchingEngine.submitOrder Sell 10000 30 7 e in
  reachable e ∧ u64 30 ∧ r = Returns (trades_of r) (engine_of r) ∧
  Forall (λ tr, 0 ≤ trade_quantity tr) (trades_of r) ∧
  filled (trades_of r) ≤ 30 ∧
  (OrderBook.hasOrder (nextOrderId_ e) (book_ (engine_of r)) = true
   ↔ filled (trades_of r) < 30) ∧
  (filled (trades_of r) < 30 →
   (∃ l, map_find 10000 (side_map Sell (book_ (engine_of r))) = Some l ∧
         last (orders_ l) = Some (length (storage_ e))) ∧
   ∀ k, k ∈ keys (side_map (opposite Sell) (book_ (engine_of r))) →
        MatchingEngine.leaves (opposite Sell) k 10000 = true).
Proof.
  intros e r.
  assert (Hq : u64 30) by (unfold u64; lia).
  assert (H : r = Returns (trades_of r) (engine_of r))
    by (vm_compute; reflexivity).
  exact (conj reachable_demo (conj Hq (conj H
    (X5_remainder_rests_at_the_back e Sell 10000 30 7 _ _
       reachable_demo Hq H)))).
Defined.

(** ** The book between calls *)

Lemma elem_of_book_ptrs o b :
  o ∈ book_ptrs b ↔ ∃ s, o ∈ ptrs_of (side_map s b).
Proof.
  unfold book_ptrs. rewrite elem_of_app. split.
  - intros [?|?]; [by exists Buy|by exists Sell].
  - intros [[] ?]; [by left|by right].
Qed.

(** X6. The index and the levels hold the same orders: an id is in the
    index, with pointer [o], exactly when [o] is held by a level and points
    to the order of that id; [o] is then held once in the whole book, by the
    level of the price of its order on the side of its order. *)
Theorem X6_index_and_levels_agree e i o :
  reachable e →
  (OrderBook.getOrder i (book_ e) = Some o ↔
   o ∈ book_ptrs (book_ e) ∧ id (storage_ e !!! o) = i) ∧
  NoDup (book_ptrs (book_ e)) ∧
  (OrderBook.getOrder i (book_ e) = Some o →
   (o < length (storage_ e))%nat ∧
   ∃ l, map_find (price (storage_ e !!! o))
          (side_map (side (storage_ e !!! o)) (book_ e)) = Some l ∧
        o ∈ orders_ l).
Proof.
  intros Hr. pose proof (reachable_Inv' e Hr) as HI.
  pose proof (inv_book _ HI) as Hb. unfold OrderBook.getOrder.
  split; [split|split].
  - intros Hio. destruct (bk_index _ _ Hb _ _ Hio). by split.
  - intros [Ho <-]. rewrite <- (ptrs_from_perm Buy) in Ho.
    by destruct (book_resting Buy _ _ o Hb Ho) as (? & ? & _ & _ & _ & _ & _ & ?).
  - apply (bk_nodup _ _ Hb).
  - intros Hio. split.
    + apply (book_ptrs_valid _ (book_ e)); [done|].
      by destruct (bk_index _ _ Hb _ _ Hio).
    + destruct (book_locate _ _ _ _ Hb Hio)
        as (m1 & l & m2 & os1 & os2 & Hm & Hk & Hos & _).
      exists l. rewrite Hm. split; [by apply map_find_split|].
      rewrite Hos. set_solver.
Qed.

Lemma X6_witness :
  let e := state_of ops_demo in
  reachable e ∧
  (OrderBook.getOrder 5 (book_ e) = Some 4%nat ↔
   4%nat ∈ book_ptrs (book_ e) ∧ id (storage_ e !!! 4%nat) = 5) ∧
  NoDup (book_ptrs (book_ e)) ∧
  (OrderBook.getOrder 5 (book_ e) = Some 4%nat →
   (4 < length (storage_ e))%nat ∧
   ∃ l, map_find (price (storage_ e !!! 4%nat))
          (side_map (side (storage_ e !!! 4%nat)) (book_ e)) = Some l ∧
        4%nat ∈ orders_ l).
Proof.
  intros e.
  exact (conj reachable_demo
    (X6_index_and_levels_agree e 5 4%nat reachable_demo)).
Defined.

Lemma sorted_head_best s k (m : list Price) k' :
  StronglySorted (better s) (k :: m) → k' ∈ k :: m → k' = k ∨ better s k k'.
Proof.
  intros Hs Hin. apply StronglySorted_inv in Hs as [_ Hall].
  apply elem_of_cons in Hin as [->|Hin]; [by left|right].
  by apply (proj1 (Forall_forall _ _) Hall).
Qed.

Definition best (s : Side) (b : OrderBook.t) : option Price :=
  match s with Buy => OrderBook.bestBid b | Sell => OrderBook.bestAsk b end.

Lemma best_head s b :
  best s b = match side_map s b with [] => None | (k, _) :: _ => Some k end.
Proof. by destruct s. Qed.

(** X7. [bestBid] is the highest price of a live buy order and [bestAsk]
    the lowest price of a live sell order: no live order of the side has a
    better price, and some live order of the side has that price.  A side
    reports no best price exactly when no order of that side is live. *)
Theorem X7_best_price_is_the_extreme_of_live_orders e s :
  reachable e →
  (∀ i o, OrderBook.getOrder i (book_ e) = Some o → side (storage_ e !!! o) = s →
     ∃ k, best s (book_ e) = Some k ∧
          match s with
          | Buy => price (storage_ e !!! o) ≤ k
          | Sell => k ≤ price (storage_ e !!! o)
          end) ∧
  (∀ k, best s (book_ e) = Some k →
     ∃ i o, OrderBook.getOrder i (book_ e) = Some o ∧
            side (storage_ e !!! o) = s ∧ price (storage_ e !!! o) = k).
Proof.
  intros Hr. pose proof (reachable_Inv' e Hr) as HI.
  pose proof (inv_book _ HI) as Hb. unfold OrderBook.getOrder.
  pose proof (proj1 (book_ok_side s _ _) Hb) as ([Hlev Hsort] & _).
  rewrite best_head. split.
  - intros i o Hio Hs. subst s.
    destruct (book_locate _ _ _ _ Hb Hio)
      as (m1 & l & m2 & os1 & os2 & Hm & Hk & Hos & _).
    assert (Hin : price (storage_ e !!! o)
                  ∈ keys (side_map (side (storage_ e !!! o)) (book_ e))).
    { rewrite Hm. unfold keys. rewrite fmap_app, fmap_cons. set_solver. }
    destruct (side_map (side (storage_ e !!! o)) (book_ e)) as [|[k0 l0] m];
      [by apply elem_of_nil in Hin|].
    exists k0. split; [done|].
    destruct (sorted_head_best _ _ _ _ Hsort Hin) as [->|Hbt].
    + destruct (side _); simpl; lia.
    + destruct (side _); simpl in *; lia.
  - intros k Hk.
    assert (Hne : nonempty (side_map s (book_ e))).
    { destruct s; [apply (inv_bids _ HI)|apply (inv_asks _ HI)]. }
    destruct (side_map s (book_ e)) as [|[k0 l0] m]; [done|].
    injection Hk as ->.
    apply Forall_cons in Hne as [Hne _]. apply Forall_cons in Hlev as [[Hl _] _].
    simpl in *. destruct (orders_ l0) as [|o os]; [done|].
    apply Forall_cons in Hl as [(Hlt & Hsd & Hpr & Hix) _].
    by exists (id (storage_ e !!! o)), o.
Qed.

Lemma X7_witness :
  let e := state_of ops_demo in
  reachable e ∧
  (∀ i o, OrderBook.getOrder i (book_ e) = Some o →
     side (storage_ e !!! o) = Buy →
     ∃ k, best Buy (book_ e) = Some k ∧ price (storage_ e !!! o) ≤ k) ∧
  (∀ k, best Buy (book_ e) = Some k →
     ∃ i o, OrderBook.getOrder i (book_ e) = Some o ∧
            side (storage_ e !!! o) = Buy ∧ price (storage_ e !!! o) = k).
Proof.
  intros e.
  exact (conj reachable_demo
    (X7_best_price_is_the_extreme_of_live_orders e Buy reachable_demo)).
Defined.

(** ** Cancelling and reducing a live order *)

Lemma map_find_app {V} k (m1 m2 : list (Price * V)) :
  map_find k (m1 ++ m2)
  = match map_find k m1 with Some v => Some v | None => map_find k m2 end.
Proof.
  induction m1 as [|[k' v'] m1 IH]; simpl; [done|]. by case_decide.
Qed.

Lemma map_find_middle_ne {V} k p (v : V) m1 m2 :
  k ≠ p → map_find k (m1 ++ (p, v) :: m2) = map_find k (m1 ++ m2).
Proof.
  intros Hk. rewrite !map_find_app. simpl. by rewrite decide_False.
Qed.

Lemma sorted_middle_fresh s (m1 : list (Price * PriceLevel.t)) p l m2 :
  StronglySorted (better s) (keys (m1 ++ (p, l) :: m2)) →
  (p ∉ keys m1) ∧ (p ∉ keys m2).
Proof.
  rewrite keys_app. simpl. intros Hs.
  apply StronglySorted_app in Hs as (Hx & _ & Hs2).
  apply StronglySorted_inv in Hs2 as [_ Hall].
  split.
  - intros Hin. apply (better_irrefl s p). apply Hx; [done|by left].
  - intros Hin. apply (better_irrefl s p).
    by apply (proj1 (Forall_forall _ _) Hall).
Qed.

(** What [cancelOrder] leaves of the level of a live order. *)
Definition level_without (h : list Order) (o : nat) (l : PriceLevel.t)
    (os : list nat) : option PriceLevel.t :=
  if decide (os = []) then None
  else Some (PriceLevel.mk (PriceLevel.price l) os
               (wrap64 (totalQty_ l - quantity (h !!! o)))).

Lemma cancel_live h i b o :
  book_ok h b → index_ b !! i = Some o →
  let s := side (h !!! o) in
  let p := price (h !!! o) in
  let b' := (OrderBook.cancelOrder h i b).2 in
  (OrderBook.cancelOrder h i b).1 = true ∧
  index_ b' = delete i (index_ b) ∧
  side_map (opposite s) b' = side_map (opposite s) b ∧
  ∃ l os1 os2,
    map_find p (side_map s b) = Some l ∧
    orders_ l = os1 ++ o :: os2 ∧ (o ∉ os1 ++ os2) ∧
    map_find p (side_map s b') = level_without h o l (os1 ++ os2) ∧
    (∀ k, k ≠ p → map_find k (side_map s b') = map_find k (side_map s b)) ∧
    (∀ k l', (k, l') ∈ side_map s b' →
       ∃ l0, (k, l0) ∈ side_map s b ∧ orders_ l' `sublist_of` orders_ l0) ∧
    ∃ before after,
      ptrs_of (side_map s b) = before ++ o :: after ∧
      ptrs_of (side_map s b') = before ++ after.
Proof.
  intros Hb Hio. rewrite cancelOrder_side, Hio. simpl.
  rewrite side_map_with, side_map_with_opp, index_with.
  split; [done|]. split; [done|]. split; [done|].
  destruct (book_locate h b i o Hb Hio)
    as (m1 & l & m2 & os1 & os2 & Hm & Hk & Hos & Hid & Huniq).
  set (s := side (h !!! o)) in *. set (p := price (h !!! o)) in *.
  pose proof (proj1 (book_ok_side s _ _) Hb) as ([_ Hso] & _ & Hn & _).
  unfold ptrs_from in Hn. rewrite Hm in Hn, Hso.
  rewrite ptrs_of_app, ptrs_of_cons, Hos in Hn.
  rewrite perm_take_out in Hn. apply NoDup_cons in Hn as [Hnot Hn].
  destruct (sorted_middle_fresh _ _ _ _ _ Hso) as [_ Hk2].
  assert (Hnot' : o ∉ os1 ++ os2) by set_solver.
  set (l' := PriceLevel.mk (PriceLevel.price l) (os1 ++ os2)
               (wrap64 (totalQty_ l - quantity (h !!! o)))).
  assert (Hcin : OrderBook.cancel_in h i p (m1 ++ (p, l) :: m2)
                 = if PriceLevel.empty l' then m1 ++ m2
                   else m1 ++ (p, l') :: m2).
  { unfold OrderBook.cancel_in. rewrite map_find_split by done.
    unfold PriceLevel.removeOrder. rewrite Hos, erase_id_spec; try done.
    - simpl. fold l'. destruct (PriceLevel.empty l').
      + by apply map_erase_split.
      + by apply map_set_split.
    - by rewrite <- Hos.
    - set_solver. }
  rewrite Hm, Hcin. exists l, os1, os2.
  split; [by apply map_find_split|]. split; [done|]. split; [done|].
  assert (Hemp : PriceLevel.empty l' = bool_decide (os1 ++ os2 = [])).
  { unfold PriceLevel.empty. simpl. by destruct (os1 ++ os2). }
  rewrite Hemp. unfold level_without. fold l'.
  destruct (decide (os1 ++ os2 = [])) as [Eos|Eos].
  - rewrite bool_decide_eq_true_2 by done. split; [|split; [|split]].
    + rewrite map_find_app. by rewrite !map_find_None.
    + intros k Hne. by rewrite map_find_middle_ne.
    + intros k l0 Hin. exists l0. split; [set_solver|done].
    + exists (ptrs_of m1 ++ os1), (os2 ++ ptrs_of m2).
      rewrite !ptrs_of_app, ptrs_of_cons. simpl. rewrite Hos.
      apply app_eq_nil in Eos as [-> ->]. simpl. by rewrite !app_nil_r.
  - rewrite bool_decide_eq_false_2 by done. split; [|split; [|split]].
    + by rewrite map_find_split.
    + intros k Hne. by rewrite !map_find_middle_ne.
    + intros k l0 Hin. apply elem_of_app in Hin as [Hin|Hin].
      { exists l0. split; [set_solver|done]. }
      apply elem_of_cons in Hin as [[= -> ->]|Hin].
      * exists l. split; [set_solver|]. rewrite Hos. simpl.
        apply sublist_app; [done|]. by apply sublist_cons.
      * exists l0. split; [set_solver|done].
    + exists (ptrs_of m1 ++ os1), (os2 ++ ptrs_of m2).
      rewrite !ptrs_of_app, !ptrs_of_cons. simpl. rewrite Hos.
      by rewrite <- !app_assoc.
Qed.

(** X8. Cancelling a live order returns [true] and takes that order, and
    nothing else, out of the book: its id leaves the index, its pointer
    leaves its level (which is erased if that leaves it empty, and otherwise
    has its total lowered by the remaining quantity of the order), the
    other orders of its side keep their relative order, and the other side,
    the stored orders and the id counter are as before. *)
Theorem X8_cancel_takes_one_order_out e i o :
  reachable e → OrderBook.getOrder i (book_ e) = Some o →
  ∃ e',
    MatchingEngine.cancelOrder i e = Returns true e' ∧
    storage_ e' = storage_ e ∧ nextOrderId_ e' = nextOrderId_ e ∧
    index_ (book_ e') = delete i (index_ (book_ e)) ∧
    (let s := side (storage_ e !!! o) in
     let p := price (storage_ e !!! o) in
     side_map (opposite s) (book_ e') = side_map (opposite s) (book_ e) ∧
     ∃ l os1 os2,
       map_find p (side_map s (book_ e)) = Some l ∧
       orders_ l = os1 ++ o :: os2 ∧ (o ∉ os1 ++ os2) ∧
       map_find p (side_map s (book_ e'))
       = level_without (storage_ e) o l (os1 ++ os2) ∧
       (∀ k, k ≠ p →
          map_find k (side_map s (book_ e')) = map_find k (side_map s (book_ e))) ∧
       ∃ before after,
         ptrs_of (side_map s (book_ e)) = before ++ o :: after ∧
         ptrs_of (side_map s (book_ e')) = before ++ after).
Proof.
  intros Hr Hio. pose proof (reachable_Inv' e Hr) as HI.
  destruct (cancel_live (storage_ e) i (book_ e) o (inv_book _ HI) Hio)
    as (Hret & Hix & Hopp & l & os1 & os2 & H1 & H2 & H3 & H4 & H5 & _ & H6).
  eexists. unfold MatchingEngine.cancelOrder. rewrite Hret.
  split; [done|]. simpl. repeat (split; [done|]).
  by exists l, os1, os2.
Qed.

Lemma X8_witness :
  let e := state_of ops_demo in
  reachable e ∧ OrderBook.getOrder 1 (book_ e) = Some 0%nat ∧
  ∃ e',
    MatchingEngine.cancelOrder 1 e = Returns true e' ∧
    storage_ e' = storage_ e ∧ nextOrderId_ e' = nextOrderId_ e ∧
    index_ (book_ e') = delete 1 (index_ (book_ e)) ∧
    (let s := side (storage_ e !!! 0%nat) in
     let p := price (storage_ e !!! 0%nat) in
     side_map (opposite s) (book_ e') = side_map (opposite s) (book_ e) ∧
     ∃ l os1 os2,
       map_find p (side_map s (book_ e)) = Some l ∧
       orders_ l = os1 ++ 0%nat :: os2 ∧ (0%nat ∉ os1 ++ os2) ∧
       map_find p (side_map s (book_ e'))
       = level_without (storage_ e) 0%nat l (os1 ++ os2) ∧
       (∀ k, k ≠ p →
          map_find k (side_map s (book_ e')) = map_find k (side_map s (book_ e))) ∧
       ∃ before after,
         ptrs_of (side_map s (book_ e)) = before ++ 0%nat :: after ∧
         ptrs_of (side_map s (book_ e')) = before ++ after).
Proof.
  intros e.
  assert (H : OrderBook.getOrder 1 (book_ e) = Some 0%nat)
    by (vm_compute; reflexivity).
  exact (conj reachable_demo (conj H
    (X8_cancel_takes_one_order_out e 1 0%nat reachable_demo H))).
Defined.

(** The prices of a side with the queue of each, without the totals. *)
Definition queues (m : list (Price * PriceLevel.t)) : list (Price * list nat) :=
  (λ kl, (kl.1, orders_ kl.2)) <$> m.

Lemma modify_live h i newQty b o :
  book_ok h b → index_ b !! i = Some o → newQty < quantity (h !!! o) →
  let s := side (h !!! o) in
  let p := price (h !!! o) in
  let r := OrderBook.modifyQuantity h i newQty b in
  r.1 = true ∧ r.2.1 = store_quantity o newQty h ∧
  index_ r.2.2 = index_ b ∧
  side_map (opposite s) r.2.2 = side_map (opposite s) b ∧
  queues (side_map s r.2.2) = queues (side_map s b) ∧
  (∀ k l', (k, l') ∈ side_map s r.2.2 →
     ∃ l0, (k, l0) ∈ side_map s b ∧ orders_ l' = orders_ l0) ∧
  ∃ l, map_find p (side_map s b) = Some l ∧
       map_find p (side_map s r.2.2)
       = Some (PriceLevel.mk (PriceLevel.price l) (orders_ l)
                 (wrap64 (totalQty_ l - (quantity (h !!! o) - newQty)))) ∧
       ∀ k, k ≠ p → map_find k (side_map s r.2.2) = map_find k (side_map s b).
Proof.
  intros Hb Hio Hlt. unfold OrderBook.modifyQuantity. rewrite Hio.
  assert (Eq : (newQty >=? quantity (h !!! o)) = false).
  { rewrite Z.geb_leb. by apply Z.leb_gt. }
  rewrite Eq.
  destruct (book_locate h b i o Hb Hio)
    as (m1 & l & m2 & os1 & os2 & Hm & Hk & Hos & Hid & Huniq).
  set (h' := store_quantity o newQty h).
  destruct (store_quantity_static o newQty h) as [_ Hst].
  destruct (Hst o) as (_ & Hsd' & Hpr'). fold h' in Hsd', Hpr'.
  set (delta := wrap64 (quantity (h !!! o) - newQty)).
  set (s := side (h !!! o)) in *. set (p := price (h !!! o)) in *.
  assert (Hres : (if side (h' !!! o) is Buy
            then (true, (h', OrderBook.mk
                    (OrderBook.adjust_in delta (price (h' !!! o)) (bids_ b))
                    (asks_ b) (index_ b)))
            else (true, (h', OrderBook.mk (bids_ b)
                    (OrderBook.adjust_in delta (price (h' !!! o)) (asks_ b))
                    (index_ b))))
          = (true, (h', with_side_map s
               (m1 ++ (p, PriceLevel.adjustTotal delta l) :: m2) (index_ b) b))).
  { rewrite Hsd', Hpr'. fold s p.
    assert (OrderBook.adjust_in delta p (side_map s b)
            = m1 ++ (p, PriceLevel.adjustTotal delta l) :: m2) as <-.
    { unfold OrderBook.adjust_in.
      by rewrite Hm, map_find_split, map_set_split. }
    by destruct s. }
  rewrite Hres. clear Hres. simpl.
  rewrite side_map_with, side_map_with_opp, index_with.
  split; [done|]. split; [done|]. split; [done|]. split; [done|].
  split; [|split].
  - rewrite Hm. unfold queues. by rewrite !fmap_app.
  - rewrite Hm. intros k l0 Hin. apply elem_of_app in Hin as [Hin|Hin].
    { exists l0. split; [set_solver|done]. }
    apply elem_of_cons in Hin as [[= -> ->]|Hin].
    + exists l. split; [set_solver|done].
    + exists l0. split; [set_solver|done].
  - exists l. rewrite Hm. split; [by apply map_find_split|]. split.
    + rewrite map_find_split by done. unfold PriceLevel.adjustTotal, delta.
      by rewrite wrap64_sub_r.
    + intros k Hne. by rewrite !map_find_middle_ne.
Qed.

(** X9. A modify of a live order at its own price to a smaller quantity
    returns no trades and rewrites the remaining quantity in place: the
    order keeps its id and its place in the queue of its level, every level
    holds the same orders in the same sequence, the total of its level
    drops by the reduction, and the index and the id counter do not
    change.  The new quantity may be zero: the order is then still live. *)
Theorem X9_reduce_keeps_the_queue_position e i o newQty ts :
  reachable e → OrderBook.getOrder i (book_ e) = Some o →
  newQty < quantity (storage_ e !!! o) →
  ∃ e',
    MatchingEngine.modifyOrder i (price (storage_ e !!! o)) newQty ts e
    = Returns [] e' ∧
    storage_ e' = store_quantity o newQty (storage_ e) ∧
    nextOrderId_ e' = nextOrderId_ e ∧
    index_ (book_ e') = index_ (book_ e) ∧
    (∀ s, queues (side_map s (book_ e')) = queues (side_map s (book_ e))) ∧
    ∃ l, map_find (price (storage_ e !!! o))
           (side_map (side (storage_ e !!! o)) (book_ e)) = Some l ∧
         map_find (price (storage_ e !!! o))
           (side_map (side (storage_ e !!! o)) (book_ e'))
         = Some (PriceLevel.mk (PriceLevel.price l) (orders_ l)
                   (wrap64 (totalQty_ l
                            - (quantity (storage_ e !!! o) - newQty)))).
Proof.
  intros Hr Hio Hlt. pose proof (reachable_Inv' e Hr) as HI.
  destruct (modify_live (storage_ e) i newQty (book_ e) o (inv_book _ HI)
              Hio Hlt) as (_ & Hst & Hix & Hopp & Hq & _ & l & Hl & Hl' & _).
  unfold MatchingEngine.modifyOrder. rewrite Hio.
  rewrite decide_True by done.
  assert (Eq : (newQty >=? quantity (storage_ e !!! o)) = false).
  { rewrite Z.geb_leb. by apply Z.leb_gt. }
  rewrite Eq. eexists. split; [done|]. simpl.
  split; [done|]. split; [done|]. split; [done|]. split.
  - intros s. destruct (decide (s = side (storage_ e !!! o))) as [->|Hs];
      [done|].
    replace s with (opposite (side (storage_ e !!! o)))
      by (by destruct s, (side (storage_ e !!! o))).
    by rewrite Hopp.
  - by exists l.
Qed.

Lemma X9_witness :
  let e := state_of ops_demo in
  reachable e ∧ OrderBook.getOrder 5 (book_ e) = Some 4%nat ∧
  3 < quantity (storage_ e !!! 4%nat) ∧
  ∃ e',
    MatchingEngine.modifyOrder 5 (price (storage_ e !!! 4%nat)) 3 9 e
    = Returns [] e' ∧
    storage_ e' = store_quantity 4 3 (storage_ e) ∧
    nextOrderId_ e' = nextOrderId_ e ∧
    index_ (book_ e') = index_ (book_ e) ∧
    (∀ s, queues (side_map s (book_ e')) = queues (side_map s (book_ e))) ∧
    ∃ l, map_find (price (storage_ e !!! 4%nat))
           (side_map (side (storage_ e !!! 4%nat)) (book_ e)) = Some l ∧
         map_find (price (storage_ e !!! 4%nat))
           (side_map (side (storage_ e !!! 4%nat)) (book_ e'))
         = Some (PriceLevel.mk (PriceLevel.price l) (orders_ l)
                   (wrap64 (totalQty_ l
                            - (quantity (storage_ e !!! 4%nat) - 3)))).
Proof.
  intros e.
  assert (H1 : OrderBook.getOrder 5 (book_ e) = Some 4%nat)
    by (vm_compute; reflexivity).
  assert (H2 : 3 < quantity (storage_ e !!! 4%nat))
    by (vm_compute; reflexivity).
  exact (conj reachable_demo (conj H1 (conj H2
    (X9_reduce_keeps_the_queue_position e 5 4%nat 3 9 reachable_demo H1 H2)))).
Defined.

(** ** The stored orders over the life of the engine *)

(** Every order of [h] is in [h'] at the same place, with the same fields
    but for a remaining quantity that has not grown. *)
Definition store_grows (h h' : list Order) : Prop :=
  ∀ k o, h !! k = Some o →
    ∃ q, h' !! k = Some (set_quantity q o) ∧ 0 ≤ q ≤ quantity o.

Lemma set_quantity_same o : set_quantity (quantity o) o = o.
Proof. by destruct o. Qed.

Lemma store_grows_refl h :
  Forall (λ o, u64 (quantity o)) h → store_grows h h.
Proof.
  intros Hu k o Hk. exists (quantity o). rewrite set_quantity_same.
  split; [done|]. pose proof (proj1 (Forall_lookup _ _) Hu _ _ Hk) as [? _].
  simpl in *. lia.
Qed.

Lemma submit_store_grows s p qty ts e trades e' :
  Inv e → u64 qty →
  MatchingEngine.submitOrder s p qty ts e = Returns trades e' →
  store_grows (storage_ e) (storage_ e') ∧
  length (storage_ e') = S (length (storage_ e)) ∧
  nextOrderId_ e' = wrap64 (nextOrderId_ e + 1) ∧
  storage_ e' !! length (storage_ e)
  = Some (mkOrder (nextOrderId_ e) s p (qty - filled trades) qty ts) ∧
  0 ≤ filled trades ≤ qty.
Proof.
  intros HI Hq Hrun.
  destruct (submit_facts s p qty ts e trades e' HI Hq Hrun)
    as (Hpost & removed & part & Htr).
  destruct (fills_bounds _ _ _ _ _ _ _ (sp_fills _ _ _ _ _ _ Hpost))
    as (Hnn & Hrem & Hq');
    [apply (inv_store _ HI)|apply Hq|].
  assert (Hfl : 0 ≤ filled trades).
  { clear -Hnn. induction Hnn; simpl; lia. }
  split; [|split; [apply (st_len _ _ _ _ _ _ _ _ _ Htr)|
           split; [apply (st_next _ _ _ _ _ _ _ _ _ Htr)|
           split; [apply (st_new _ _ _ _ _ _ _ _ _ Htr)|lia]]]].
  intros k o Hk.
  pose proof (lookup_lt_Some _ _ _ Hk) as Hlt.
  pose proof (frozen_lookup _ _ k o (st_frozen _ _ _ _ _ _ _ _ _ Htr) Hk) as Hk'.
  rewrite lookup_take_lt in Hk' by done.
  rewrite lookup_total_take, decide_True in Hk' by done.
  eexists. split; [exact Hk'|].
  pose proof (store_u64_total _ k (sp_u64 _ _ _ _ _ _ Hpost)) as [H0 _].
  split; [done|].
  rewrite <- (list_lookup_total_correct _ _ _ Hk).
  destruct (decide (k ∈ removed ++ part)) as [Hin|Hin].
  - apply list_elem_of_lookup in Hin as [j Hj].
    destruct (Forall2_lookup_l _ _ _ _ _ (st_qty _ _ _ _ _ _ _ _ _ Htr) Hj)
      as (tr & Htrj & ->).
    pose proof (proj1 (Forall_lookup _ _) Hnn _ _ Htrj). simpl in *. lia.
  - rewrite (st_frame _ _ _ _ _ _ _ _ _ Htr) by done. lia.
Qed.

(** What a call does to the store and the id counter: nothing, or a write
    of quantities that do not grow, with or without one order appended
    under the next id. *)
Record store_step (e e' : MatchingEngine.t) : Prop := {
  ss_grows : store_grows (storage_ e) (storage_ e');
  ss_next : length (storage_ e') = length (storage_ e) ∧
            nextOrderId_ e' = nextOrderId_ e ∨
            length (storage_ e') = S (length (storage_ e)) ∧
            nextOrderId_ e' = wrap64 (nextOrderId_ e + 1) ∧
            ∃ o, storage_ e' !! length (storage_ e) = Some o ∧
                 id o = nextOrderId_ e ∧ 0 ≤ quantity o ≤ originalQty o
}.

Lemma store_step_refl e : Inv e → store_step e e.
Proof.
  intros HI. split; [|by left]. apply store_grows_refl, (inv_store _ HI).
Qed.

Lemma store_step_submit s p qty ts e trades e' :
  Inv e → u64 qty →
  MatchingEngine.submitOrder s p qty ts e = Returns trades e' →
  store_step e e'.
Proof.
  intros HI Hq Hrun.
  destruct (submit_store_grows s p qty ts e trades e' HI Hq Hrun)
    as (Hg & Hlen & Hnext & Hnew & Hfl).
  split; [done|]. right. split; [done|]. split; [done|].
  eexists. split; [exact Hnew|]. simpl. split; [done|lia].
Qed.

Lemma store_step_apply op e e' :
  Inv e → valid_op op → apply_op op e = Some e' → store_step e e'.
Proof.
  intros HI Hv. destruct op as [s p qty ts|i|i p qty ts];
    cbn [apply_op valid_op] in *.
  - destruct (MatchingEngine.submitOrder s p qty ts e) as [trades e1| |] eqn:Hs;
      simpl; intros [= <-].
    + eapply store_step_submit; [done| |done]. tauto.
    + by unfold MatchingEngine.submitOrder in Hs; destruct (MatchingEngine.match_ _ _ _).
  - unfold MatchingEngine.cancelOrder. simpl. intros [= <-].
    split; simpl; [|by left]. apply store_grows_refl, (inv_store _ HI).
  - unfold MatchingEngine.modifyOrder, OrderBook.getOrder.
    destruct (index_ (book_ e) !! i) as [o|] eqn:Hio; simpl.
    2:{ intros [= <-]. by apply store_step_refl. }
    destruct (decide (p = price (storage_ e !!! o))) as [->|Hp].
    + destruct (qty >=? quantity (storage_ e !!! o)) eqn:Eq; simpl;
        intros [= <-]; [by apply store_step_refl|].
      assert (Hlt : qty < quantity (storage_ e !!! o)).
      { rewrite Z.geb_leb in Eq. by apply Z.leb_gt in Eq. }
      destruct (modify_live (storage_ e) i qty (book_ e) o (inv_book _ HI)
                  Hio Hlt) as (_ & -> & _).
      split; simpl; [|left; split; [apply store_quantity_length|done]].
      intros k x Hk. unfold store_quantity. rewrite list_lookup_alter.
      case_decide as Hko.
      * subst k. rewrite Hk. simpl. eexists. split; [done|].
        rewrite (list_lookup_total_correct _ _ _ Hk) in Hlt.
        destruct Hv as (_ & _ & [? _] & _). lia.
      * rewrite Hk. exists (quantity x). rewrite set_quantity_same.
        split; [done|].
        destruct (inv_store _ HI) as [_ Hu].
        pose proof (proj1 (Forall_lookup _ _) Hu _ _ Hk) as [? _].
        simpl in *. lia.
    + destruct (cancel_Inv i e HI) as (r & e1 & Hc & HI1 & Hs1 & Hn1 & _).
      unfold MatchingEngine.cancelOrder in Hc. injection Hc as _ <-.
      destruct (MatchingEngine.submitOrder _ p qty ts _) as [trades e2| |] eqn:Hs;
        simpl; intros [= <-].
      * eapply store_step_submit in Hs; [|done|tauto].
        destruct Hs as [Hg Hn]. by split.
      * by unfold MatchingEngine.submitOrder in Hs;
          destruct (MatchingEngine.match_ _ _ _).
Qed.

(** X10. No call deletes or rewrites a stored order.  After any call every
    order stored before is still stored at the same place with the same
    id, side, price, original quantity and timestamp, and a remaining
    quantity that is not negative and has not grown; the store has the same
    length, or one more order under the id that was next. *)
Theorem X10_stored_orders_only_lose_quantity e op e' :
  reachable e → valid_op op → apply_op op e = Some e' →
  (∀ k o, storage_ e !! k = Some o →
     ∃ q, storage_ e' !! k = Some (set_quantity q o) ∧ 0 ≤ q ≤ quantity o) ∧
  (length (storage_ e') = length (storage_ e) ∧
   nextOrderId_ e' = nextOrderId_ e ∨
   length (storage_ e') = S (length (storage_ e)) ∧
   nextOrderId_ e' = wrap64 (nextOrderId_ e + 1) ∧
   ∃ o, storage_ e' !! length (storage_ e) = Some o ∧
        id o = nextOrderId_ e ∧ 0 ≤ quantity o ≤ originalQty o).
Proof.
  intros Hr Hv Hrun. pose proof (reachable_Inv' e Hr) as HI.
  by destruct (store_step_apply op e e' HI Hv Hrun).
Qed.

Lemma X10_witness :
  let e := state_of ops_demo in
  let op := OpModify 5 10050 7 8 in
  let e' := default e (apply_op op e) in
  reachable e ∧ valid_op op ∧ apply_op op e = Some e' ∧
  (∀ k o, storage_ e !! k = Some o →
     ∃ q, storage_ e' !! k = Some (set_quantity q o) ∧ 0 ≤ q ≤ quantity o) ∧
  (length (storage_ e') = length (storage_ e) ∧
   nextOrderId_ e' = nextOrderId_ e ∨
   length (storage_ e') = S (length (storage_ e)) ∧
   nextOrderId_ e' = wrap64 (nextOrderId_ e + 1) ∧
   ∃ o, storage_ e' !! length (storage_ e) = Some o ∧
        id o = nextOrderId_ e ∧ 0 ≤ quantity o ≤ originalQty o).
Proof.
  intros e op e'.
  assert (Hv : valid_op op) by (unfold op; simpl; unfold u64, i64; lia).
  assert (H : apply_op op e = Some e') by (vm_compute; reflexivity).
  exact (conj reachable_demo (conj Hv (conj H
    (X10_stored_orders_only_lose_quantity e op e' reachable_demo Hv H)))).
Defined.

(** The orders are stored in the order of their ids, which count from 1,
    and none has more remaining than its original quantity. *)
Definition store_seq (e : MatchingEngine.t) : Prop :=
  nextOrderId_ e = Z.of_nat (length (storage_ e)) + 1 ∧
  ∀ k o, storage_ e !! k = Some o →
    id o = Z.of_nat k + 1 ∧ 0 ≤ quantity o ≤ originalQty o.

Lemma store_seq_step e e' :
  store_seq e → nextOrderId_ e + 1 < 2 ^ 64 → store_step e e' → store_seq e'.
Proof.
  intros [Hn Hall] Hw [Hg Hnext].
  assert (Hold : ∀ k, (k < length (storage_ e))%nat → ∀ o,
            storage_ e' !! k = Some o →
            id o = Z.of_nat k + 1 ∧ 0 ≤ quantity o ≤ originalQty o).
  { intros k Hk o Ho.
    destruct (lookup_lt_is_Some_2 _ _ Hk) as [x Hx].
    destruct (Hg k x Hx) as (q & Hq & Hle). rewrite Hq in Ho.
    injection Ho as <-. destruct (Hall k x Hx) as [Hid Hqx].
    simpl. split; [done|lia]. }
  destruct Hnext as [[Hlen Hn']|(Hlen & Hn' & x & Hx & Hid & Hqx)].
  - split; [by rewrite Hn', Hlen|].
    intros k o Ho. apply Hold; [|done].
    rewrite <- Hlen. by eapply lookup_lt_Some.
  - split.
    + rewrite Hn', Hlen, wrap64_small; [lia|].
      unfold u64. lia.
    + intros k o Ho.
      destruct (decide (k < length (storage_ e))%nat) as [Hk|Hk];
        [by apply Hold|].
      pose proof (lookup_lt_Some _ _ _ Ho) as Hk'.
      assert (k = length (storage_ e)) as -> by lia.
      rewrite Hx in Ho. injection Ho as <-. split; [lia|done].
Qed.

Lemma run_store_seq ops : ∀ e e',
  Inv e → store_seq e → Forall valid_op ops →
  nextOrderId_ e + Z.of_nat (length ops) < 2 ^ 64 →
  run ops e = Some e' → store_seq e'.
Proof.
  induction ops as [|op ops IH]; intros e e' HI Hseq Hv Hw Hrun; simpl in *.
  - by injection Hrun as <-.
  - apply Forall_cons in Hv as [Hop Hv].
    destruct (step_ok op e HI Hop) as (e1 & Hstep & HI1 & Hn1); [lia|].
    rewrite Hstep in Hrun.
    apply (IH e1 e'); try done; [|lia].
    eapply store_seq_step; [done|lia|].
    by eapply store_step_apply.
Qed.

(** X11. The ids are handed out in sequence and the store is in id order:
    the order at position [k] of the store has id [k + 1], the next id is
    the number of stored orders plus one, and no stored order has a
    negative remaining quantity or more remaining than its original
    quantity.  The pointer the index keeps for a live id [i] is therefore
    position [i - 1] of the store. *)
Theorem X11_ids_count_the_stored_orders e :
  reachable e →
  nextOrderId_ e = Z.of_nat (length (storage_ e)) + 1 ∧
  (∀ k o, storage_ e !! k = Some o →
     id o = Z.of_nat k + 1 ∧ 0 ≤ quantity o ≤ originalQty o) ∧
  (∀ i o, OrderBook.getOrder i (book_ e) = Some o → Z.of_nat o = i - 1).
Proof.
  intros Hr. pose proof (reachable_Inv' e Hr) as HI.
  destruct Hr as (ops & Hv & Hw & Hrun).
  assert (Hseq : store_seq e).
  { apply (run_store_seq ops MatchingEngine.new e Inv_new); [|done| |done].
    - split; [done|]. simpl. intros k o Hk. by rewrite lookup_nil in Hk.
    - simpl. lia. }
  destruct Hseq as [Hn Hall]. split; [done|]. split; [done|].
  intros i o Hio. destruct (bk_index _ _ (inv_book _ HI) _ _ Hio) as [Hid Hptr].
  pose proof (book_ptrs_valid _ _ _ (inv_book _ HI) Hptr) as Hlt.
  destruct (Hall o _ (list_lookup_lookup_total_lt _ _ Hlt)) as [Hido _]. lia.
Qed.

Lemma X11_witness :
  let e := state_of ops_demo in
  reachable e ∧
  nextOrderId_ e = Z.of_nat (length (storage_ e)) + 1 ∧
  (∀ k o, storage_ e !! k = Some o →
     id o = Z.of_nat k + 1 ∧ 0 ≤ quantity o ≤ originalQty o) ∧
  (∀ i o, OrderBook.getOrder i (book_ e) = Some o → Z.of_nat o = i - 1).
Proof.
  intros e.
  exact (conj reachable_demo (X11_ids_count_the_stored_orders e reachable_demo)).
Defined.

(** ** When [modifyOrder] throws, and when [submitOrder] trades *)

(** X12. On a state the engine reaches [modifyOrder] comes back: it throws,
    leaving the engine as it was, exactly when the id is not live or the
    price is the order's own and the quantity is not smaller than what
    remains; otherwise it returns, with no trades when the price is the
    order's own. *)
Theorem X12_modify_throws_or_returns e i p qty ts :
  reachable e → u64 qty →
  match MatchingEngine.modifyOrder i p qty ts e with
  | Returns trades e' =>
      ∃ o, OrderBook.getOrder i (book_ e) = Some o ∧
           (p = price (storage_ e !!! o) →
            qty < quantity (storage_ e !!! o) ∧ trades = [])
  | Throws _ e' =>
      e' = e ∧
      (OrderBook.getOrder i (book_ e) = None ∨
       ∃ o, OrderBook.getOrder i (book_ e) = Some o ∧
            p = price (storage_ e !!! o) ∧ quantity (storage_ e !!! o) ≤ qty)
  | OutOfFuel => False
  end.
Proof.
  intros Hr Hq. pose proof (reachable_Inv' e Hr) as HI.
  unfold MatchingEngine.modifyOrder.
  destruct (OrderBook.getOrder i (book_ e)) as [o|] eqn:Hio; [|by auto].
  destruct (decide (p = price (storage_ e !!! o))) as [->|Hp].
  - destruct (qty >=? quantity (storage_ e !!! o)) eqn:Eq.
    + split; [done|]. right. exists o. rewrite Z.geb_leb in Eq.
      apply Z.leb_le in Eq. done.
    + exists o. split; [done|]. intros _. rewrite Z.geb_leb in Eq.
      by apply Z.leb_gt in Eq.
  - destruct (cancel_Inv i e HI) as (r & e1 & Hc & HI1 & _).
    unfold MatchingEngine.cancelOrder in Hc. injection Hc as _ <-.
    destruct HI1 as [Hb Hnb Hna Hst Hn].
    destruct (submitOrder_spec (side (storage_ e !!! o)) p qty ts _
                Hb Hnb Hna Hst) as (trades & e' & -> & _); [lia|done|].
    exists o. by split.
Qed.

Lemma X12_witness :
  let e := state_of ops_demo in
  reachable e ∧ u64 30 ∧
  match MatchingEngine.modifyOrder 5 10000 30 9 e with
  | Returns trades e' =>
      ∃ o, OrderBook.getOrder 5 (book_ e) = Some o ∧
           (10000 = price (storage_ e !!! o) →
            30 < quantity (storage_ e !!! o) ∧ trades = [])
  | Throws _ e' =>
      e' = e ∧
      (OrderBook.getOrder 5 (book_ e) = None ∨
       ∃ o, OrderBook.getOrder 5 (book_ e) = Some o ∧
            10000 = price (storage_ e !!! o) ∧ quantity (storage_ e !!! o) ≤ 30)
  | OutOfFuel => False
  end.
Proof.
  intros e.
  assert (Hq : u64 30) by (unfold u64; lia).
  exact (conj reachable_demo (conj Hq
    (X12_modify_throws_or_returns e 5 10000 30 9 reachable_demo Hq))).
Defined.

Lemma fillLevel_trades_grow fuel t : ∀ st f,
  MatchingEngine.fillLevel fuel t st = Some f →
  ∃ new, f_trades f = f_trades st ++ new.
Proof.
  induction fuel as [|fuel IH]; intros st f Hrun; [done|].
  rewrite fillLevel_S in Hrun. cbv zeta in Hrun.
  destruct (_ && _).
  2:{ injection Hrun as <-. exists []. by rewrite app_nil_r. }
  destruct (PriceLevel.getFront _); [|done].
  destruct (_ =? 0); apply IH in Hrun as [new Hnew]; simpl in Hnew;
    eexists; by rewrite Hnew, <- app_assoc.
Qed.

Lemma walk_trades_grow fuel opp t : ∀ st m,
  MatchingEngine.walk fuel opp t st = Some m →
  ∃ new, m_trades m = m_trades st ++ new.
Proof.
  induction fuel as [|fuel IH]; intros st m Hrun; [done|].
  assert (Hsame : Some st = Some m → ∃ new, m_trades m = m_trades st ++ new).
  { intros [= <-]. exists []. by rewrite app_nil_r. }
  rewrite walk_S in Hrun.
  destruct (side_map opp (m_book st)) as [|[p l] rest]; [by apply Hsame|].
  destruct (0 <? _); [|by apply Hsame].
  destruct (MatchingEngine.leaves _ _ _); [by apply Hsame|].
  destruct (MatchingEngine.fillLevel _ _ _) as [f|] eqn:Hf; [|done].
  apply fillLevel_trades_grow in Hf as [new1 H1]. simpl in H1.
  apply IH in Hrun as [new2 H2]. simpl in H2.
  eexists. by rewrite H2, H1, <- app_assoc.
Qed.

(** X13. [submitOrder] returns no trades exactly when the order does not
    cross the book: its quantity is zero, or the opposite side is empty, or
    the best price of the opposite side is beyond its limit (above it for a
    buy, below it for a sell). *)
Theorem X13_trades_exactly_when_crossing e s p qty ts trades e' :
  reachable e → u64 qty →
  MatchingEngine.submitOrder s p qty ts e = Returns trades e' →
  trades = [] ↔
  qty = 0 ∨
  match best (opposite s) (book_ e) with
  | None => True
  | Some k => match s with Buy => p < k | Sell => k < p end
  end.
Proof.
  intros Hr Hq Hrun. pose proof (reachable_Inv' e Hr) as HI.
  revert Hrun. unfold MatchingEngine.submitOrder, MatchingEngine.match_.
  set (order := mkOrder (nextOrderId_ e) s p qty qty ts).
  set (raw := length (storage_ e)).
  set (h := storage_ e ++ [order]).
  assert (Hraw : h !!! raw = order) by apply list_lookup_total_middle, eq_refl.
  rewrite Hraw. simpl. rewrite walk_S. simpl. rewrite Hraw. simpl.
  rewrite best_head.
  assert (Hne : nonempty (side_map (opposite s) (book_ e))).
  { destruct s; [apply (inv_asks _ HI)|apply (inv_bids _ HI)]. }
  destruct (side_map (opposite s) (book_ e)) as [|[k l] rest].
  { intros [= <- _]. split; [by right|done]. }
  destruct (0 <? qty) eqn:Eq.
  2:{ intros [= <- _]. apply Z.ltb_ge in Eq. destruct Hq. split; [|done].
      intros _. left. lia. }
  apply Z.ltb_lt in Eq.
  destruct (MatchingEngine.leaves (opposite s) k p) eqn:El.
  { intros [= <- _]. split; [|done]. intros _. right.
    destruct s; simpl in El; lia. }
  apply Forall_cons in Hne as [Hne _]. simpl in Hne.
  rewrite fillLevel_S. simpl. rewrite Hraw. simpl.
  assert ((0 <? qty) = true) as -> by (by apply Z.ltb_lt).
  unfold PriceLevel.empty, PriceLevel.getFront.
  destruct (orders_ l) as [|maker os] eqn:Hos; [done|]. simpl.
  intros Hrun.
  assert (trades ≠ []) as Hnon.
  { destruct (_ =? 0);
      (destruct (MatchingEngine.fillLevel _ _ _) as [f|] eqn:Hf; [|done]);
      apply fillLevel_trades_grow in Hf as [new1 H1]; simpl in H1;
      (destruct (MatchingEngine.walk _ _ _ _) as [m|] eqn:Hw; [|done]);
      apply walk_trades_grow in Hw as [new2 H2]; simpl in H2;
      injection Hrun as <- _; rewrite H2, H1; by destruct new1. }
  split; [done|]. intros [->|Hlim]; [lia|].
  destruct s; simpl in El; lia.
Qed.

Lemma X13_witness :
  let e := state_of ops_demo in
  let r := MatchingEngine.submitOrder Buy 10040 5 9 e in
  reachable e ∧ u64 5 ∧ r = Returns (trades_of r) (engine_of r) ∧
  (trades_of r = [] ↔
   5 = 0 ∨
   match best (opposite Buy) (book_ e) with
   | None => True
   | Some k => 10040 < k
   end).
Proof.
  intros e r.
  assert (Hq : u64 5) by (unfold u64; lia).
  assert (H : r = Returns (trades_of r) (engine_of r))
    by (vm_compute; reflexivity).
  exact (conj reachable_demo (conj Hq (conj H
    (X13_trades_exactly_when_crossing e Buy 10040 5 9 _ _
       reachable_demo Hq H)))).
Defined.

(** ** Resting and cancelling again *)

Lemma level_eta (l : PriceLevel.t) :
  PriceLevel.mk (PriceLevel.price l) (orders_ l) (totalQty_ l) = l.
Proof. by destruct l. Qed.

(** Taking the order just added to a side out again gives the side back. *)
Lemma cancel_in_add_in s h idx raw i p m :
  side_ok h idx s m → nonempty m →
  id (h !!! raw) = i → idx !! i = None → raw ∉ ptrs_of m →
  u64 (quantity (h !!! raw)) →
  OrderBook.cancel_in h i p (OrderBook.add_in (side_comp s) h raw p m) = m.
Proof.
  intros [Hlev Hso] Hne Hid Hfresh Hraw Hq.
  destruct (add_in_spec s h raw p m Hso) as (m1 & l0 & m2 & -> & Hso' & Hm).
  destruct (sorted_middle_fresh _ _ _ _ _ Hso') as [Hk1 _].
  assert (Hl0 : level_ok h idx s (p, l0) ∧ (∀ o, o ∈ orders_ l0 → o ∈ ptrs_of m)).
  { destruct Hm as [->|[-> ->]].
    - apply Forall_app in Hlev as [_ Hlev].
      apply Forall_cons in Hlev as [? _]. split; [done|].
      intros o Ho. rewrite ptrs_of_app, ptrs_of_cons. set_solver.
    - split; [apply level_ok_new|]. intros o Ho. by apply elem_of_nil in Ho. }
  destruct Hl0 as [[Hrest Htot] Hsub]. simpl in Hrest, Htot.
  unfold OrderBook.cancel_in. rewrite map_find_split by done.
  unfold PriceLevel.removeOrder, PriceLevel.addOrder. simpl.
  rewrite (erase_id_spec h i (orders_ l0) raw []); [|done| |].
  2:{ intros o' Ho' Hid'. apply elem_of_app in Ho' as [Ho'|Ho'].
      - pose proof (proj1 (Forall_forall _ _) Hrest _ Ho') as (_ & _ & _ & Hix).
        rewrite Hid', Hfresh in Hix. done.
      - by apply list_elem_of_singleton in Ho'. }
  2:{ intros Hin. by apply Hraw, Hsub. }
  simpl. rewrite app_nil_r.
  assert (Hback : wrap64 (wrap64 (totalQty_ l0 + quantity (h !!! raw))
                          - quantity (h !!! raw)) = totalQty_ l0).
  { rewrite wrap64_sub_l.
    replace (totalQty_ l0 + quantity (h !!! raw) - quantity (h !!! raw))
      with (totalQty_ l0) by lia.
    rewrite Htot. apply wrap64_small, wrap64_u64. }
  rewrite Hback, level_eta.
  destruct Hm as [->|[-> ->]].
  - apply Forall_app in Hne as [_ Hne]. apply Forall_cons in Hne as [Hne _].
    simpl in Hne. unfold PriceLevel.empty.
    destruct (orders_ l0) eqn:E; [done|]. by apply map_set_split.
  - simpl. by apply map_erase_split.
Qed.

(** X14. Submit and cancel are inverse on the book.  When [submitOrder]
    for a positive quantity returns no trades, cancelling the id it
    assigned ([lastOrderId]) returns [true] and the book is again exactly
    the book before the submit: the same levels with the same queues and
    totals and the same index.  The order stays in the store and the id
    counter is not moved back. *)
Theorem X14_cancel_undoes_a_resting_submit e s p qty ts e1 :
  reachable e → u64 qty → 0 < qty →
  MatchingEngine.submitOrder s p qty ts e = Returns [] e1 →
  ∃ e2,
    MatchingEngine.cancelOrder (MatchingEngine.lastOrderId e1) e1
    = Returns true e2 ∧
    book_ e2 = book_ e ∧
    storage_ e2 = storage_ e ++ [mkOrder (nextOrderId_ e) s p qty qty ts] ∧
    nextOrderId_ e2 = wrap64 (nextOrderId_ e + 1).
Proof.
  intros Hr Hq Hpos Hrun. pose proof (reachable_Inv' e Hr) as HI.
  assert (Hlast : MatchingEngine.lastOrderId e1 = nextOrderId_ e).
  { revert Hrun. unfold MatchingEngine.submitOrder.
    destruct (MatchingEngine.match_ _ _ _); [|done]. intros [= _ <-].
    unfold MatchingEngine.lastOrderId. simpl.
    apply lastOrderId_after_submit. pose proof (inv_next _ HI). unfold u64. lia. }
  rewrite Hlast. clear Hlast. revert Hrun.
  unfold MatchingEngine.submitOrder, MatchingEngine.match_.
  set (order := mkOrder (nextOrderId_ e) s p qty qty ts).
  set (raw := length (storage_ e)).
  set (h := storage_ e ++ [order]).
  assert (Hraw : h !!! raw = order) by apply list_lookup_total_middle, eq_refl.
  rewrite Hraw. simpl.
  destruct (MatchingEngine.walk _ _ _ _) as [m|] eqn:Hwalk; [|done].
  intros Hrun.
  assert (Hm : m = MatchingEngine.mkMatch h (book_ e) []).
  { assert (Htr : m_trades m = []) by (by injection Hrun).
    revert Hwalk. rewrite walk_S. simpl. rewrite Hraw. simpl.
    assert (Hne : nonempty (side_map (opposite s) (book_ e))).
    { destruct s; [apply (inv_asks _ HI)|apply (inv_bids _ HI)]. }
    destruct (side_map (opposite s) (book_ e)) as [|[k l] rest];
      [by intros [= <-]|].
    assert ((0 <? qty) = true) as -> by (by apply Z.ltb_lt).
    destruct (MatchingEngine.leaves (opposite s) k p); [by intros [= <-]|].
    apply Forall_cons in Hne as [Hne _]. simpl in Hne.
    rewrite fillLevel_S. simpl. rewrite Hraw. simpl.
    assert ((0 <? qty) = true) as -> by (by apply Z.ltb_lt).
    unfold PriceLevel.empty, PriceLevel.getFront.
    destruct (orders_ l) as [|maker os] eqn:Hos; [done|]. simpl.
    intros Hwalk. exfalso.
    destruct (_ =? 0);
      (destruct (MatchingEngine.fillLevel _ _ _) as [f|] eqn:Hf; [|done]);
      apply fillLevel_trades_grow in Hf as [new1 H1]; simpl in H1;
      apply walk_trades_grow in Hwalk as [new2 H2]; simpl in H2;
      rewrite H2, H1 in Htr; by destruct new1. }
  subst m. simpl in Hrun. rewrite Hraw in Hrun. simpl in Hrun.
  assert ((0 <? qty) = true) as Hpos' by (by apply Z.ltb_lt).
  rewrite Hpos' in Hrun. injection Hrun as <-.
  unfold MatchingEngine.cancelOrder. simpl.
  pose proof (inv_book _ HI) as Hb.
  destruct (inv_store _ HI) as [Hids Hu].
  assert (Hfresh : index_ (book_ e) !! nextOrderId_ e = None)
    by (by eapply next_id_fresh).
  assert (Hcancel : OrderBook.cancelOrder h (nextOrderId_ e)
                      (OrderBook.addOrder h raw (book_ e)) = (true, book_ e)).
  { rewrite cancelOrder_side, addOrder_side, Hraw. simpl.
    rewrite index_with, lookup_insert_eq, Hraw. simpl.
    rewrite side_map_with. f_equal.
    rewrite (cancel_in_add_in s h (index_ (book_ e))).
    - rewrite delete_insert_eq, delete_id by done.
      destruct s; simpl; by destruct (book_ e).
    - by apply (book_ok_side s), book_ok_push.
    - destruct s; [apply (inv_bids _ HI)|apply (inv_asks _ HI)].
    - by rewrite Hraw.
    - done.
    - intros Hin.
      assert (raw < length (storage_ e))%nat; [|unfold raw in *; lia].
      apply (book_ptrs_valid _ (book_ e)); [done|].
      apply elem_of_book_ptrs. by exists s.
    - by rewrite Hraw. }
  rewrite Hcancel. by eexists.
Qed.

Lemma X14_witness :
  let e := state_of ops_demo in
  let r := MatchingEngine.submitOrder Buy 10040 5 9 e in
  reachable e ∧ u64 5 ∧ 0 < 5 ∧ r = Returns [] (engine_of r) ∧
  ∃ e2,
    MatchingEngine.cancelOrder (MatchingEngine.lastOrderId (engine_of r))
      (engine_of r) = Returns true e2 ∧
    book_ e2 = book_ e ∧
    storage_ e2 = storage_ e ++ [mkOrder (nextOrderId_ e) Buy 10040 5 5 9] ∧
    nextOrderId_ e2 = wrap64 (nextOrderId_ e + 1).
Proof.
  intros e r.
  assert (Hq : u64 5) by (unfold u64; lia).
  assert (Hp : 0 < 5) by lia.
  assert (H : r = Returns [] (engine_of r)) by (vm_compute; reflexivity).
  exact (conj reachable_demo (conj Hq (conj Hp (conj H
    (X14_cancel_undoes_a_resting_submit e Buy 10040 5 9 _
       reachable_demo Hq Hp H))))).
Defined.

(** ** Positive quantities *)

Definition positive_op (op : Op) : Prop :=
  match op with
  | OpSubmit _ _ qty _ => 0 < qty
  | OpCancel _ => True
  | OpModify _ _ qty _ => 0 < qty
  end.

(** Every live order has something left to trade. *)
Definition live_positive (e : MatchingEngine.t) : Prop :=
  ∀ i o, index_ (book_ e) !! i = Some o → 0 < quantity (storage_ e !!! o).

Lemma submit_positive s p qty ts e trades e' :
  Inv e → live_positive e → u64 qty →
  MatchingEngine.submitOrder s p qty ts e = Returns trades e' →
  Forall (λ tr, 0 < trade_quantity tr) trades ∧ live_positive e'.
Proof.
  intros HI Hpos Hq Hrun.
  destruct (submit_facts s p qty ts e trades e' HI Hq Hrun)
    as (Hpost & removed & part & Htr).
  split.
  - eapply Forall2_Forall_r; [exact (st_pos _ _ _ _ _ _ _ _ _ Htr)|].
    apply Forall_forall. intros o Ho tr Himp. apply Himp.
    destruct (trace_resting _ _ _ _ _ _ _ _ _ HI Htr o Ho)
      as (_ & _ & _ & Hix & _).
    by eapply Hpos.
  - intros i o. rewrite (st_index _ _ _ _ _ _ _ _ _ Htr).
    case_decide as Hi.
    + destruct (0 <? qty - filled trades) eqn:E; [|done]. intros [= <-].
      apply Z.ltb_lt in E.
      rewrite (list_lookup_total_correct _ _ _ (st_new _ _ _ _ _ _ _ _ _ Htr)).
      done.
    + case_decide as Hrm; [done|]. intros Hio.
      pose proof (Hpos _ _ Hio) as Hqo.
      destruct (bk_index _ _ (inv_book _ HI) _ _ Hio) as [Hid Hptr].
      pose proof (book_ptrs_valid _ _ _ (inv_book _ HI) Hptr) as Hlt.
      destruct (decide (o ∈ removed ++ part)) as [Hin|Hin].
      * apply elem_of_app in Hin as [Hin|Hin].
        -- exfalso. apply Hrm. apply list_elem_of_fmap. by exists o.
        -- pose proof (proj1 (Forall_forall _ _)
                         (st_live _ _ _ _ _ _ _ _ _ Htr) _ Hin) as Hnz.
           pose proof (store_u64_total _ o (sp_u64 _ _ _ _ _ _ Hpost))
             as [H0 _].
           simpl in *. lia.
      * by rewrite (st_frame _ _ _ _ _ _ _ _ _ Htr).
Qed.

Lemma apply_positive op e e' :
  Inv e → live_positive e → valid_op op → positive_op op →
  apply_op op e = Some e' → live_positive e'.
Proof.
  intros HI Hpos Hv Hp. destruct op as [s p qty ts|i|i p qty ts];
    cbn [apply_op valid_op positive_op] in *.
  - destruct (MatchingEngine.submitOrder s p qty ts e) as [trades e1| |] eqn:Hs;
      simpl; intros [= <-].
    + eapply submit_positive in Hs; [apply Hs|done..|tauto].
    + by unfold MatchingEngine.submitOrder in Hs;
        destruct (MatchingEngine.match_ _ _ _).
  - destruct (cancel_Inv i e HI) as (r & e1 & -> & _ & Hst & _ & Hix).
    simpl. intros [= <-] j o. rewrite Hix, Hst.
    intros [_ Hjo]%lookup_delete_Some. by eapply Hpos.
  - unfold MatchingEngine.modifyOrder, OrderBook.getOrder.
    destruct (index_ (book_ e) !! i) as [o|] eqn:Hio; simpl.
    2:{ by intros [= <-]. }
    destruct (decide (p = price (storage_ e !!! o))) as [->|Hne].
    + destruct (qty >=? quantity (storage_ e !!! o)) eqn:Eq; simpl;
        intros [= <-]; [done|].
      assert (Hlt : qty < quantity (storage_ e !!! o)).
      { rewrite Z.geb_leb in Eq. by apply Z.leb_gt in Eq. }
      destruct (modify_live (storage_ e) i qty (book_ e) o (inv_book _ HI)
                  Hio Hlt) as (_ & Hst & Hix & _).
      intros j o'. cbn [MatchingEngine.book_ MatchingEngine.storage_].
      rewrite Hst, Hix. intros Hjo.
      destruct (decide (o' = o)) as [->|Hoo].
      * rewrite store_quantity_eq; [done|].
        apply (book_ptrs_valid _ (book_ e)); [apply (inv_book _ HI)|].
        by destruct (bk_index _ _ (inv_book _ HI) _ _ Hio).
      * rewrite store_quantity_ne by done. by eapply Hpos.
    + destruct (cancel_Inv i e HI) as (r & e1 & Hc & HI1 & Hs1 & Hn1 & Hi1).
      unfold MatchingEngine.cancelOrder in Hc. injection Hc as _ <-.
      destruct (MatchingEngine.submitOrder _ p qty ts _) as [trades e2| |] eqn:Hs;
        simpl; intros [= <-].
      * eapply submit_positive in Hs; [apply Hs|done| |tauto].
        intros j o'. simpl in *. rewrite Hi1.
        intros [_ Hjo]%lookup_delete_Some. by eapply Hpos.
      * by unfold MatchingEngine.submitOrder in Hs;
          destruct (MatchingEngine.match_ _ _ _).
Qed.

Lemma run_positive ops : ∀ e e',
  Inv e → live_positive e → Forall valid_op ops → Forall positive_op ops →
  nextOrderId_ e + Z.of_nat (length ops) < 2 ^ 64 →
  run ops e = Some e' → live_positive e'.
Proof.
  induction ops as [|op ops IH]; intros e e' HI Hpos Hv Hp Hw Hrun;
    simpl in *.
  - by injection Hrun as <-.
  - apply Forall_cons in Hv as [Hop Hv]. apply Forall_cons in Hp as [Hpop Hp].
    destruct (step_ok op e HI Hop) as (e1 & Hstep & HI1 & Hn1); [lia|].
    rewrite Hstep in Hrun.
    apply (IH e1 e'); try done; [|lia].
    exact (apply_positive op e e1 HI Hpos Hop Hpop Hstep).
Qed.

(** A modify to quantity zero is accepted: the order stays live with
    nothing remaining, and the next order that crosses it trades zero
    against it. *)
Lemma zero_quantity_trade :
  let e := state_of [OpSubmit Buy 10000 10 1; OpModify 1 10000 0 2] in
  OrderBook.hasOrder 1 (book_ e) = true ∧
  trades_of (MatchingEngine.submitOrder Sell 10000 5 3 e)
  = [mkTrade 1 2 10000 0].
Proof. vm_compute. split; reflexivity. Qed.

(** X15. If every quantity passed to [submitOrder] and [modifyOrder] is
    positive, every live order has a positive remaining quantity and
    every trade is for a positive quantity. *)
Theorem X15_positive_inputs_give_positive_trades ops e s p qty ts trades e' :
  Forall valid_op ops → Forall positive_op ops →
  Z.of_nat (length ops) < 2 ^ 64 - 1 →
  run ops MatchingEngine.new = Some e →
  u64 qty →
  MatchingEngine.submitOrder s p qty ts e = Returns trades e' →
  (∀ i o, OrderBook.getOrder i (book_ e) = Some o →
          0 < quantity (storage_ e !!! o)) ∧
  Forall (λ tr, 0 < trade_quantity tr) trades.
Proof.
  intros Hv Hp Hw Hrun Hq Hsub.
  pose proof (reached_Inv ops e Hv Hw Hrun) as HI.
  assert (Hpos : live_positive e).
  { apply (run_positive ops MatchingEngine.new e Inv_new);
      [|done|done| |done].
    - intros i o Hio. simpl in Hio. by rewrite lookup_empty in Hio.
    - simpl. lia. }
  split; [exact Hpos|].
  by destruct (submit_positive s p qty ts e trades e' HI Hpos Hq Hsub).
Qed.

Lemma positive_ops_demo : Forall positive_op ops_demo.
Proof. repeat constructor. Defined.

Lemma X15_witness :
  let e := state_of ops_demo in
  let r := MatchingEngine.submitOrder Sell 10000 25 7 e in
  Forall valid_op ops_demo ∧ Forall positive_op ops_demo ∧
  Z.of_nat (length ops_demo) < 2 ^ 64 - 1 ∧
  run ops_demo MatchingEngine.new = Some e ∧
  u64 25 ∧ r = Returns (trades_of r) (engine_of r) ∧
  (∀ i o, OrderBook.getOrder i (book_ e) = Some o →
          0 < quantity (storage_ e !!! o)) ∧
  Forall (λ tr, 0 < trade_quantity tr) (trades_of r).
Proof.
  intros e r.
  assert (Hq : u64 25) by (unfold u64; lia).
  assert (H : r = Returns (trades_of r) (engine_of r))
    by (vm_compute; reflexivity).
  exact (conj valid_ops_demo (conj positive_ops_demo (conj length_ops_demo
    (conj run_ops_demo (conj Hq (conj H
      (X15_positive_inputs_give_positive_trades ops_demo e Sell 10000 25 7 _ _
         valid_ops_demo positive_ops_demo length_ops_demo run_ops_demo
         Hq H))))))).
Defined.

(** ** The timestamp is recorded and never read *)

Definition untimed (o : Order) : Order :=
  mkOrder (id o) (side o) (price o) (quantity o) (originalQty o) 0.

(** Two stores that differ at most in the timestamps of their orders. *)
Definition same_but_time (h h' : list Order) : Prop :=
  untimed <$> h = untimed <$> h'.

Lemma sbt_length h h' : same_but_time h h' → length h = length h'.
Proof.
  intros H. by rewrite <- (length_fmap untimed h), H, length_fmap.
Qed.

Lemma untimed_lookup (h : list Order) (o : nat) :
  untimed (h !!! o) = (untimed <$> h) !!! o.
Proof.
  rewrite !list_lookup_total_alt, list_lookup_fmap. by destruct (h !! o).
Qed.

Section SameButTime.
Context (h h' : list Order) (Hrel : same_but_time h h').

Lemma sbt_lookup o : untimed (h !!! o) = untimed (h' !!! o).
Proof. by rewrite !untimed_lookup, Hrel. Qed.

Lemma sbt_id o : id (h !!! o) = id (h' !!! o).
Proof. exact (f_equal id (sbt_lookup o)). Qed.

Lemma sbt_side o : side (h !!! o) = side (h' !!! o).
Proof. exact (f_equal side (sbt_lookup o)). Qed.

Lemma sbt_price o : price (h !!! o) = price (h' !!! o).
Proof. exact (f_equal price (sbt_lookup o)). Qed.

Lemma sbt_quantity o : quantity (h !!! o) = quantity (h' !!! o).
Proof. exact (f_equal quantity (sbt_lookup o)). Qed.

Lemma sbt_store_quantity p q :
  same_but_time (store_quantity p q h) (store_quantity p q h').
Proof.
  unfold same_but_time, store_quantity.
  rewrite !(list_fmap_alter untimed (set_quantity q) (set_quantity q));
    [by rewrite Hrel|by apply Forall_true..].
Qed.

Lemma sbt_app x x' :
  untimed x = untimed x' → same_but_time (h ++ [x]) (h' ++ [x']).
Proof.
  intros Hx. unfold same_but_time. rewrite !fmap_app. simpl.
  by rewrite Hrel, Hx.
Qed.

Lemma erase_id_time i os :
  PriceLevel.erase_id h i os = PriceLevel.erase_id h' i os.
Proof.
  induction os as [|o os IH]; simpl; [done|]. by rewrite sbt_id, IH.
Qed.

Lemma removeOrder_time i l :
  PriceLevel.removeOrder h i l = PriceLevel.removeOrder h' i l.
Proof.
  unfold PriceLevel.removeOrder. rewrite erase_id_time.
  destruct (PriceLevel.erase_id h' i (orders_ l)) as [[o os]|]; [|done].
  by rewrite sbt_quantity.
Qed.

Lemma popFront_time l : PriceLevel.popFront h l = PriceLevel.popFront h' l.
Proof.
  unfold PriceLevel.popFront. destruct (orders_ l); [done|].
  by rewrite sbt_quantity.
Qed.

Lemma addOrder_time o b : OrderBook.addOrder h o b = OrderBook.addOrder h' o b.
Proof.
  unfold OrderBook.addOrder, OrderBook.add_in, PriceLevel.addOrder.
  by rewrite sbt_side, sbt_price, sbt_id, sbt_quantity.
Qed.

Lemma cancelOrder_time i b :
  OrderBook.cancelOrder h i b = OrderBook.cancelOrder h' i b.
Proof.
  unfold OrderBook.cancelOrder, OrderBook.cancel_in.
  destruct (index_ b !! i) as [o|]; [|done].
  rewrite sbt_side, sbt_price.
  destruct (side (h' !!! o)); f_equal; f_equal;
    (destruct (map_find _ _); [|done]); by rewrite removeOrder_time.
Qed.

Lemma modifyQuantity_time i q b :
  let r := OrderBook.modifyQuantity h i q b in
  let r' := OrderBook.modifyQuantity h' i q b in
  r.1 = r'.1 ∧ r.2.2 = r'.2.2 ∧ same_but_time r.2.1 r'.2.1.
Proof.
  unfold OrderBook.modifyQuantity.
  destruct (index_ b !! i) as [o|]; [|done].
  rewrite sbt_quantity. destruct (q >=? _); [done|].
  pose proof (sbt_store_quantity o q) as Hrel'.
  set (h1 := store_quantity o q h) in *.
  set (h1' := store_quantity o q h') in *.
  assert (Hsd : side (h1 !!! o) = side (h1' !!! o)).
  { exact (f_equal side (eq_trans (eq_trans (untimed_lookup h1 o)
      (f_equal (λ l, l !!! o) Hrel')) (eq_sym (untimed_lookup h1' o)))). }
  assert (Hpr : price (h1 !!! o) = price (h1' !!! o)).
  { exact (f_equal price (eq_trans (eq_trans (untimed_lookup h1 o)
      (f_equal (λ l, l !!! o) Hrel')) (eq_sym (untimed_lookup h1' o)))). }
  rewrite Hsd, Hpr. by destruct (side (h1' !!! o)).
Qed.

End SameButTime.

Definition fill_eq (f f' : MatchingEngine.FillState) : Prop :=
  same_but_time (f_store f) (f_store f') ∧ f_level f = f_level f' ∧
  f_index f = f_index f' ∧ f_trades f = f_trades f'.

Lemma fillLevel_time fuel t : ∀ h h' l idx tr,
  same_but_time h h' →
  option_Forall2 fill_eq
    (MatchingEngine.fillLevel fuel t (MatchingEngine.mkFill h l idx tr))
    (MatchingEngine.fillLevel fuel t (MatchingEngine.mkFill h' l idx tr)).
Proof.
  induction fuel as [|fuel IH]; intros h h' l idx tr Hrel; [constructor|].
  rewrite !fillLevel_S. cbv zeta. simpl.
  rewrite (sbt_quantity _ _ Hrel t).
  destruct ((0 <? quantity (h' !!! t)) && negb (PriceLevel.empty l));
    [|by constructor].
  destruct (PriceLevel.getFront l) as [m|]; [|constructor].
  rewrite (sbt_quantity _ _ Hrel m), (sbt_id _ _ Hrel m),
    (sbt_id _ _ Hrel t), (sbt_price _ _ Hrel m).
  set (fq := Z.min (quantity (h' !!! t)) (quantity (h' !!! m))).
  pose proof (sbt_store_quantity _ _ Hrel t
                (wrap64 (quantity (h' !!! t) - fq))) as Hrel1.
  rewrite (sbt_quantity _ _ Hrel1 m).
  set (h1 := store_quantity t _ h) in *. set (h1' := store_quantity t _ h') in *.
  pose proof (sbt_store_quantity _ _ Hrel1 m
                (wrap64 (quantity (h1' !!! m) - fq))) as Hrel2.
  rewrite (sbt_quantity _ _ Hrel2 m), (sbt_id _ _ Hrel2 m).
  rewrite (popFront_time _ _ Hrel2).
  destruct (_ =? 0); by apply IH.
Qed.

Definition match_eq (m m' : MatchingEngine.MatchState) : Prop :=
  same_but_time (m_store m) (m_store m') ∧ m_book m = m_book m' ∧
  m_trades m = m_trades m'.

Lemma walk_time fuel opp t : ∀ h h' b tr,
  same_but_time h h' →
  option_Forall2 match_eq
    (MatchingEngine.walk fuel opp t (MatchingEngine.mkMatch h b tr))
    (MatchingEngine.walk fuel opp t (MatchingEngine.mkMatch h' b tr)).
Proof.
  induction fuel as [|fuel IH]; intros h h' b tr Hrel; [constructor|].
  rewrite !walk_S. simpl.
  destruct (side_map opp b) as [|[p l] rest]; [by constructor|].
  rewrite (sbt_quantity _ _ Hrel t), (sbt_price _ _ Hrel t).
  destruct (0 <? _); [|by constructor].
  destruct (MatchingEngine.leaves _ _ _); [by constructor|].
  destruct (fillLevel_time (S (length (orders_ l))) t h h' l (index_ b) tr Hrel)
    as [[h1 l1 i1 t1] [h1' l1' i1' t1'] (Hs & Hl & Hi & Ht)|]; [|constructor].
  simpl in *. subst. by apply IH.
Qed.

(** Two engines that differ at most in the timestamps of their orders. *)
Definition time_eq (e e' : MatchingEngine.t) : Prop :=
  book_ e = book_ e' ∧ nextOrderId_ e = nextOrderId_ e' ∧
  same_but_time (storage_ e) (storage_ e').

Definition outcome_time_eq {A} (r r' : MatchingEngine.Outcome A) : Prop :=
  match r, r' with
  | Returns a e, Returns a' e' => a = a' ∧ time_eq e e'
  | Throws err e, Throws err' e' => err = err' ∧ time_eq e e'
  | OutOfFuel, OutOfFuel => True
  | _, _ => False
  end.

Lemma submitOrder_time s p qty ts ts' e e' :
  time_eq e e' →
  outcome_time_eq (MatchingEngine.submitOrder s p qty ts e)
                  (MatchingEngine.submitOrder s p qty ts' e').
Proof.
  destruct e as [b h n], e' as [b' h' n']. intros (Hb & Hn & Hrel).
  simpl in *. subst b' n'.
  unfold MatchingEngine.submitOrder, MatchingEngine.match_. simpl.
  rewrite <- (sbt_length _ _ Hrel).
  rewrite !(list_lookup_total_middle _ _ _ (length h)) by
    (done || by rewrite (sbt_length _ _ Hrel)).
  simpl.
  assert (Hrel0 : same_but_time (h ++ [mkOrder n s p qty qty ts])
                                (h' ++ [mkOrder n s p qty qty ts']))
    by (by apply sbt_app).
  destruct (walk_time (S (length (side_map (opposite s) b))) (opposite s)
              (length h) _ _ b [] Hrel0)
    as [[h1 b1 t1] [h1' b1' t1'] (Hs & -> & ->)|]; [|done].
  simpl in *. rewrite (sbt_quantity _ _ Hs), (addOrder_time _ _ Hs).
  by destruct (0 <? _).
Qed.

(** X16. The timestamp of an order is recorded and never read: on two
    engines that differ at most in the timestamps of their stored orders,
    the same call with any two clock readings has the same outcome, with
    the same trades, return value or error, and leaves the same book and id
    counter, and stores that again differ at most in timestamps.  Priority
    within a level is the order of arrival at the level, whatever the
    clock says. *)
Theorem X16_timestamps_are_never_read e e' s i p qty ts ts' :
  time_eq e e' →
  outcome_time_eq (MatchingEngine.submitOrder s p qty ts e)
                  (MatchingEngine.submitOrder s p qty ts' e') ∧
  outcome_time_eq (MatchingEngine.cancelOrder i e)
                  (MatchingEngine.cancelOrder i e') ∧
  outcome_time_eq (MatchingEngine.modifyOrder i p qty ts e)
                  (MatchingEngine.modifyOrder i p qty ts' e').
Proof.
  intros Heq. split; [by apply submitOrder_time|].
  destruct e as [b h n], e' as [b' h' n'].
  pose proof Heq as (Hb & Hn & Hrel). simpl in *. subst b' n'.
  split.
  - unfold MatchingEngine.cancelOrder. simpl.
    rewrite (cancelOrder_time _ _ Hrel). by split.
  - unfold MatchingEngine.modifyOrder. simpl.
    destruct (OrderBook.getOrder i b) as [o|]; [|by split].
    rewrite (sbt_price _ _ Hrel o), (sbt_quantity _ _ Hrel o),
      (sbt_side _ _ Hrel o).
    destruct (decide (p = price (h' !!! o))).
    + destruct (qty >=? _); [by split|].
      destruct (modifyQuantity_time _ _ Hrel i qty b) as (_ & Hb2 & Hs2).
      simpl. split; [done|]. by split.
    + apply submitOrder_time. rewrite (cancelOrder_time _ _ Hrel). by split.
Qed.

Definition ops_demo_retimed : list Op :=
  [OpSubmit Buy 10000 50 11; OpSubmit Sell 10100 60 12; OpSubmit Buy 9900 10 13;
   OpModify 1 10000 20 14; OpCancel 3; OpModify 2 10050 30 15;
   OpSubmit Buy 10000 7 16].

Lemma X16_witness :
  let e := state_of ops_demo in
  let e' := state_of ops_demo_retimed in
  time_eq e e' ∧
  outcome_time_eq (MatchingEngine.submitOrder Sell 9990 25 7 e)
                  (MatchingEngine.submitOrder Sell 9990 25 99 e') ∧
  outcome_time_eq (MatchingEngine.cancelOrder 5 e)
                  (MatchingEngine.cancelOrder 5 e') ∧
  outcome_time_eq (MatchingEngine.modifyOrder 5 9990 25 7 e)
                  (MatchingEngine.modifyOrder 5 9990 25 99 e').
Proof.
  intros e e'.
  assert (H : time_eq e e') by (vm_compute; by repeat split).
  exact (conj H (X16_timestamps_are_never_read e e' Sell 5 9990 25 7 99 H)).
Defined.

(** ** Time priority is id order *)

Lemma StronglySorted_sublist {A} (R : A → A → Prop) (l k : list A) :
  l `sublist_of` k → StronglySorted R k → StronglySorted R l.
Proof.
  induction 1 as [|x l k Hsub IH|x l k Hsub IH]; intros Hs; [done|..];
    apply StronglySorted_inv in Hs as [Hs Hall].
  - constructor; [by apply IH|].
    apply Forall_forall. intros y Hy.
    apply (proj1 (Forall_forall _ _) Hall). by eapply elem_of_sublist.
  - by apply IH.
Qed.

(** The queue of every level of the side is in increasing id order. *)
Definition queue_sorted (h : list Order) (m : list (Price * PriceLevel.t))
  : Prop :=
  ∀ k l, (k, l) ∈ m → StronglySorted Z.lt (ids h (orders_ l)).

Definition fifo (e : MatchingEngine.t) : Prop :=
  ∀ s, queue_sorted (storage_ e) (side_map s (book_ e)).

Lemma queue_sorted_from h h' m m' :
  (∀ o, o ∈ ptrs_of m → id (h' !!! o) = id (h !!! o)) →
  (∀ k l', (k, l') ∈ m' →
     ∃ l, (k, l) ∈ m ∧ orders_ l' `sublist_of` orders_ l) →
  queue_sorted h m → queue_sorted h' m'.
Proof.
  intros Hid Hfrom Hs k l' Hin.
  destruct (Hfrom k l' Hin) as (l & Hl & Hsub).
  assert (ids h' (orders_ l') = ids h (orders_ l')) as ->.
  { apply list_fmap_ext. intros ? o Ho. simpl. apply Hid.
    apply elem_of_ptrs_of. exists (k, l). split; [done|].
    eapply elem_of_sublist; [|exact Hsub]. by eapply list_elem_of_lookup_2. }
  eapply StronglySorted_sublist; [|by eapply Hs].
  by apply fmap_sublist.
Qed.

Lemma submit_old_id s p qty ts e trades e' removed part o :
  submit_trace s p qty ts e trades e' removed part →
  (o < length (storage_ e))%nat →
  id (storage_ e' !!! o) = id (storage_ e !!! o).
Proof.
  intros Htr Ho. destruct (st_frozen _ _ _ _ _ _ _ _ _ Htr) as [_ Hfz].
  specialize (Hfz o). rewrite lookup_total_take, decide_True in Hfz by done.
  exact (f_equal id Hfz).
Qed.

Lemma submit_fifo s p qty ts e trades e' :
  Inv e → fifo e → u64 qty →
  MatchingEngine.submitOrder s p qty ts e = Returns trades e' → fifo e'.
Proof.
  intros HI Hf Hq Hrun.
  destruct (submit_facts s p qty ts e trades e' HI Hq Hrun)
    as (Hpost & removed & part & Htr).
  pose proof (inv_book _ HI) as Hb.
  assert (Hold : ∀ s' o, o ∈ ptrs_of (side_map s' (book_ e)) →
            id (storage_ e' !!! o) = id (storage_ e !!! o)).
  { intros s' o Ho. eapply submit_old_id; [done|].
    apply (book_ptrs_valid _ (book_ e)); [done|].
    apply elem_of_book_ptrs. by exists s'. }
  intros s'. destruct (decide (s' = s)) as [->|Hs'].
  - rewrite (st_own _ _ _ _ _ _ _ _ _ Htr).
    destruct (0 <? qty - filled trades).
    2:{ eapply queue_sorted_from; [apply Hold| |apply Hf].
        intros k l Hin. by exists l. }
    pose proof (proj1 (book_ok_side s _ _) Hb) as ([Hlev Hso] & _).
    destruct (add_in_spec s (storage_ e') (length (storage_ e)) p _ Hso)
      as (m1 & l0 & m2 & -> & _ & Hm).
    assert (Hl0 : StronglySorted Z.lt (ids (storage_ e) (orders_ l0)) ∧
                  ∀ o, o ∈ orders_ l0 → o ∈ ptrs_of (side_map s (book_ e))).
    { destruct Hm as [Hm|[Hm ->]].
      - split.
        + apply (Hf s p l0). rewrite Hm. set_solver.
        + intros o Ho. apply elem_of_ptrs_of. exists (p, l0).
          split; [|done]. rewrite Hm. set_solver.
      - split; [constructor|]. intros o Ho. by apply elem_of_nil in Ho. }
    destruct Hl0 as [Hs0 Hsub0].
    assert (Hkeep : queue_sorted (storage_ e') (side_map s (book_ e))).
    { eapply queue_sorted_from; [apply Hold| |apply Hf].
      intros k l Hin. by exists l. }
    intros k l Hin. apply elem_of_app in Hin as [Hin|Hin].
    { apply (Hkeep k). destruct Hm as [Hm|[Hm _]]; rewrite Hm; set_solver. }
    apply elem_of_cons in Hin as [[= -> ->]|Hin].
    2:{ apply (Hkeep k). destruct Hm as [Hm|[Hm _]]; rewrite Hm; set_solver. }
    simpl. unfold ids. rewrite fmap_app. simpl.
    rewrite (list_lookup_total_correct _ _ _ (st_new _ _ _ _ _ _ _ _ _ Htr)).
    simpl. apply StronglySorted_app.
    split; [|split; [|repeat constructor]].
    + intros x y Hx Hy. apply list_elem_of_singleton in Hy as ->.
      apply list_elem_of_fmap in Hx as (o & -> & Ho).
      rewrite (Hold s) by (by apply Hsub0).
      destruct (inv_store _ HI) as [Hids _].
      assert (Hlt : (o < length (storage_ e))%nat).
      { apply (book_ptrs_valid _ (book_ e)); [done|].
        apply elem_of_book_ptrs. exists s. by apply Hsub0. }
      pose proof (proj1 (Forall_total _ _) Hids o Hlt). simpl in *. lia.
    + assert ((λ o, id (storage_ e' !!! o)) <$> orders_ l0
              = ids (storage_ e) (orders_ l0)) as ->; [|done].
      apply list_fmap_ext. intros ? o Ho. simpl. apply (Hold s), Hsub0.
      by eapply list_elem_of_lookup_2.
  - replace s' with (opposite s) by (by destruct s, s').
    eapply queue_sorted_from; [apply Hold| |apply Hf].
    intros k l' Hin.
    destruct (st_levels _ _ _ _ _ _ _ _ _ Htr k l' Hin) as (l & pre & Hl & Hpre).
    exists l. split; [done|]. rewrite Hpre. by apply sublist_inserts_l.
Qed.

Lemma apply_fifo op e e' :
  Inv e → fifo e → valid_op op → apply_op op e = Some e' → fifo e'.
Proof.
  intros HI Hf Hv. pose proof (inv_book _ HI) as Hb.
  destruct op as [s p qty ts|i|i p qty ts]; cbn [apply_op valid_op] in *.
  - destruct (MatchingEngine.submitOrder s p qty ts e) as [trades e1| |] eqn:Hs;
      simpl; intros [= <-].
    + exact (submit_fifo s p qty ts e trades e1 HI Hf (proj1 (proj2 Hv)) Hs).
    + by unfold MatchingEngine.submitOrder in Hs;
        destruct (MatchingEngine.match_ _ _ _).
  - unfold MatchingEngine.cancelOrder. simpl. intros [= <-]. simpl.
    destruct (index_ (book_ e) !! i) as [o|] eqn:Hio.
    2:{ unfold OrderBook.cancelOrder. by rewrite Hio. }
    destruct (cancel_live _ _ _ _ Hb Hio)
      as (_ & _ & Hopp & l & os1 & os2 & _ & _ & _ & _ & _ & Hlev & _).
    intros s. simpl.
    destruct (decide (s = side (storage_ e !!! o))) as [->|Hs].
    + eapply queue_sorted_from; [done|exact Hlev|apply Hf].
    + replace s with (opposite (side (storage_ e !!! o)))
        by (by destruct s, (side (storage_ e !!! o))).
      rewrite Hopp. apply Hf.
  - unfold MatchingEngine.modifyOrder, OrderBook.getOrder.
    destruct (index_ (book_ e) !! i) as [o|] eqn:Hio; simpl.
    2:{ by intros [= <-]. }
    destruct (decide (p = price (storage_ e !!! o))) as [->|Hne].
    + destruct (qty >=? quantity (storage_ e !!! o)) eqn:Eq; simpl;
        intros [= <-]; [done|].
      assert (Hlt : qty < quantity (storage_ e !!! o)).
      { rewrite Z.geb_leb in Eq. by apply Z.leb_gt in Eq. }
      destruct (modify_live (storage_ e) i qty (book_ e) o Hb Hio Hlt)
        as (_ & Hst & _ & Hopp & _ & Hlev & _).
      intros s. cbn [MatchingEngine.book_ MatchingEngine.storage_].
      rewrite Hst.
      assert (Hid : ∀ o', id (store_quantity o qty (storage_ e) !!! o')
                          = id (storage_ e !!! o')).
      { intros o'. apply store_quantity_static. }
      destruct (decide (s = side (storage_ e !!! o))) as [->|Hs].
      * eapply queue_sorted_from; [intros; apply Hid| |apply Hf].
        intros k l' Hin. destruct (Hlev k l' Hin) as (l0 & Hl0 & ->).
        by exists l0.
      * replace s with (opposite (side (storage_ e !!! o)))
          by (by destruct s, (side (storage_ e !!! o))).
        rewrite Hopp.
        eapply queue_sorted_from; [intros; apply Hid| |apply Hf].
        intros k l' Hin. by exists l'.
    + destruct (cancel_Inv i e HI) as (r & e1 & Hc & HI1 & _).
      unfold MatchingEngine.cancelOrder in Hc. injection Hc as _ <-.
      destruct (MatchingEngine.submitOrder _ p qty ts _) as [trades e2| |] eqn:Hs;
        simpl; intros [= <-].
      * eapply submit_fifo in Hs; [done|done| |apply Hv].
        destruct (cancel_live _ _ _ _ Hb Hio)
          as (_ & _ & Hopp & l & os1 & os2 & _ & _ & _ & _ & _ & Hlev & _).
        intros s'. simpl.
        destruct (decide (s' = side (storage_ e !!! o))) as [->|Hs'].
        -- eapply queue_sorted_from; [done|exact Hlev|apply Hf].
        -- replace s' with (opposite (side (storage_ e !!! o)))
             by (by destruct s', (side (storage_ e !!! o))).
           rewrite Hopp. apply Hf.
      * by unfold MatchingEngine.submitOrder in Hs;
          destruct (MatchingEngine.match_ _ _ _).
Qed.

Lemma run_fifo ops : ∀ e e',
  Inv e → fifo e → Forall valid_op ops →
  nextOrderId_ e + Z.of_nat (length ops) < 2 ^ 64 →
  run ops e = Some e' → fifo e'.
Proof.
  induction ops as [|op ops IH]; intros e e' HI Hf Hv Hw Hrun; simpl in *.
  - by injection Hrun as <-.
  - apply Forall_cons in Hv as [Hop Hv].
    destruct (step_ok op e HI Hop) as (e1 & Hstep & HI1 & Hn1); [lia|].
    rewrite Hstep in Hrun.
    apply (IH e1 e'); [done| |done|lia|done].
    exact (apply_fifo op e e1 HI Hf Hop Hstep).
Qed.

(** X17. Time priority is id order.  In every level the queue is in
    strictly increasing order of id: an order stands behind exactly those
    orders of its level that were given their id before it.  With X1, the
    orders of a level trade in the order in which they were submitted at
    that price. *)
Theorem X17_queues_are_in_id_order e s k l :
  reachable e → (k, l) ∈ side_map s (book_ e) →
  StronglySorted Z.lt (ids (storage_ e) (orders_ l)).
Proof.
  intros (ops & Hv & Hw & Hrun) Hin.
  assert (Hf : fifo e).
  { apply (run_fifo ops MatchingEngine.new e Inv_new); [|done| |done].
    - intros s' k' l' Hin'. destruct s'; by apply elem_of_nil in Hin'.
    - simpl. lia. }
  by apply (Hf s k l).
Qed.

Lemma X17_witness :
  let e := state_of ops_demo in
  let l := PriceLevel.mk 10000 [0; 4]%nat 27 in
  reachable e ∧ (10000, l) ∈ side_map Buy (book_ e) ∧
  StronglySorted Z.lt (ids (storage_ e) (orders_ l)).
Proof.
  intros e l.
  assert (H : (10000, l) ∈ side_map Buy (book_ e))
    by (vm_compute; apply list_elem_of_here).
  exact (conj reachable_demo (conj H
    (X17_queues_are_in_id_order e Buy 10000 l reachable_demo H))).
Defined.

(** ** BookPrinter.h: the rows [printBook] shows

    [printBook] writes to [std::cout]; what is modelled is which levels it
    writes, not how it formats them.  [askLevels] is the vector of that
    name the function fills,
    [for (auto it = asks.rbegin(); it != asks.rend() && count < levels;
    ++it, ++count)], and [bidRows] the rows of its loop over the bids,
    which stops at [count++ >= levels]. *)

Module BookPrinter.

Definition level_row (kl : Price * PriceLevel.t) : Price * Quantity :=
  (kl.1, PriceLevel.totalQuantity kl.2).

Definition askLevels (levels : Z) (b : OrderBook.t) : list (Price * Quantity) :=
  take (Z.to_nat levels) (level_row <$> reverse (asks_ b)).

Definition bidRows (levels : Z) (b : OrderBook.t) : list (Price * Quantity) :=
  take (Z.to_nat levels) (level_row <$> bids_ b).

End BookPrinter.

Lemma askLevels_prices levels b :
  (BookPrinter.askLevels levels b).*1
  = take (Z.to_nat levels) (reverse (keys (asks_ b))).
Proof.
  unfold BookPrinter.askLevels, keys.
  rewrite fmap_take, <- list_fmap_compose, fmap_reverse. done.
Qed.

(** X18. [printBook] lists the asks from the highest price down and stops
    after [levels] rows, so the rows it shows are the [levels] worst asks:
    the best ask is among them exactly when [levels] is positive and every
    ask level fits.  The bids are listed from the best bid down, so the
    best bid is shown whenever [levels] is positive. *)
Theorem X18_printBook_shows_the_best_ask_only_if_all_fit e levels a :
  reachable e → OrderBook.bestAsk (book_ e) = Some a →
  (a ∈ (BookPrinter.askLevels levels (book_ e)).*1 ↔
   0 < levels ∧ Z.of_nat (length (asks_ (book_ e))) ≤ levels) ∧
  (0 < levels →
   head (BookPrinter.bidRows levels (book_ e)).*1
   = OrderBook.bestBid (book_ e)).
Proof.
  intros Hr Ha. pose proof (reachable_Inv' e Hr) as HI.
  destruct (bk_asks _ _ (inv_book _ HI)) as [_ Hso].
  split.
  - rewrite askLevels_prices. unfold OrderBook.bestAsk in Ha.
    destruct (asks_ (book_ e)) as [|[a0 l0] rest]; [done|].
    injection Ha as ->. simpl in Hso. apply StronglySorted_inv in Hso as [_ Hall].
    assert (Hfresh : a ∉ keys rest).
    { intros Hin. pose proof (proj1 (Forall_forall _ _) Hall _ Hin) as Hlt.
      simpl in Hlt. lia. }
    simpl. rewrite reverse_cons.
    assert (Hlen : length (reverse (keys rest)) = length rest).
    { unfold keys. by rewrite length_reverse, length_fmap. }
    split.
    + intros Hin.
      destruct (decide (Z.to_nat levels ≤ length rest)%nat) as [Hle|Hgt].
      * rewrite take_app_le in Hin by lia.
        apply (subseteq_take (Z.to_nat levels)) in Hin.
        by rewrite elem_of_reverse in Hin.
      * lia.
    + intros [Hpos Hfit]. rewrite take_ge.
      * apply elem_of_app. right. by left.
      * rewrite length_app, Hlen. simpl. lia.
  - intros Hpos. unfold BookPrinter.bidRows, OrderBook.bestBid.
    destruct (Z.to_nat levels) as [|n] eqn:En; [lia|].
    by destruct (bids_ (book_ e)) as [|[k l] rest].
Qed.

Definition ops_two_asks : list Op :=
  [OpSubmit Sell 10100 5 1; OpSubmit Sell 10200 5 2; OpSubmit Buy 9900 5 3].

Lemma reachable_two_asks : reachable (state_of ops_two_asks).
Proof.
  exists ops_two_asks. split; [|split].
  - repeat constructor; unfold i64, u64; lia.
  - simpl. lia.
  - vm_compute. reflexivity.
Defined.

Lemma X18_witness :
  let e := state_of ops_two_asks in
  reachable e ∧ OrderBook.bestAsk (book_ e) = Some 10100 ∧
  (10100 ∈ (BookPrinter.askLevels 1 (book_ e)).*1 ↔
   0 < 1 ∧ Z.of_nat (length (asks_ (book_ e))) ≤ 1) ∧
  (0 < 1 →
   head (BookPrinter.bidRows 1 (book_ e)).*1 = OrderBook.bestBid (book_ e)).
Proof.
  intros e.
  assert (H : OrderBook.bestAsk (book_ e) = Some 10100)
    by (vm_compute; reflexivity).
  exact (conj reachable_two_asks (conj H
    (X18_printBook_shows_the_best_ask_only_if_all_fit e 1 10100
       reachable_two_asks H))).
Defined.
